(** * pystan/_chains.pyx : ESS and split R-hat, embedded and verified

    The Cython module [_chains.pyx] computes the effective sample size and the
    split potential scale reduction of one parameter of a simulation
    snapshot [sim].  The embedding below follows the source statement by
    statement:

    - C [double]s are an abstract carrier [F] with the operations of the
      class [Double]; two instances are given, IEEE binary64 (the kernel's
      primitive floats, what the compiled module runs on) and exact
      rationals (the arithmetic the statistical formulas are written in).
    - C [unsigned int]s are integers in [0, 2^32) with the wrap-around of
      [-] and [*] written out; Python ints are unbounded integers.  The
      operator [/] between two C integers is the integer division.
    - A Cython division of C doubles checks its divisor (the default
      [cdivision=False]) and raises [ZeroDivisionError] on zero; a division
      inside an external C++ primitive does not.
    - Python exceptions propagate to the caller, also out of the [cdef]
      functions; leaving the contract of an external C++ primitive, or
      indexing a C++ vector out of range, is the outcome [Undefined].
    - The snapshot and the C++ vectors created with [new] live in a store
      that every function threads through; local C++ vectors are values. *)

From Stdlib Require Import ZArith QArith Qfield Lqa List String Bool Lia Permutation.
From Stdlib Require Import Floats.PrimFloat Numbers.Cyclic.Int63.Uint63.
Import ListNotations.

Local Open Scope Z_scope.
Local Open Scope list_scope.

(** ** C doubles *)

Class Double (F : Type) : Type := {
  fadd : F -> F -> F;
  fsub : F -> F -> F;
  fmul : F -> F -> F;
  (** the C division [x / y], unchecked *)
  fdiv : F -> F -> F;
  (** conversion of an integer to [double] *)
  of_Z : Z -> F;
  (** the C test [x == 0] *)
  is_zero : F -> bool;
  (** the C test [x >= 0] *)
  ge_zero : F -> bool;
  (** [0 >= 0] holds *)
  ge_zero_0 : ge_zero (of_Z 0) = true
}.

(** [libc.math.sqrt] *)
Class Sqrt (F : Type) : Type := { fsqrt : F -> F }.

(** IEEE 754 binary64. *)
Definition float_of_Z (z : Z) : float :=
  match z with
  | Z0 => PrimFloat.zero
  | Zpos _ => PrimFloat.of_uint63 (Uint63.of_Z z)
  | Zneg _ => PrimFloat.opp (PrimFloat.of_uint63 (Uint63.of_Z (- z)))
  end.

#[export] Instance binary64 : Double float := {
  fadd := PrimFloat.add;
  fsub := PrimFloat.sub;
  fmul := PrimFloat.mul;
  fdiv := PrimFloat.div;
  of_Z := float_of_Z;
  is_zero := fun x => PrimFloat.eqb x PrimFloat.zero;
  ge_zero := fun x => PrimFloat.leb PrimFloat.zero x;
  ge_zero_0 := eq_refl
}.

#[export] Instance binary64_sqrt : Sqrt float := { fsqrt := PrimFloat.sqrt }.

(** Exact rational arithmetic. *)
#[export] Instance exact : Double Q := {
  fadd := Qplus;
  fsub := Qminus;
  fmul := Qmult;
  fdiv := Qdiv;
  of_Z := inject_Z;
  is_zero := fun x => Qeq_bool x 0%Q;
  ge_zero := fun x => Qle_bool 0%Q x;
  ge_zero_0 := eq_refl
}.

(** ** Outcomes *)

(** The Python exceptions the module can raise. *)
Inductive exn : Type :=
| IndexError
| KeyError
| OverflowError
| ValueError
| ZeroDivisionError.

Inductive res (A : Type) : Type :=
| Ok (a : A)
| Raise (e : exn)
| Undefined.
Arguments Ok {A} a.
Arguments Raise {A} e.
Arguments Undefined {A}.

Definition res_bind {A B : Type} (r : res A) (k : A -> res B) : res B :=
  match r with
  | Ok a => k a
  | Raise e => Raise e
  | Undefined => Undefined
  end.

(** ** C unsigned int, size_t and Python sequences *)

Definition UINT_MAX1 : Z := 2 ^ 32.
Definition SIZE_MAX1 : Z := 2 ^ 64.

(** Conversion of a Python int to [unsigned int]. *)
Definition to_uint (z : Z) : res Z :=
  if (0 <=? z) && (z <? UINT_MAX1) then Ok z else Raise OverflowError.

(** Conversion of a Python int to [size_t]. *)
Definition to_size_t (z : Z) : res Z :=
  if (0 <=? z) && (z <? SIZE_MAX1) then Ok z else Raise OverflowError.

Definition uint_sub (a b : Z) : Z := (a - b) mod UINT_MAX1.
Definition uint_mul (a b : Z) : Z := (a * b) mod UINT_MAX1.

(** Conversion of a Python list of ints to [vector[uint]]. *)
Fixpoint to_uint_vector (l : list Z) : res (list Z) :=
  match l with
  | [] => Ok []
  | z :: l' =>
      res_bind (to_uint z) (fun u =>
      res_bind (to_uint_vector l') (fun us => Ok (u :: us)))
  end.

(** [l[i]] on a Python list, for an index that is not negative. *)
Definition py_index {A : Type} (l : list A) (i : Z) : res A :=
  if i <? 0 then Raise IndexError
  else match nth_error l (Z.to_nat i) with
       | Some a => Ok a
       | None => Raise IndexError
       end.

(** [d[key]] on an OrderedDict, kept as the list of its items in insertion
    order. *)
Fixpoint dict_get {V : Type} (d : list (string * V)) (key : string) : res V :=
  match d with
  | [] => Raise KeyError
  | (k, v) :: d' => if String.eqb k key then Ok v else dict_get d' key
  end.

(** [v[i]] on a C++ vector ([operator[]], unchecked). *)
Definition vec_at {A : Type} (v : list A) (i : Z) : res A :=
  if i <? 0 then Undefined
  else match nth_error v (Z.to_nat i) with
       | Some a => Ok a
       | None => Undefined
       end.

(** [v[i] = x] on a C++ vector. *)
Fixpoint vec_update {A : Type} (v : list A) (i : nat) (x : A) : option (list A) :=
  match v, i with
  | [], _ => None
  | _ :: v', O => Some (x :: v')
  | a :: v', S i' => option_map (cons a) (vec_update v' i' x)
  end.

(** The values [lo, lo+1, ..., hi-1] of [range(lo, hi)]. *)
Definition py_range (lo hi : Z) : list Z :=
  map (fun i => lo + Z.of_nat i) (seq 0 (Z.to_nat (hi - lo))).

(** [min(l)] on a Python list of ints. *)
Definition py_min (l : list Z) : res Z :=
  match l with
  | [] => Raise ValueError
  | z :: l' => Ok (fold_left Z.min l' z)
  end.

(** ** The simulation snapshot and the store *)

(** The dict [sim]: [sim['chains']], [sim['n_save']], [sim['warmup2']] and,
    for each chain, the OrderedDict [sim['samples'][k]['chains']] from
    parameter names to draw sequences. *)
Record Sim (F : Type) : Type := mkSim {
  sim_chains : Z;
  sim_n_save : list Z;
  sim_warmup2 : list Z;
  sim_samples : list (list (string * list F))
}.
Arguments mkSim {F} _ _ _ _.
Arguments sim_chains {F} _.
Arguments sim_n_save {F} _.
Arguments sim_warmup2 {F} _.
Arguments sim_samples {F} _.

(** A [vector[double]*] is the index of its vector in the C++ heap. *)
Definition loc : Type := nat.

Record store (F : Type) : Type := mkStore {
  snapshot : Sim F;
  heap : list (list F)
}.
Arguments mkStore {F} _ _.
Arguments snapshot {F} _.
Arguments heap {F} _.

(** A computation: an outcome and the store it leaves. *)
Definition M (F A : Type) : Type := store F -> res A * store F.

Section Monad.
Context {F : Type}.

Definition ret {A : Type} (a : A) : M F A := fun s => (Ok a, s).

Definition bind {A B : Type} (m : M F A) (k : A -> M F B) : M F B :=
  fun s =>
    match m s with
    | (Ok a, s') => k a s'
    | (Raise e, s') => (Raise e, s')
    | (Undefined, s') => (Undefined, s')
    end.

Definition lift {A : Type} (r : res A) : M F A := fun s => (r, s).

(** Reading a field of the snapshot. *)
Definition py {A : Type} (f : Sim F -> A) : M F A :=
  fun s => (Ok (f (snapshot s)), s).

(** [new vector[double](...)] *)
Definition new_vector (init : list F) : M F loc :=
  fun s => (Ok (List.length (heap s)), mkStore (snapshot s) (heap s ++ [init])).

(** [deref(p)] read as a value. *)
Definition deref (p : loc) : M F (list F) :=
  fun s =>
    match nth_error (heap s) p with
    | Some v => (Ok v, s)
    | None => (Undefined, s)
    end.

(** Overwriting the vector behind [p]. *)
Definition assign (p : loc) (v : list F) : M F unit :=
  fun s =>
    match vec_update (heap s) p v with
    | Some h => (Ok tt, mkStore (snapshot s) h)
    | None => (Undefined, s)
    end.

Definition push_back (p : loc) (x : F) : M F unit :=
  bind (deref p) (fun v => assign p (v ++ [x])).

Definition clear (p : loc) : M F unit := assign p [].

(** [deref(p)[i] = x] *)
Definition store_at (p : loc) (i : Z) (x : F) : M F unit :=
  bind (deref p) (fun v =>
    if i <? 0 then lift Undefined
    else match vec_update v (Z.to_nat i) x with
         | Some v' => assign p v'
         | None => lift Undefined
         end).

(** [for i in l: acc = body(i, acc)] *)
Fixpoint for_each {A S : Type} (l : list A) (body : A -> S -> M F S) (acc : S)
  : M F S :=
  match l with
  | [] => ret acc
  | a :: l' => bind (body a acc) (for_each l' body)
  end.
End Monad.

Declare Scope chains_scope.
Delimit Scope chains_scope with chains.
Notation "x <- m ;; k" := (bind m (fun x => k))
  (at level 61, m at next level, right associativity) : chains_scope.
Notation "' pat <- m ;; k" := (bind m (fun x => match x with pat => k end))
  (at level 61, pat pattern, m at next level, right associativity) : chains_scope.
Notation "m ;; k" := (bind m (fun _ => k))
  (at level 61, right associativity) : chains_scope.
Local Open Scope chains_scope.

(** ** The external C++ primitives *)

(** Modelled from the spec: [stan::math::sum], [mean] and [variance] and
    [stan::prob::autocovariance] are declared [cdef extern] and live in the
    Stan C++ headers.  Their contracts (spec 4.2, 6 and 3): [sum] and [mean]
    are defined for a sequence of length at least 1 ([mean] fails on length
    0); [variance] is the unbiased sample variance, denominator length - 1,
    undefined below two samples; the autocovariance of a sequence of length
    L is the biased sample autocovariance at the lags 0..L-1, denominator L,
    undefined for L below 2. *)
Module stan.
Section Primitives.
Context {F : Type} {D : Double F}.

Definition sum (x : list F) : F := fold_left fadd x (of_Z 0).

(** The arithmetic mean of a sequence that is not empty. *)
Definition mean_of (x : list F) : F :=
  fdiv (sum x) (of_Z (Z.of_nat (List.length x))).

Definition mean (x : list F) : res F :=
  match x with
  | [] => Undefined
  | _ => Ok (mean_of x)
  end.

Definition centered (x : list F) (mu : F) : list F :=
  map (fun v => fsub v mu) x.

(** The sample variance, denominator length - 1, of two values or more. *)
Definition variance_of (x : list F) : F :=
  let d := centered x (mean_of x) in
  fdiv (sum (map (fun v => fmul v v) d)) (of_Z (Z.of_nat (List.length x) - 1)).

Definition variance (x : list F) : res F :=
  match x with
  | [] | [_] => Undefined
  | _ => Ok (variance_of x)
  end.

(** The products [d[i] * d[i+t]] over the pairs that exist. *)
Definition lag_products (d : list F) (t : nat) : list F :=
  map (fun p => fmul (fst p) (snd p)) (combine d (skipn t d)).

(** The biased autocovariance, denominator L, at the lags 0..L-1. *)
Definition autocovariance_of (y : list F) : list F :=
  let d := centered y (mean_of y) in
  map (fun t => fdiv (sum (lag_products d t)) (of_Z (Z.of_nat (List.length y))))
      (seq 0 (List.length y)).

Definition autocovariance (y : list F) : res (list F) :=
  match y with
  | [] | [_] => Undefined
  | _ => Ok (autocovariance_of y)
  end.
End Primitives.
End stan.

(** ** The module [_chains.pyx] *)

Section Chains.
Context {F : Type} {D : Double F}.

(** A Cython division [x / y] of C doubles. *)
Definition cdiv (x y : F) : res F :=
  if is_zero y then Raise ZeroDivisionError else Ok (fdiv x y).

(** A Python division [x / d] of a float by an int. *)
Definition py_div (x : F) (d : Z) : res F :=
  if d =? 0 then Raise ZeroDivisionError else Ok (fdiv x (of_Z d)).

(** [cdef double get_chain_mean(dict sim, uint k, uint n)], lines 16-26. *)
Definition get_chain_mean (k n : Z) : M F F :=
  allsamples <- py sim_samples ;;
  warmup2 <- py sim_warmup2 ;;
  slst <- lift (py_index allsamples k) ;;
  let param_names := map fst slst in
  key <- lift (py_index param_names n) ;;
  nv <- lift (dict_get slst key) ;;
  let mean := of_Z 0 in
  w <- lift (py_index warmup2 k) ;;
  mean <- for_each (py_range 0 (Z.of_nat (List.length nv) - w))
            (fun i mean =>
               w <- lift (py_index warmup2 k) ;;
               j <- lift (to_size_t (w + i)) ;;
               x <- lift (vec_at nv j) ;;
               ret (fadd mean x))
            mean ;;
  w <- lift (py_index warmup2 k) ;;
  lift (py_div mean (Z.of_nat (List.length nv) - w)).

(** [cdef void get_kept_samples(dict sim, uint k, uint n,
    vector[double]& samples)], lines 29-51. *)
Definition get_kept_samples (k n : Z) (samples : loc) : M F unit :=
  allsamples <- py sim_samples ;;
  n_save <- py sim_n_save ;;
  warmup2 <- py sim_warmup2 ;;
  slst <- lift (py_index allsamples k) ;;
  let param_names := map fst slst in
  key <- lift (py_index param_names n) ;;
  nv <- lift (dict_get slst key) ;;
  clear samples ;;
  w <- lift (py_index warmup2 k) ;;
  for_each (py_range 0 (Z.of_nat (List.length nv) - w))
    (fun i _ =>
       w <- lift (py_index warmup2 k) ;;
       j <- lift (to_size_t (w + i)) ;;
       x <- lift (vec_at nv j) ;;
       push_back samples x)
    tt.

(** The call [stan_autocovariance(deref(samples), deref(acov))]: the C++
    function takes [acov] by reference and fills it. *)
Definition stan_autocovariance (y acov : loc) : M F unit :=
  v <- deref y ;;
  a <- lift (stan.autocovariance v) ;;
  assign acov a.

(** [cdef vector[double] autocovariance(dict sim, uint k, uint n)],
    lines 54-80. *)
Definition autocovariance (k n : Z) : M F (list F) :=
  samples <- new_vector [] ;;
  acov <- new_vector [] ;;
  get_kept_samples k n samples ;;
  stan_autocovariance samples acov ;;
  deref acov.

(** [[s - w for s, w in zip(sim['n_save'], sim['warmup2'])]] converted to
    [vector[uint]], and [min] of it, lines 111-113 and 181-183. *)
Definition kept_counts : M F (list Z) :=
  n_save <- py sim_n_save ;;
  warmup2 <- py sim_warmup2 ;;
  lift (to_uint_vector (map (fun sw => fst sw - snd sw) (combine n_save warmup2))).

(** What lines 105-133 of [effective_sample_size] leave in the locals. *)
Record moments : Type := mkMoments {
  mo_m : Z;
  mo_n_samples : Z;
  mo_acov : list (list F);
  mo_mean_var : F;
  mo_var_plus : F
}.

(** [effective_sample_size], lines 105-133: the chain count, the common
    length, the autocovariances, [mean_var] and [var_plus]. *)
Definition ess_moments (n : Z) : M F moments :=
  m <- (c <- py sim_chains ;; lift (to_uint c)) ;;
  ns_save <- (l <- py sim_n_save ;; lift (to_uint_vector l)) ;;
  ns_warmup2 <- (l <- py sim_warmup2 ;; lift (to_uint_vector l)) ;;
  ns_kept <- kept_counts ;;
  n_samples <- lift (res_bind (py_min ns_kept) to_uint) ;;
  acov <- for_each (py_range 0 m)
            (fun chain acov =>
               acov_chain <- autocovariance chain n ;;
               ret (acov ++ [acov_chain]))
            [] ;;
  cc <- for_each (py_range 0 m)
          (fun chain cc =>
             let '(chain_mean, chain_var) := cc in
             n_kept_samples <- lift (vec_at ns_kept chain) ;;
             mu <- get_chain_mean chain n ;;
             acov_chain <- lift (vec_at acov chain) ;;
             a0 <- lift (vec_at acov_chain 0) ;;
             v <- lift (cdiv (fmul a0 (of_Z n_kept_samples))
                             (of_Z (uint_sub n_kept_samples 1))) ;;
             ret (chain_mean ++ [mu], chain_var ++ [v]))
          ([], []) ;;
  let '(chain_mean, chain_var) := cc in
  mean_var <- lift (stan.mean chain_var) ;;
  var_plus <- lift (cdiv (fmul mean_var (of_Z (uint_sub n_samples 1)))
                         (of_Z n_samples)) ;;
  var_plus <- (if 1 <? m
               then b <- lift (stan.variance chain_mean) ;; ret (fadd var_plus b)
               else ret var_plus) ;;
  ret (mkMoments m n_samples acov mean_var var_plus).

(** One pass of the body of the [while] loop, lines 140-143, at lag [t]:
    the new value of [rho_hat]. *)
Definition rho_hat_at (mo : moments) (t : Z) : M F F :=
  acov_t <- new_vector (repeat (of_Z 0) (Z.to_nat (mo_m mo))) ;;
  for_each (py_range 0 (mo_m mo))
    (fun chain _ =>
       acov_chain <- lift (vec_at (mo_acov mo) chain) ;;
       x <- lift (vec_at acov_chain t) ;;
       store_at acov_t chain x)
    tt ;;
  a <- deref acov_t ;;
  mu <- lift (stan.mean a) ;;
  q <- lift (cdiv (fsub (mo_mean_var mo) mu) (mo_var_plus mo)) ;;
  ret (fsub (of_Z 1) q).

(** The loop [while t < n_samples and rho_hat >= 0], lines 139-146; [ts]
    lists the values of [t] still below [n_samples]. *)
Fixpoint rho_scan (mo : moments) (ts : list Z) (rho_hat : F) (rho_hat_t : list F)
  : M F (list F) :=
  match ts with
  | [] => ret rho_hat_t
  | t :: ts' =>
      if ge_zero rho_hat then
        rho_hat <- rho_hat_at mo t ;;
        rho_scan mo ts' rho_hat
          (if ge_zero rho_hat then rho_hat_t ++ [rho_hat] else rho_hat_t)
      else ret rho_hat_t
  end.

(** Lines 135-146: [rho_hat = 0], [t = 0], then the loop. *)
Definition ess_rho_hat_t (mo : moments) : M F (list F) :=
  rho_scan mo (py_range 0 (mo_n_samples mo)) (of_Z 0) [].

(** Lines 148-152. *)
Definition ess_result (mo : moments) (rho_hat_t : list F) : res F :=
  let ess := of_Z (uint_mul (mo_m mo) (mo_n_samples mo)) in
  if (0 <? Z.of_nat (List.length rho_hat_t))
  then cdiv ess (fadd (of_Z 1) (fmul (of_Z 2) (stan.sum rho_hat_t)))
  else Ok ess.

(** [def effective_sample_size(dict sim, uint n)], lines 82-152. *)
Definition effective_sample_size (n : Z) : M F F :=
  mo <- ess_moments n ;;
  rho_hat_t <- ess_rho_hat_t mo ;;
  lift (ess_result mo rho_hat_t).

(** What lines 175-205 of [split_potential_scale_reduction] leave behind:
    [n_samples] and the vectors of half means and half variances. *)
Record halves : Type := mkHalves {
  ha_n_samples : Z;
  ha_split_chain_mean : loc;
  ha_split_chain_var : loc
}.

(** The body of the loop over chains, lines 194-205. *)
Definition split_one_chain (n n_samples : Z)
    (split_chain_mean split_chain_var samples split_chain : loc) (chain : Z)
  : M F unit :=
  get_kept_samples chain n samples ;;
  for_each (py_range 0 (n_samples / 2))
    (fun i _ =>
       v <- deref samples ;;
       x <- lift (vec_at v i) ;;
       push_back split_chain x)
    tt ;;
  (c <- deref split_chain ;; mu <- lift (stan.mean c) ;;
   push_back split_chain_mean mu) ;;
  (c <- deref split_chain ;; s2 <- lift (stan.variance c) ;;
   push_back split_chain_var s2) ;;
  clear split_chain ;;
  for_each (py_range (n_samples / 2) n_samples)
    (fun i _ =>
       v <- deref samples ;;
       x <- lift (vec_at v i) ;;
       push_back split_chain x)
    tt ;;
  (c <- deref split_chain ;; mu <- lift (stan.mean c) ;;
   push_back split_chain_mean mu) ;;
  (c <- deref split_chain ;; s2 <- lift (stan.variance c) ;;
   push_back split_chain_var s2).

(** [split_potential_scale_reduction], lines 175-205. *)
Definition split_halves (n : Z) : M F halves :=
  n_chains <- (c <- py sim_chains ;; lift (to_uint c)) ;;
  ns_save <- (l <- py sim_n_save ;; lift (to_uint_vector l)) ;;
  ns_warmup2 <- (l <- py sim_warmup2 ;; lift (to_uint_vector l)) ;;
  ns_kept <- kept_counts ;;
  n_samples <- lift (res_bind (py_min ns_kept) to_uint) ;;
  let n_samples :=
    if n_samples mod 2 =? 1 then uint_sub n_samples 1 else n_samples in
  split_chain_mean <- new_vector [] ;;
  split_chain_var <- new_vector [] ;;
  samples <- new_vector [] ;;
  split_chain <- new_vector [] ;;
  for_each (py_range 0 n_chains)
    (fun chain _ =>
       split_one_chain n n_samples
         split_chain_mean split_chain_var samples split_chain chain)
    tt ;;
  ret (mkHalves n_samples split_chain_mean split_chain_var).

(** Lines 207-208: [var_between] and [var_within]. *)
Definition split_variances (h : halves) : M F (F * F) :=
  means <- deref (ha_split_chain_mean h) ;;
  b <- lift (stan.variance means) ;;
  let var_between := fmul (of_Z (ha_n_samples h / 2)) b in
  vars <- deref (ha_split_chain_var h) ;;
  var_within <- lift (stan.mean vars) ;;
  ret (var_between, var_within).

(** Line 210. *)
Definition srhat_of `{Sqrt F} (n_samples : Z) (var_between var_within : F) : res F :=
  res_bind (cdiv var_between var_within) (fun q =>
  res_bind (cdiv (fsub (fadd q (of_Z (n_samples / 2))) (of_Z 1))
                 (of_Z (n_samples / 2))) (fun r =>
  Ok (fsqrt r))).

(** [def split_potential_scale_reduction(dict sim, uint n)],
    lines 155-211. *)
Definition split_potential_scale_reduction `{Sqrt F} (n : Z) : M F F :=
  h <- split_halves n ;;
  vv <- split_variances h ;;
  lift (srhat_of (ha_n_samples h) (fst vv) (snd vv)).
End Chains.

(** ** The snapshot as the functions see it *)

Section View.
Context {F : Type} {D : Double F}.

(** The draw sequence [sim['samples'][k]['chains'][param_names[n]]]. *)
Definition draws (sim : Sim F) (k n : Z) : res (list F) :=
  res_bind (py_index (sim_samples sim) k) (fun slst =>
  res_bind (py_index (map fst slst) n) (fun key =>
  dict_get slst key)).

(** The draws of chain [k] after its first [warmup2[k]] ones. *)
Definition kept (sim : Sim F) (k n : Z) : res (list F) :=
  res_bind (draws sim k n) (fun nv =>
  res_bind (py_index (sim_warmup2 sim) k) (fun w =>
  Ok (skipn (Z.to_nat w) nv))).

(** [n_kept[k] = n_save[k] - warmup2[k]], chain by chain. *)
Definition n_kept (sim : Sim F) : list Z :=
  map (fun sw => fst sw - snd sw) (combine (sim_n_save sim) (sim_warmup2 sim)).

(** The common length [N = min_k n_kept[k]] (0 when there is no chain). *)
Definition common_length (sim : Sim F) : Z :=
  match n_kept sim with
  | [] => 0
  | z :: l => fold_left Z.min l z
  end.

(** Chain [k] of the data model of the spec (section 3): a warmup within
    [0, n_save[k]], [n_save[k]] a C unsigned int, and a draw sequence of
    parameter [n] of length [n_save[k]]. *)
Definition chain_wf (sim : Sim F) (n k : Z) : bool :=
  match draws sim k n, py_index (sim_n_save sim) k, py_index (sim_warmup2 sim) k with
  | Ok nv, Ok s, Ok w =>
      (0 <=? w) && (w <=? s) && (s <? UINT_MAX1) && (Z.of_nat (List.length nv) =? s)
  | _, _, _ => false
  end.

(** A snapshot of the data model of the spec: at least one chain, as many
    entries of [n_save], [warmup2] and [samples] as chains, each chain
    well formed. *)
Definition well_formed (sim : Sim F) (n : Z) : bool :=
  (0 <? sim_chains sim) && (sim_chains sim <? UINT_MAX1)
  && (Z.of_nat (List.length (sim_n_save sim)) =? sim_chains sim)
  && (Z.of_nat (List.length (sim_warmup2 sim)) =? sim_chains sim)
  && (Z.of_nat (List.length (sim_samples sim)) =? sim_chains sim)
  && forallb (chain_wf sim n) (py_range 0 (sim_chains sim)).

(** The vector a heap holds behind [p] replaced. *)
Fixpoint heap_set (h : list (list F)) (p : loc) (v : list F) : list (list F) :=
  match h, p with
  | [], _ => []
  | _ :: h', O => v :: h'
  | a :: h', S p' => a :: heap_set h' p' v
  end.

(** [m] leaves the snapshot of every store as it found it. *)
Definition preserves_snapshot {A : Type} (m : M F A) : Prop :=
  forall s, snapshot (snd (m s)) = snapshot s.

(** On every store that holds the snapshot [sim], [m] ends with the
    outcome [r] and leaves the snapshot [sim]. *)
Definition returns {A : Type} (sim : Sim F) (m : M F A) (r : res A) : Prop :=
  forall s, snapshot s = sim ->
    exists s', m s = (r, s') /\ snapshot s' = sim.
End View.

(** ** The estimators in the words of the spec *)

(** The longest prefix of [l] whose elements pass the test [p]. *)
Fixpoint take_while {A : Type} (p : A -> bool) (l : list A) : list A :=
  match l with
  | [] => []
  | a :: l' => if p a then a :: take_while p l' else []
  end.

(** Converting an integer that is not 0 gives a double that is not 0: so it
    is in exact arithmetic, and for binary64 on the integers that a double
    represents. *)
Class ExactConversion (F : Type) `{Double F} : Prop := {
  of_Z_nonzero : forall z : Z, z <> 0 -> is_zero (of_Z z) = false
}.

Section Spec.
Context {F : Type} {D : Double F}.
Variable sim : Sim F.
Variable n : Z.

(** Section 3: the kept-sample sequence of chain [k] and its length. *)
Definition spec_kept (k : Z) : list F :=
  match kept sim k n with
  | Ok xs => xs
  | _ => []
  end.

Definition spec_n_kept (k : Z) : Z := nth (Z.to_nat k) (n_kept sim) 0.

Definition spec_chains : list Z := py_range 0 (sim_chains sim).

(** Section 4.3, step 2: autocovariance and mean of each chain over its
    own kept samples. *)
Definition spec_acov (k : Z) : list F := stan.autocovariance_of (spec_kept k).

Definition spec_chain_mean (k : Z) : F := stan.mean_of (spec_kept k).

(** Step 3: [chain_var[k] = acov[k][0] * n_kept[k] / (n_kept[k] - 1)]. *)
Definition spec_chain_var (k : Z) : F :=
  fdiv (fmul (nth 0 (spec_acov k) (of_Z 0)) (of_Z (spec_n_kept k)))
       (of_Z (spec_n_kept k - 1)).

(** Step 4: [mean_var = mean_k(chain_var[k])]. *)
Definition spec_mean_var : F := stan.mean_of (map spec_chain_var spec_chains).

(** Step 5: [var_plus = mean_var * (N - 1) / N], plus the sample variance
    of the chain means when [m > 1]. *)
Definition spec_var_plus : F :=
  let within :=
    fdiv (fmul spec_mean_var (of_Z (common_length sim - 1)))
         (of_Z (common_length sim)) in
  if 1 <? sim_chains sim
  then fadd within (stan.variance_of (map spec_chain_mean spec_chains))
  else within.

(** Step 6: [rho_hat(t) = 1 - (mean_var - mean_k(acov[k][t])) / var_plus]. *)
Definition spec_mean_acov (t : Z) : F :=
  stan.mean_of
    (map (fun k => nth (Z.to_nat t) (spec_acov k) (of_Z 0)) spec_chains).

Definition spec_rho_hat (t : Z) : F :=
  fsub (of_Z 1) (fdiv (fsub spec_mean_var (spec_mean_acov t)) spec_var_plus).

(** Step 7: the values [rho_hat(0), rho_hat(1), ...] up to the first one
    that fails [rho_hat(t) >= 0], over the lags below [N]. *)
Definition spec_rho_hat_t : list F :=
  take_while ge_zero (map spec_rho_hat (py_range 0 (common_length sim))).

(** Step 8: [ess = m * N], divided by [1 + 2 * sum(rho_hat_t)] when values
    were accumulated. *)
Definition spec_ess : F :=
  let total := of_Z (sim_chains sim * common_length sim) in
  match spec_rho_hat_t with
  | [] => total
  | _ => fdiv total (fadd (of_Z 1) (fmul (of_Z 2) (stan.sum spec_rho_hat_t)))
  end.

(** The locals of [effective_sample_size] after line 133, as the spec
    names them. *)
Definition spec_moments : moments :=
  mkMoments (sim_chains sim) (common_length sim)
            (map spec_acov spec_chains) spec_mean_var spec_var_plus.
End Spec.

(** [step] folded over [l] from the left, up to the first pass that does
    not return. *)
Fixpoint fold_res {A S : Type} (step : S -> A -> res S) (l : list A) (acc : S)
  : res S :=
  match l with
  | [] => Ok acc
  | a :: l' => res_bind (step acc a) (fold_res step l')
  end.

(** ** The loop of [split_potential_scale_reduction] as a function *)

Section SplitLoop.
Context {F : Type} {D : Double F}.

(** The common length made even, lines 185-186. *)
Definition even_length (N : Z) : Z := if N mod 2 =? 1 then N - 1 else N.

(** Mean and variance of one pseudo-chain, in the order lines 198-199 and
    204-205 compute them. *)
Definition half_stats (x : list F) : res (F * F) :=
  res_bind (stan.mean x) (fun mu =>
  res_bind (stan.variance x) (fun s2 => Ok (mu, s2))).

(** One pass of the loop over chains, lines 194-205, on the kept samples
    [xs] of the chain: [st] holds [split_chain_mean], [split_chain_var] and
    what the previous pass left in [split_chain]. *)
Definition split_step (L : Z) (kept_of : Z -> list F)
    (st : list F * list F * list F) (k : Z) : res (list F * list F * list F) :=
  let '(means, vars, carry) := st in
  let xs := kept_of k in
  let first := carry ++ firstn (Z.to_nat (L / 2)) xs in
  res_bind (half_stats first) (fun ms1 =>
  let second := firstn (Z.to_nat (L - L / 2)) (skipn (Z.to_nat (L / 2)) xs) in
  res_bind (half_stats second) (fun ms2 =>
  Ok (means ++ [fst ms1; fst ms2], vars ++ [snd ms1; snd ms2], second))).

(** Lines 207-211 on what the loop leaves. *)
Definition split_outcome `{Sqrt F} (L : Z) (r : res (list F * list F * list F))
  : res F :=
  res_bind r (fun st =>
  res_bind (stan.variance (fst (fst st))) (fun b =>
  res_bind (stan.mean (snd (fst st))) (fun var_within =>
  srhat_of L (fmul (of_Z (L / 2)) b) var_within))).
End SplitLoop.

(** A snapshot with one parameter, ["beta[1]"], from the draws of each
    chain. *)
Definition one_param {F : Type} (xs : list (list F)) : list (list (string * list F)) :=
  map (fun x => [("beta[1]"%string, x)]) xs.

Definition sim_of {F : Type} (xs : list (list F)) (warmup : list Z) : Sim F :=
  mkSim (Z.of_nat (List.length xs))
        (map (fun x => Z.of_nat (List.length x)) xs) warmup (one_param xs).

(** The store during the loop of [split_potential_scale_reduction]: the
    four vectors of lines 188-192 after the vectors [h0] that were there
    before. *)
Definition split_store {F : Type} (sim : Sim F) (h0 : list (list F))
    (means vars smp carry : list F) : store F :=
  mkStore sim (h0 ++ [means; vars; smp; carry]).

(** ** Snapshots derived from a snapshot *)

(** The snapshot with every chain cut after its first [L] kept draws:
    [n_save[k]] becomes [warmup2[k] + L] and every draw sequence of chain
    [k] keeps its first [warmup2[k] + L] entries. *)
Definition truncate_kept {F : Type} (L : Z) (sim : Sim F) : Sim F :=
  mkSim (sim_chains sim)
        (map (fun w => w + L) (sim_warmup2 sim))
        (sim_warmup2 sim)
        (map (fun ws =>
                map (fun kv => (fst kv, firstn (Z.to_nat (fst ws + L)) (snd kv)))
                    (snd ws))
             (combine (sim_warmup2 sim) (sim_samples sim))).

(** The snapshot with its chains in the order [pi]: chain [k] of the
    result is chain [pi[k]] of [sim], in [n_save], [warmup2] and
    [samples] alike. *)
Definition permute_chains {F : Type} (pi : list nat) (sim : Sim F) : Sim F :=
  mkSim (sim_chains sim)
        (map (fun i => nth i (sim_n_save sim) 0) pi)
        (map (fun i => nth i (sim_warmup2 sim) 0) pi)
        (map (fun i => nth i (sim_samples sim) []) pi).

(** Addition that is commutative and associative, as in exact
    arithmetic. *)
Class ExactAddition (F : Type) `{Double F} : Prop := {
  fadd_comm : forall x y : F, fadd x y = fadd y x;
  fadd_assoc : forall x y z : F, fadd (fadd x y) z = fadd x (fadd y z)
}.

(** ** Example snapshots *)

(** One chain, three draws 1, 2, 3, no warmup, in exact arithmetic. *)
Definition sim_123 : Sim Q := sim_of [[1; 2; 3]%Q] [0].

(** One chain of three equal draws, exact arithmetic; one chain of four
    equal draws, binary64. *)
Definition sim_111 : Sim Q := sim_of [[1; 1; 1]%Q] [0].
Definition sim_1111 : Sim float := sim_of [[1; 1; 1; 1]%float] [0].

(** One chain with one draw; one chain with three draws. *)
Definition sim_5 : Sim float := sim_of [[5]%float] [0].
Definition sim_3draws : Sim float := sim_of [[1; 2; 3]%float] [0].

(** Two chains of four draws, no warmup. *)
Definition sim_two_chains : Sim float :=
  sim_of [[1; 2; 3; 4]; [5; 6; 7; 8]]%float [0; 0].

(** One chain with seven draws and no warmup. *)
Definition sim_7draws : Sim float := sim_of [[1; 2; 3; 4; 5; 6; 7]%float] [0].

(** Three chains of three draws in exact arithmetic. *)
Definition sim_three_chains : Sim Q :=
  sim_of [[1; 2; 4]; [3; 1; 2]; [0; 5; 1]]%Q [0; 0; 0].

(** ** The conversions at the head of the two entry points *)

(** A Python int that converts to [unsigned int]. *)
Definition is_uint (z : Z) : bool := (0 <=? z) && (z <? UINT_MAX1).

(** The conversions of lines 105-111 and 175-181 all succeed: the chain
    count, every entry of [n_save] and of [warmup2] and every difference
    [s - w] of the zipped lists is a C unsigned int. *)
Definition header_converts {F : Type} (sim : Sim F) : bool :=
  is_uint (sim_chains sim)
  && forallb is_uint (sim_n_save sim)
  && forallb is_uint (sim_warmup2 sim)
  && forallb is_uint
       (map (fun sw => fst sw - snd sw)
            (combine (sim_n_save sim) (sim_warmup2 sim))).

(** The outcome of lines 105-113 (and 175-183): the chain count, [ns_kept]
    and [n_samples], or the first conversion that fails. *)
Definition header_outcome {F : Type} (sim : Sim F) : res (Z * list Z * Z) :=
  if header_converts sim
  then res_bind (py_min (n_kept sim)) (fun N => Ok (sim_chains sim, n_kept sim, N))
  else Raise OverflowError.

(** ** Vectors of the heap that a computation leaves alone *)

Section HeapFrames.
Context {F : Type}.

(** [m] frees no vector, and leaves every vector that is allocated when it
    starts and whose location passes [P] as it found it. *)
Definition frames {A : Type} (P : loc -> Prop) (m : M F A) : Prop :=
  forall s,
    (List.length (heap s) <= List.length (heap (snd (m s))))%nat
    /\ forall q, P q -> (q < List.length (heap s))%nat ->
         nth_error (heap (snd (m s))) q = nth_error (heap s) q.

(** [m] allocates nothing and frees nothing. *)
Definition same_size {A : Type} (m : M F A) : Prop :=
  forall s, List.length (heap (snd (m s))) = List.length (heap s).
End HeapFrames.

(** On every store that holds the snapshot [sim], [m] ends with the
    outcome [r], leaves the snapshot [sim] and a heap with [d] vectors
    more. *)
Definition allocates {F A : Type} (sim : Sim F) (m : M F A) (r : res A)
    (d : nat) : Prop :=
  forall s, snapshot s = sim ->
    exists s', m s = (r, s') /\ snapshot s' = sim
               /\ List.length (heap s') = (List.length (heap s) + d)%nat.

(** ** Snapshots with every draw transformed *)

(** The snapshot with [f] applied to every draw of every parameter of every
    chain. *)
Definition map_draws {F : Type} (f : F -> F) (sim : Sim F) : Sim F :=
  mkSim (sim_chains sim) (sim_n_save sim) (sim_warmup2 sim)
        (map (map (fun kv => (fst kv, map f (snd kv)))) (sim_samples sim)).

(** ** More example snapshots *)

(** One chain with the two parameters ["alpha"] and ["beta"], three draws
    each, the first one warmup. *)
Definition sim_two_params : Sim float :=
  mkSim 1 [3] [1]
    [[("alpha"%string, [1; 2; 3]%float); ("beta"%string, [4; 5; 6]%float)]].

(** The same chain with a warmup of [w] draws. *)
Definition sim_warmup (w : Z) : Sim float :=
  mkSim 1 [3] [w]
    [[("alpha"%string, [1; 2; 3]%float); ("beta"%string, [4; 5; 6]%float)]].

(** The chain of [sim_123] stored as the second parameter of a chain with
    two warmup draws, in exact arithmetic. *)
Definition sim_rewarmed : Sim Q :=
  mkSim 1 [5] [2]
    [[("alpha"%string, [0; 0; 0; 0; 0]%Q); ("beta"%string, [9; 8; 1; 2; 3]%Q)]].

(** One chain with two warmup draws and the six kept draws 1, ..., 6. *)
Definition sim_6kept : Sim float :=
  mkSim 1 [8] [2] [[("x"%string, [0; 0; 1; 2; 3; 4; 5; 6]%float)]].

(** Three chains of three draws, each chain stuck at a level of its own,
    in exact arithmetic. *)
Definition sim_stuck : Sim Q :=
  sim_of [[1; 1; 1]; [2; 2; 2]; [4; 4; 4]]%Q [0; 0; 0].

(** * Proofs *)

(** ** The monad *)

Section MonadFacts.
Context {F : Type}.

Lemma bind_Ok {A B : Type} (m : M F A) (k : A -> M F B) s a s' :
  m s = (Ok a, s') -> bind m k s = k a s'.
Proof. unfold bind; intros ->; reflexivity. Qed.

Lemma bind_Raise {A B : Type} (m : M F A) (k : A -> M F B) s e s' :
  m s = (Raise e, s') -> bind m k s = (Raise e, s').
Proof. unfold bind; intros ->; reflexivity. Qed.

Lemma bind_Undefined {A B : Type} (m : M F A) (k : A -> M F B) s s' :
  m s = (Undefined, s') -> bind m k s = (Undefined, s').
Proof. unfold bind; intros ->; reflexivity. Qed.

Lemma bind_lift {A B : Type} (r : res A) (k : A -> M F B) s :
  bind (lift r) k s
  = match r with
    | Ok a => k a s
    | Raise e => (Raise e, s)
    | Undefined => (Undefined, s)
    end.
Proof. destruct r; reflexivity. Qed.

Lemma bind_assoc {A B C : Type} (m : M F A) (k : A -> M F B) (g : B -> M F C) s :
  bind (bind m k) g s = bind m (fun a => bind (k a) g) s.
Proof.
  unfold bind. destruct (m s) as [[a| |] s1]; try reflexivity.
Qed.

Lemma for_each_app {A S : Type} (l1 l2 : list A) (body : A -> S -> M F S) acc s :
  for_each (l1 ++ l2) body acc s
  = bind (for_each l1 body acc) (for_each l2 body) s.
Proof.
  revert acc s. induction l1 as [|a l1 IH]; intros acc s; simpl.
  - reflexivity.
  - rewrite bind_assoc. unfold bind at 1 2.
    destruct (body a acc s) as [[acc'| |] s1]; auto.
Qed.

End MonadFacts.

(** ** Ranges, vectors and the heap *)

Section Containers.
Context {A : Type}.

Lemma py_range_nil lo hi : hi <= lo -> py_range lo hi = [].
Proof.
  intros H. unfold py_range.
  replace (Z.to_nat (hi - lo)) with 0%nat by lia. reflexivity.
Qed.

Lemma py_range_cons lo hi : lo < hi -> py_range lo hi = lo :: py_range (lo + 1) hi.
Proof.
  intros H. unfold py_range.
  replace (Z.to_nat (hi - lo)) with (S (Z.to_nat (hi - (lo + 1)))) by lia.
  simpl. f_equal; [lia|].
  rewrite <- seq_shift, map_map. apply map_ext. intros i. lia.
Qed.

Lemma py_range_snoc lo hi : lo <= hi -> py_range lo (hi + 1) = py_range lo hi ++ [hi].
Proof.
  intros H. unfold py_range.
  replace (Z.to_nat (hi + 1 - lo)) with (Z.to_nat (hi - lo) + 1)%nat by lia.
  rewrite seq_app, map_app. simpl. do 2 f_equal. lia.
Qed.

Lemma py_range_In lo hi i : In i (py_range lo hi) <-> lo <= i < hi.
Proof.
  unfold py_range. rewrite in_map_iff. split.
  - intros (j & <- & Hj). apply in_seq in Hj. lia.
  - intros Hi. exists (Z.to_nat (i - lo)). split; [lia|]. apply in_seq. lia.
Qed.

Lemma py_range_length lo hi : List.length (py_range lo hi) = Z.to_nat (hi - lo).
Proof. unfold py_range. now rewrite length_map, length_seq. Qed.

Lemma py_index_Ok (l : list A) i a :
  py_index l i = Ok a <-> 0 <= i /\ nth_error l (Z.to_nat i) = Some a.
Proof.
  unfold py_index. destruct (Z.ltb_spec i 0).
  - split; [discriminate | lia].
  - destruct (nth_error l (Z.to_nat i)); split; intros H';
      try discriminate; try (destruct H'; discriminate).
    + inversion H'; subst; auto.
    + destruct H' as [_ H']; inversion H'; reflexivity.
Qed.

Lemma vec_at_Ok (l : list A) i a :
  vec_at l i = Ok a <-> 0 <= i /\ nth_error l (Z.to_nat i) = Some a.
Proof.
  unfold vec_at. destruct (Z.ltb_spec i 0).
  - split; [discriminate | lia].
  - destruct (nth_error l (Z.to_nat i)); split; intros H';
      try discriminate; try (destruct H'; discriminate).
    + inversion H'; subst; auto.
    + destruct H' as [_ H']; inversion H'; reflexivity.
Qed.

Lemma vec_at_map_range (f : Z -> A) m i :
  0 <= i < m -> vec_at (map f (py_range 0 m)) i = Ok (f i).
Proof.
  intros H. apply vec_at_Ok. split; [lia|].
  unfold py_range. rewrite map_map, nth_error_map.
  rewrite nth_error_seq.
  destruct (Nat.ltb_spec (Z.to_nat i) (Z.to_nat (m - 0))); [|lia].
  simpl. do 2 f_equal. lia.
Qed.

End Containers.

Section HeapFacts.
Context {F : Type}.

Lemma vec_update_heap_set (h : list (list F)) p v old :
  nth_error h p = Some old -> vec_update h p v = Some (heap_set h p v).
Proof.
  revert p. induction h as [|a h IH]; intros [|p]; simpl; try discriminate; auto.
  intros H. now rewrite (IH _ H).
Qed.

Lemma heap_set_same (h : list (list F)) p v old :
  nth_error h p = Some old -> nth_error (heap_set h p v) p = Some v.
Proof. revert p. induction h; intros [|p]; simpl; try discriminate; auto. Qed.

Lemma heap_set_other (h : list (list F)) p q v :
  p <> q -> nth_error (heap_set h p v) q = nth_error h q.
Proof.
  revert p q. induction h; intros [|p] [|q] H; simpl; auto; try congruence.
Qed.

Lemma heap_set_twice (h : list (list F)) p v v' :
  heap_set (heap_set h p v) p v' = heap_set h p v'.
Proof. revert p. induction h; intros [|p]; simpl; auto. now rewrite IHh. Qed.

Lemma heap_set_app (h t : list (list F)) i v :
  heap_set (h ++ t) (List.length h + i)%nat v = h ++ heap_set t i v.
Proof. induction h; simpl; auto. now rewrite IHh. Qed.

Lemma nth_error_app_len (h t : list (list F)) i :
  nth_error (h ++ t) (List.length h + i)%nat = nth_error t i.
Proof. induction h; simpl; auto. Qed.
End HeapFacts.

(** ** The snapshot is only read *)

Section Frame.
Context {F : Type} {D : Double F}.

Lemma preserves_ret {A : Type} (a : A) : preserves_snapshot (F:=F) (ret a).
Proof. intros s; reflexivity. Qed.

Lemma preserves_lift {A : Type} (r : res A) : preserves_snapshot (F:=F) (lift r).
Proof. intros s; reflexivity. Qed.

Lemma preserves_py {A : Type} (f : Sim F -> A) : preserves_snapshot (py f).
Proof. intros s; reflexivity. Qed.

Lemma preserves_new_vector (init : list F) : preserves_snapshot (new_vector init).
Proof. intros s; reflexivity. Qed.

Lemma preserves_deref (p : loc) : preserves_snapshot (F:=F) (deref p).
Proof. intros s; unfold deref. destruct (nth_error (heap s) p); reflexivity. Qed.

Lemma preserves_assign (p : loc) (v : list F) : preserves_snapshot (assign p v).
Proof. intros s; unfold assign. destruct (vec_update (heap s) p v); reflexivity. Qed.

Lemma preserves_bind {A B : Type} (m : M F A) (k : A -> M F B) :
  preserves_snapshot m -> (forall a, preserves_snapshot (k a)) ->
  preserves_snapshot (bind m k).
Proof.
  intros Hm Hk s. unfold bind. specialize (Hm s).
  destruct (m s) as [[a| |] s1]; simpl in *; auto.
  rewrite Hk. assumption.
Qed.

Lemma preserves_for_each {A S : Type} (l : list A) (body : A -> S -> M F S) :
  (forall a acc, preserves_snapshot (body a acc)) ->
  forall acc, preserves_snapshot (for_each l body acc).
Proof.
  intros Hb. induction l as [|a l IH]; intros acc; simpl.
  - apply preserves_ret.
  - apply preserves_bind; auto.
Qed.

Ltac frame_step :=
  match goal with
  | |- forall _, _ => intro
  | |- preserves_snapshot (bind _ _) => apply preserves_bind
  | |- preserves_snapshot (ret _) => apply preserves_ret
  | |- preserves_snapshot (lift _) => apply preserves_lift
  | |- preserves_snapshot (py _) => apply preserves_py
  | |- preserves_snapshot (new_vector _) => apply preserves_new_vector
  | |- preserves_snapshot (deref _) => apply preserves_deref
  | |- preserves_snapshot (assign _ _) => apply preserves_assign
  | |- preserves_snapshot (for_each _ _ _) => apply preserves_for_each
  | |- preserves_snapshot (match ?c with _ => _ end) => destruct c
  | |- preserves_snapshot _ => assumption
  end.
Ltac frame := repeat frame_step.

Lemma preserves_push_back p (x : F) : preserves_snapshot (push_back p x).
Proof. unfold push_back. frame. Qed.

Lemma preserves_clear p : preserves_snapshot (F:=F) (clear p).
Proof. unfold clear. frame. Qed.

Lemma preserves_store_at p i (x : F) : preserves_snapshot (store_at p i x).
Proof. unfold store_at. frame. Qed.

Lemma preserves_get_chain_mean k n : preserves_snapshot (F:=F) (get_chain_mean k n).
Proof. unfold get_chain_mean. frame. Qed.

Lemma preserves_get_kept_samples k n p : preserves_snapshot (F:=F) (get_kept_samples k n p).
Proof.
  pose proof preserves_push_back. pose proof preserves_clear.
  unfold get_kept_samples. frame; auto.
Qed.

Lemma preserves_autocovariance k n : preserves_snapshot (F:=F) (autocovariance k n).
Proof.
  pose proof preserves_get_kept_samples.
  unfold autocovariance, stan_autocovariance. frame; auto.
Qed.

Lemma preserves_ess_moments n : preserves_snapshot (F:=F) (ess_moments n).
Proof.
  pose proof preserves_autocovariance. pose proof preserves_get_chain_mean.
  unfold ess_moments, kept_counts. frame; auto.
Qed.

Lemma preserves_rho_hat_at mo t : preserves_snapshot (rho_hat_at mo t).
Proof.
  pose proof preserves_store_at. unfold rho_hat_at. frame; auto.
Qed.

Lemma preserves_rho_scan mo ts :
  forall rho_hat rho_hat_t, preserves_snapshot (rho_scan mo ts rho_hat rho_hat_t).
Proof.
  pose proof preserves_rho_hat_at.
  induction ts as [|t ts IH]; intros rho_hat rho_hat_t; simpl; frame; auto.
Qed.

Lemma preserves_effective_sample_size n :
  preserves_snapshot (F:=F) (effective_sample_size n).
Proof.
  pose proof preserves_ess_moments. pose proof preserves_rho_scan.
  unfold effective_sample_size, ess_rho_hat_t. frame; auto.
Qed.

Lemma preserves_split_one_chain n n_samples scm scv sa sc chain :
  preserves_snapshot (F:=F) (split_one_chain n n_samples scm scv sa sc chain).
Proof.
  pose proof preserves_get_kept_samples. pose proof preserves_push_back.
  pose proof preserves_clear.
  unfold split_one_chain. frame; auto.
Qed.

Lemma preserves_split_halves n : preserves_snapshot (F:=F) (split_halves n).
Proof.
  pose proof preserves_split_one_chain.
  unfold split_halves, kept_counts. frame; auto.
Qed.

Lemma preserves_split_potential_scale_reduction `{Sqrt F} n :
  preserves_snapshot (F:=F) (split_potential_scale_reduction n).
Proof.
  pose proof preserves_split_halves.
  unfold split_potential_scale_reduction, split_variances. frame; auto.
Qed.
End Frame.

(** ** Loops *)

Section Loops.
Context {F : Type} {D : Double F}.

(** A loop whose body only computes. *)
Lemma for_each_pure {A S : Type} (body : A -> S -> M F S) (step : S -> A -> S)
    (l : list A) (s : store F) :
  (forall a acc, In a l -> body a acc s = (Ok (step acc a), s)) ->
  forall acc, for_each l body acc s = (Ok (fold_left step l acc), s).
Proof.
  induction l as [|a l IH]; intros Hb acc; simpl; [reflexivity|].
  erewrite bind_Ok by (apply Hb; left; reflexivity).
  apply IH. intros; apply Hb; right; assumption.
Qed.

Lemma heap_set_id (h : list (list F)) p v :
  nth_error h p = Some v -> heap_set h p v = h.
Proof.
  revert p. induction h as [|a h IH]; intros [|p]; simpl; try discriminate.
  - intros E; inversion E; reflexivity.
  - intros E. now rewrite IH.
Qed.

(** A loop whose body appends one value to the vector behind [p]. *)
Lemma for_each_push (body : Z -> unit -> M F unit) (f : Z -> F) (p : loc)
    (I : store F -> Prop) (l : list Z) :
  (forall i u s acc, In i l -> I s -> nth_error (heap s) p = Some acc ->
     body i u s
     = (Ok tt, mkStore (snapshot s) (heap_set (heap s) p (acc ++ [f i])))) ->
  (forall s v, I s -> I (mkStore (snapshot s) (heap_set (heap s) p v))) ->
  forall s acc, I s -> nth_error (heap s) p = Some acc ->
    for_each l body tt s
    = (Ok tt, mkStore (snapshot s) (heap_set (heap s) p (acc ++ map f l))).
Proof.
  intros Hb HI. induction l as [|i l IH]; intros s acc Is Hp; simpl.
  - rewrite app_nil_r, heap_set_id by assumption. destruct s; reflexivity.
  - erewrite bind_Ok by (apply Hb; eauto; left; reflexivity).
    assert (IH' : forall i u s acc, In i l -> I s ->
               nth_error (heap s) p = Some acc ->
               body i u s
               = (Ok tt, mkStore (snapshot s) (heap_set (heap s) p (acc ++ [f i]))))
      by (intros; apply Hb; auto; right; assumption).
    rewrite (IH IH' _ (acc ++ [f i])).
    + simpl. rewrite heap_set_twice, <- app_assoc. reflexivity.
    + apply HI; assumption.
    + simpl. eapply heap_set_same; eassumption.
Qed.

Lemma skipn_as_map (nv : list F) (w : Z) (d : F) :
  0 <= w ->
  map (fun i => nth (Z.to_nat (w + i)) nv d)
      (py_range 0 (Z.of_nat (List.length nv) - w))
  = skipn (Z.to_nat w) nv.
Proof.
  intros Hw. apply (nth_ext _ _ d d).
  - rewrite length_map, py_range_length, length_skipn. lia.
  - intros i Hi. rewrite length_map, py_range_length in Hi.
    unfold py_range. rewrite map_map.
    rewrite (nth_indep _ d (nth (Z.to_nat (w + (0 + Z.of_nat 0))) nv d))
      by (rewrite length_map, length_seq; lia).
    rewrite (map_nth (fun x => nth (Z.to_nat (w + (0 + Z.of_nat x))) nv d)).
    rewrite seq_nth by lia. rewrite nth_skipn. f_equal. lia.
Qed.

Lemma vec_at_nth (v : list F) (i : Z) (d : F) :
  0 <= i < Z.of_nat (List.length v) -> vec_at v i = Ok (nth (Z.to_nat i) v d).
Proof.
  intros H. apply vec_at_Ok. split; [lia|].
  apply nth_error_nth'. lia.
Qed.
End Loops.

(** ** Running the primitives of the store *)

Section Run.
Context {F : Type} {D : Double F}.

Lemma bind_py {A B : Type} (f : Sim F -> A) (k : A -> M F B) s :
  bind (py f) k s = k (f (snapshot s)) s.
Proof. reflexivity. Qed.

Lemma bind_lift_Ok {A B : Type} (r : res A) (a : A) (k : A -> M F B) s :
  r = Ok a -> bind (lift r) k s = k a s.
Proof. intros ->; reflexivity. Qed.

Lemma bind_new_vector {B : Type} (init : list F) (k : loc -> M F B) s :
  bind (new_vector init) k s
  = k (List.length (heap s)) (mkStore (snapshot s) (heap s ++ [init])).
Proof. reflexivity. Qed.

Lemma deref_run p (v : list F) s :
  nth_error (heap s) p = Some v -> deref p s = (Ok v, s).
Proof. unfold deref; intros ->; reflexivity. Qed.

Lemma assign_run p (v old : list F) s :
  nth_error (heap s) p = Some old ->
  assign p v s = (Ok tt, mkStore (snapshot s) (heap_set (heap s) p v)).
Proof.
  unfold assign; intros H. now rewrite (vec_update_heap_set _ _ _ _ H).
Qed.

Lemma push_back_run p (x : F) (acc : list F) s :
  nth_error (heap s) p = Some acc ->
  push_back p x s
  = (Ok tt, mkStore (snapshot s) (heap_set (heap s) p (acc ++ [x]))).
Proof.
  intros H. unfold push_back.
  rewrite (bind_Ok _ _ _ _ _ (deref_run _ _ _ H)).
  eapply assign_run; eassumption.
Qed.

Lemma clear_run p (old : list F) s :
  nth_error (heap s) p = Some old ->
  clear p s = (Ok tt, mkStore (snapshot s) (heap_set (heap s) p [])).
Proof. apply assign_run. Qed.

Lemma draws_inv (sim : Sim F) k n nv :
  draws sim k n = Ok nv ->
  exists slst key,
    py_index (sim_samples sim) k = Ok slst
    /\ py_index (map fst slst) n = Ok key
    /\ dict_get slst key = Ok nv.
Proof.
  unfold draws.
  destruct (py_index (sim_samples sim) k) as [slst| |] eqn:E1; simpl;
    try discriminate.
  destruct (py_index (map fst slst) n) as [key| |] eqn:E2; simpl;
    try discriminate.
  intros H. exists slst, key. repeat split; assumption.
Qed.

Lemma to_size_t_Ok z : 0 <= z < SIZE_MAX1 -> to_size_t z = Ok z.
Proof.
  intros H. unfold to_size_t.
  destruct (Z.leb_spec 0 z); [|lia]. destruct (Z.ltb_spec z SIZE_MAX1); [|lia].
  reflexivity.
Qed.

Lemma to_uint_Ok z : 0 <= z < UINT_MAX1 -> to_uint z = Ok z.
Proof.
  intros H. unfold to_uint.
  destruct (Z.leb_spec 0 z); [|lia]. destruct (Z.ltb_spec z UINT_MAX1); [|lia].
  reflexivity.
Qed.

(** [get_kept_samples] leaves the draws after the warmup behind [p]. *)
Lemma get_kept_samples_run (s : store F) k n (nv : list F) w p old :
  draws (snapshot s) k n = Ok nv ->
  py_index (sim_warmup2 (snapshot s)) k = Ok w ->
  0 <= w -> Z.of_nat (List.length nv) < SIZE_MAX1 ->
  nth_error (heap s) p = Some old ->
  get_kept_samples k n p s
  = (Ok tt, mkStore (snapshot s) (heap_set (heap s) p (skipn (Z.to_nat w) nv))).
Proof.
  intros Hd Hw Hw0 Hlen Hp.
  destruct (draws_inv _ _ _ _ Hd) as (slst & key & E1 & E2 & E3).
  unfold get_kept_samples.
  rewrite !bind_py.
  rewrite (bind_lift_Ok _ _ _ _ E1), (bind_lift_Ok _ _ _ _ E2),
    (bind_lift_Ok _ _ _ _ E3).
  rewrite (bind_Ok _ _ _ _ _ (clear_run _ _ _ Hp)).
  rewrite (bind_lift_Ok _ _ _ _ Hw).
  rewrite (for_each_push _ (fun i => nth (Z.to_nat (w + i)) nv (of_Z 0)) p
             (fun _ => True) _) with (acc := []); auto.
  - simpl. rewrite heap_set_twice, skipn_as_map by assumption. reflexivity.
  - intros i u s1 acc Hi _ Hacc. apply py_range_In in Hi.
    rewrite (bind_lift_Ok _ _ _ _ Hw).
    rewrite (bind_lift_Ok _ _ _ _ (to_size_t_Ok (w + i) ltac:(lia))).
    rewrite (bind_lift_Ok _ _ _ _ (vec_at_nth nv (w + i) (of_Z 0) ltac:(lia))).
    apply push_back_run; assumption.
  - simpl. eapply heap_set_same; eassumption.
Qed.

Lemma fold_left_map_arg {A B S : Type} (g : S -> B -> S) (f : A -> B) l acc :
  fold_left g (map f l) acc = fold_left (fun a x => g a (f x)) l acc.
Proof. revert acc. induction l; simpl; auto. Qed.

(** [get_chain_mean] sums the draws after the warmup from 0, left to
    right, and divides by their number. *)
Lemma get_chain_mean_run (s : store F) k n (nv : list F) w :
  draws (snapshot s) k n = Ok nv ->
  py_index (sim_warmup2 (snapshot s)) k = Ok w ->
  0 <= w -> Z.of_nat (List.length nv) < SIZE_MAX1 ->
  get_chain_mean k n s
  = (py_div (fold_left fadd (skipn (Z.to_nat w) nv) (of_Z 0))
            (Z.of_nat (List.length nv) - w), s).
Proof.
  intros Hd Hw Hw0 Hlen.
  destruct (draws_inv _ _ _ _ Hd) as (slst & key & E1 & E2 & E3).
  unfold get_chain_mean.
  rewrite !bind_py.
  rewrite (bind_lift_Ok _ _ _ _ E1), (bind_lift_Ok _ _ _ _ E2),
    (bind_lift_Ok _ _ _ _ E3), (bind_lift_Ok _ _ _ _ Hw).
  erewrite bind_Ok.
  2:{ apply (for_each_pure _
               (fun acc i => fadd acc (nth (Z.to_nat (w + i)) nv (of_Z 0)))).
      intros i acc Hi. apply py_range_In in Hi.
      rewrite (bind_lift_Ok _ _ _ _ Hw).
      rewrite (bind_lift_Ok _ _ _ _ (to_size_t_Ok (w + i) ltac:(lia))).
      rewrite (bind_lift_Ok _ _ _ _ (vec_at_nth nv (w + i) (of_Z 0) ltac:(lia))).
      reflexivity. }
  rewrite (bind_lift_Ok _ _ _ _ Hw).
  rewrite <- (skipn_as_map nv w (of_Z 0)) by assumption.
  rewrite fold_left_map_arg. reflexivity.
Qed.
End Run.

(** ** Well-formed chains *)

Section WellFormed.
Context {F : Type} {D : Double F}.

Lemma chain_wf_inv (sim : Sim F) n k :
  chain_wf sim n k = true ->
  exists nv s w,
    draws sim k n = Ok nv
    /\ py_index (sim_n_save sim) k = Ok s
    /\ py_index (sim_warmup2 sim) k = Ok w
    /\ 0 <= w <= s /\ s < UINT_MAX1 /\ Z.of_nat (List.length nv) = s.
Proof.
  unfold chain_wf.
  destruct (draws sim k n) as [nv| |]; try discriminate.
  destruct (py_index (sim_n_save sim) k) as [s| |]; try discriminate.
  destruct (py_index (sim_warmup2 sim) k) as [w| |]; try discriminate.
  rewrite !andb_true_iff. intros [[[H1 H2] H3] H4].
  exists nv, s, w. repeat split; auto; lia.
Qed.

Lemma n_kept_index (sim : Sim F) k s w :
  py_index (sim_n_save sim) k = Ok s ->
  py_index (sim_warmup2 sim) k = Ok w ->
  py_index (n_kept sim) k = Ok (s - w).
Proof.
  rewrite !py_index_Ok. intros [H0 Hs] [_ Hw]. split; [assumption|].
  unfold n_kept. rewrite nth_error_map.
  revert Hs Hw. generalize (Z.to_nat k) (sim_n_save sim) (sim_warmup2 sim).
  induction n as [|i IH]; intros [|a l] [|b l']; simpl; try discriminate.
  - intros E1 E2; inversion E1; inversion E2; reflexivity.
  - apply IH.
Qed.

Lemma uint_lt_size : UINT_MAX1 < SIZE_MAX1.
Proof. reflexivity. Qed.
End WellFormed.

(** ** The two extraction paths agree *)

Section ChainMean.
Context {F : Type} {D : Double F}.

(** C10: for a well-formed chain [k] with at least one draw kept,
    [get_kept_samples] leaves a sequence [xs] of [n_save[k] - warmup2[k]]
    draws behind its out-parameter, and [get_chain_mean] returns the
    arithmetic mean of [xs] that the primitive [mean] computes. *)
Theorem get_chain_mean_is_mean_of_kept_samples
    (sim : Sim F) (k n c : Z) (h : list (list F)) (p : loc) (old : list F) :
  chain_wf sim n k = true ->
  py_index (n_kept sim) k = Ok c ->
  1 <= c ->
  nth_error h p = Some old ->
  exists xs mu,
    get_kept_samples k n p (mkStore sim h) = (Ok tt, mkStore sim (heap_set h p xs))
    /\ Z.of_nat (List.length xs) = c
    /\ stan.mean xs = Ok mu
    /\ get_chain_mean k n (mkStore sim h) = (Ok mu, mkStore sim h).
Proof.
  intros Hwf Hc Hc1 Hp.
  destruct (chain_wf_inv _ _ _ Hwf) as (nv & s & w & Hd & Hs & Hw & Hws & Hs32 & Hlen).
  rewrite (n_kept_index _ _ _ _ Hs Hw) in Hc. inversion Hc; subst c; clear Hc.
  pose proof uint_lt_size as Hlt.
  assert (Hk : Z.of_nat (List.length (skipn (Z.to_nat w) nv)) = s - w)
    by (rewrite length_skipn; lia).
  exists (skipn (Z.to_nat w) nv).
  exists (fdiv (stan.sum (skipn (Z.to_nat w) nv)) (of_Z (s - w))).
  split; [|split; [|split]].
  - apply (get_kept_samples_run (mkStore sim h) k n nv w p old); simpl; auto; lia.
  - assumption.
  - unfold stan.mean, stan.mean_of. rewrite Hk.
    destruct (skipn (Z.to_nat w) nv); [simpl in Hk; lia | reflexivity].
  - rewrite (get_chain_mean_run (mkStore sim h) k n nv w); simpl; auto; try lia.
    unfold py_div. rewrite Hlen.
    destruct (Z.eqb_spec (s - w) 0); [lia | reflexivity].
Qed.
End ChainMean.

Lemma get_chain_mean_is_mean_of_kept_samples_witness :
  exists xs mu,
    get_kept_samples 0 0 0%nat
      (mkStore (mkSim 1 [4] [1] (one_param [[9; 1; 2; 4]%float])) [[]])
    = (Ok tt, mkStore (mkSim 1 [4] [1] (one_param [[9; 1; 2; 4]%float]))
                (heap_set [[]] 0%nat xs))
    /\ Z.of_nat (List.length xs) = 3
    /\ stan.mean xs = Ok mu
    /\ get_chain_mean 0 0
         (mkStore (mkSim 1 [4] [1] (one_param [[9; 1; 2; 4]%float])) [[]])
       = (Ok mu, mkStore (mkSim 1 [4] [1] (one_param [[9; 1; 2; 4]%float])) [[]]).
Proof.
  apply (get_chain_mean_is_mean_of_kept_samples
           (mkSim 1 [4] [1] (one_param [[9; 1; 2; 4]%float])) 0 0 3 [[]] 0%nat []).
  - reflexivity.
  - reflexivity.
  - lia.
  - reflexivity.
Defined.

(** ** Outcomes that depend on the snapshot only *)

Section Returns.
Context {F : Type} {D : Double F}.
Variable sim : Sim F.

Lemma returns_ret {A : Type} (a : A) : returns sim (ret a) (Ok a).
Proof. intros s Hs. exists s. split; [reflexivity | assumption]. Qed.

Lemma returns_lift {A : Type} (r : res A) : returns sim (lift r) r.
Proof. intros s Hs. exists s. split; [reflexivity | assumption]. Qed.

Lemma returns_py {A : Type} (f : Sim F -> A) : returns sim (py f) (Ok (f sim)).
Proof. intros s Hs. exists s. subst sim. split; reflexivity. Qed.

Lemma returns_bind {A B : Type} (m : M F A) (k : A -> M F B) a r :
  returns sim m (Ok a) -> returns sim (k a) r -> returns sim (bind m k) r.
Proof.
  intros Hm Hk s Hs. destruct (Hm s Hs) as (s1 & E1 & Hs1).
  destruct (Hk s1 Hs1) as (s2 & E2 & Hs2).
  exists s2. split; [|assumption]. now rewrite (bind_Ok _ _ _ _ _ E1).
Qed.

Lemma returns_bind_Raise {A B : Type} (m : M F A) (k : A -> M F B) e :
  returns sim m (Raise e) -> returns sim (bind m k) (Raise e).
Proof.
  intros Hm s Hs. destruct (Hm s Hs) as (s1 & E1 & Hs1).
  exists s1. split; [|assumption]. now rewrite (bind_Raise _ _ _ _ _ E1).
Qed.

Lemma returns_bind_Undefined {A B : Type} (m : M F A) (k : A -> M F B) :
  returns sim m Undefined -> returns sim (bind m k) Undefined.
Proof.
  intros Hm s Hs. destruct (Hm s Hs) as (s1 & E1 & Hs1).
  exists s1. split; [|assumption]. now rewrite (bind_Undefined _ _ _ _ E1).
Qed.

(** [bind] on an outcome of any kind. *)
Lemma returns_bind_res {A B : Type} (m : M F A) (k : A -> M F B) (ra : res A)
    (kr : A -> res B) :
  returns sim m ra -> (forall a, ra = Ok a -> returns sim (k a) (kr a)) ->
  returns sim (bind m k) (res_bind ra kr).
Proof.
  intros Hm Hk. destruct ra as [a|e|]; simpl.
  - eapply returns_bind; eauto.
  - now apply returns_bind_Raise.
  - now apply returns_bind_Undefined.
Qed.

Lemma returns_eq {A : Type} (m : M F A) r r' :
  returns sim m r -> r = r' -> returns sim m r'.
Proof. now intros H <-. Qed.

Lemma returns_for_each {A S : Type} (l : list A) (body : A -> S -> M F S)
    (step : S -> A -> S) :
  (forall a acc, In a l -> returns sim (body a acc) (Ok (step acc a))) ->
  forall acc, returns sim (for_each l body acc) (Ok (fold_left step l acc)).
Proof.
  induction l as [|a l IH]; intros Hb acc; simpl.
  - apply returns_ret.
  - eapply returns_bind; [apply Hb; left; reflexivity|].
    apply IH. intros; apply Hb; right; assumption.
Qed.

Lemma returns_fst {A : Type} (m : M F A) r h :
  returns sim m r -> fst (m (mkStore sim h)) = r.
Proof.
  intros H. destruct (H (mkStore sim h) eq_refl) as (s' & E & _).
  now rewrite E.
Qed.

Lemma fold_left_snoc_map {A B : Type} (f : A -> B) (l : list A) (acc : list B) :
  fold_left (fun acc a => acc ++ [f a]) l acc = acc ++ map f l.
Proof.
  revert acc. induction l as [|a l IH]; intros acc; simpl.
  - now rewrite app_nil_r.
  - rewrite IH, <- app_assoc. reflexivity.
Qed.
End Returns.

(** ** Well-formed snapshots *)

Section Snapshots.
Context {F : Type} {D : Double F}.
Variable sim : Sim F.
Variable n : Z.
Hypothesis WF : well_formed sim n = true.

Lemma well_formed_inv :
  0 < sim_chains sim < UINT_MAX1
  /\ Z.of_nat (List.length (sim_n_save sim)) = sim_chains sim
  /\ Z.of_nat (List.length (sim_warmup2 sim)) = sim_chains sim
  /\ Z.of_nat (List.length (sim_samples sim)) = sim_chains sim
  /\ forall k, 0 <= k < sim_chains sim -> chain_wf sim n k = true.
Proof.
  pose proof WF as H. unfold well_formed in H.
  rewrite !andb_true_iff, forallb_forall in H.
  destruct H as [[[[[H1 H2] H3] H4] H5] H6].
  repeat split; try lia.
  intros k Hk. apply H6. now apply py_range_In.
Qed.

Lemma n_kept_length : Z.of_nat (List.length (n_kept sim)) = sim_chains sim.
Proof.
  destruct well_formed_inv as (_ & H1 & H2 & _).
  unfold n_kept. rewrite length_map, length_combine. lia.
Qed.

(** What a well-formed chain gives the extraction. *)
Lemma chain_facts k :
  0 <= k < sim_chains sim ->
  exists nv w,
    draws sim k n = Ok nv
    /\ py_index (sim_warmup2 sim) k = Ok w
    /\ 0 <= w
    /\ Z.of_nat (List.length nv) < SIZE_MAX1
    /\ spec_kept sim n k = skipn (Z.to_nat w) nv
    /\ Z.of_nat (List.length (spec_kept sim n k)) = spec_n_kept sim k
    /\ Z.of_nat (List.length nv) - w = spec_n_kept sim k
    /\ 0 <= spec_n_kept sim k < UINT_MAX1
    /\ vec_at (n_kept sim) k = Ok (spec_n_kept sim k).
Proof.
  intros Hk. destruct well_formed_inv as (_ & _ & _ & _ & Hc).
  destruct (chain_wf_inv _ _ _ (Hc k Hk))
    as (nv & s & w & Hd & Hs & Hw & Hws & Hs32 & Hlen).
  pose proof (n_kept_index _ _ _ _ Hs Hw) as Hi.
  apply py_index_Ok in Hi. destruct Hi as [_ Hi].
  assert (Hn : spec_n_kept sim k = s - w).
  { unfold spec_n_kept. now apply nth_error_nth. }
  pose proof uint_lt_size.
  exists nv, w. repeat split; try lia; auto.
  - unfold spec_kept, kept. rewrite Hd, Hw. reflexivity.
  - unfold spec_kept, kept. rewrite Hd, Hw. simpl. rewrite length_skipn. lia.
  - apply vec_at_Ok. split; [lia|]. now rewrite Hn.
Qed.

Lemma returns_get_chain_mean k :
  0 <= k < sim_chains sim -> 1 <= spec_n_kept sim k ->
  returns sim (get_chain_mean k n) (Ok (spec_chain_mean sim n k)).
Proof.
  intros Hk H1 s Hs.
  destruct (chain_facts k Hk) as (nv & w & Hd & Hw & Hw0 & Hlen & Hsk & Hl & Hc & _).
  exists s. split; [|assumption].
  rewrite <- Hs in Hd, Hw.
  rewrite (get_chain_mean_run s k n nv w Hd Hw Hw0 Hlen).
  unfold py_div, spec_chain_mean, stan.mean_of, stan.sum.
  rewrite Hl, Hsk, Hc.
  destruct (Z.eqb_spec (spec_n_kept sim k) 0); [lia | reflexivity].
Qed.

Lemma nth_error_app_len0 (h t : list (list F)) :
  nth_error (h ++ t) (List.length h) = nth_error t 0%nat.
Proof. rewrite <- (Nat.add_0_r (List.length h)). apply nth_error_app_len. Qed.

Lemma heap_set_app0 (h t : list (list F)) v :
  heap_set (h ++ t) (List.length h) v = h ++ heap_set t 0%nat v.
Proof. rewrite <- (Nat.add_0_r (List.length h)) at 1. apply heap_set_app. Qed.

Lemma returns_autocovariance k :
  0 <= k < sim_chains sim ->
  returns sim (autocovariance k n) (stan.autocovariance (spec_kept sim n k)).
Proof.
  intros Hk s Hs.
  destruct (chain_facts k Hk) as (nv & w & Hd & Hw & Hw0 & Hlen & Hsk & _).
  rewrite <- Hs in Hd, Hw. revert Hsk. generalize (spec_kept sim n k).
  intros xs Hsk.
  unfold autocovariance. rewrite !bind_new_vector.
  set (h := heap s). simpl. rewrite <- app_assoc. simpl.
  erewrite bind_Ok.
  2:{ apply (get_kept_samples_run _ k n nv w _ []); simpl; auto.
      now rewrite nth_error_app_len0. }
  simpl. rewrite <- Hsk, heap_set_app0. simpl.
  unfold stan_autocovariance.
  rewrite bind_assoc.
  erewrite bind_Ok.
  2:{ apply deref_run. simpl. now rewrite nth_error_app_len0. }
  rewrite bind_assoc, bind_lift.
  destruct (stan.autocovariance xs) as [a|e|];
    try (eexists; split; [reflexivity | exact Hs]).
  rewrite length_app. simpl.
  erewrite bind_Ok.
  2:{ apply (assign_run _ _ []). simpl. now rewrite nth_error_app_len. }
  simpl. rewrite heap_set_app. simpl.
  eexists. split.
  - apply deref_run. simpl. now rewrite nth_error_app_len.
  - exact Hs.
Qed.
End Snapshots.

(** ** The common length *)

Section CommonLength.

Lemma fold_min_le_init (l : list Z) (z : Z) : fold_left Z.min l z <= z.
Proof.
  revert z. induction l as [|a l IH]; intros z; simpl; [lia|].
  specialize (IH (Z.min z a)). lia.
Qed.

Lemma fold_min_le_In (l : list Z) (z x : Z) : In x l -> fold_left Z.min l z <= x.
Proof.
  revert z. induction l as [|a l IH]; intros z; simpl; [tauto|].
  intros [->|H].
  - pose proof (fold_min_le_init l (Z.min z x)). lia.
  - now apply IH.
Qed.

Lemma fold_min_In (l : list Z) (z : Z) :
  fold_left Z.min l z = z \/ In (fold_left Z.min l z) l.
Proof.
  revert z. induction l as [|a l IH]; intros z; simpl; [now left|].
  destruct (IH (Z.min z a)) as [E|E].
  - rewrite E. destruct (Z.min_spec z a) as [[_ ->]|[_ ->]]; auto.
  - auto.
Qed.

Lemma to_uint_vector_Ok (l : list Z) :
  (forall z, In z l -> 0 <= z < UINT_MAX1) -> to_uint_vector l = Ok l.
Proof.
  induction l as [|a l IH]; intros H; simpl; [reflexivity|].
  rewrite to_uint_Ok by (apply H; now left). simpl.
  rewrite IH by (intros; apply H; now right). reflexivity.
Qed.

Context {F : Type} {D : Double F}.
Variable sim : Sim F.
Variable n : Z.
Hypothesis WF : well_formed sim n = true.

Lemma n_kept_In z :
  In z (n_kept sim) ->
  exists k, 0 <= k < sim_chains sim /\ z = spec_n_kept sim k.
Proof.
  intros H. apply In_nth_error in H. destruct H as [i Hi].
  pose proof (n_kept_length sim n WF) as Hl.
  assert (Hlt : (i < List.length (n_kept sim))%nat)
    by (apply nth_error_Some; congruence).
  exists (Z.of_nat i). split; [lia|].
  unfold spec_n_kept. rewrite Nat2Z.id. symmetry. now apply nth_error_nth.
Qed.

Lemma spec_n_kept_In k :
  0 <= k < sim_chains sim -> In (spec_n_kept sim k) (n_kept sim).
Proof.
  intros Hk. pose proof (n_kept_length sim n WF) as Hl.
  unfold spec_n_kept. apply nth_In. lia.
Qed.

Lemma n_kept_uint z : In z (n_kept sim) -> 0 <= z < UINT_MAX1.
Proof.
  intros H. destruct (n_kept_In z H) as (k & Hk & ->).
  destruct (chain_facts sim n WF k Hk) as (nv & w & H'). tauto.
Qed.

Lemma n_kept_nonempty : n_kept sim <> [].
Proof.
  pose proof (n_kept_length sim n WF) as Hl.
  destruct (well_formed_inv sim n WF) as (Hm & _).
  destruct (n_kept sim); [simpl in Hl; lia | discriminate].
Qed.

Lemma common_length_In : In (common_length sim) (n_kept sim).
Proof.
  unfold common_length. pose proof n_kept_nonempty as Hne.
  destruct (n_kept sim) as [|z l]; [congruence|].
  destruct (fold_min_In l z) as [-> | H]; [now left | now right].
Qed.

Lemma common_length_le k :
  0 <= k < sim_chains sim -> common_length sim <= spec_n_kept sim k.
Proof.
  intros Hk. pose proof (spec_n_kept_In k Hk) as Hin.
  unfold common_length. destruct (n_kept sim) as [|z l]; [destruct Hin|].
  destruct Hin as [<- | Hin].
  - apply fold_min_le_init.
  - now apply fold_min_le_In.
Qed.

Lemma common_length_uint : 0 <= common_length sim < UINT_MAX1.
Proof. apply n_kept_uint, common_length_In. Qed.

Lemma py_min_n_kept : py_min (n_kept sim) = Ok (common_length sim).
Proof.
  unfold py_min, common_length. pose proof n_kept_nonempty.
  destruct (n_kept sim); [congruence | reflexivity].
Qed.

Lemma sim_n_save_uint z : In z (sim_n_save sim) -> 0 <= z < UINT_MAX1.
Proof.
  intros H. apply In_nth_error in H. destruct H as [i Hi].
  destruct (well_formed_inv sim n WF) as (Hm & H1 & _ & _ & Hc).
  assert (Hlt : (i < List.length (sim_n_save sim))%nat)
    by (apply nth_error_Some; congruence).
  destruct (chain_wf_inv _ _ _ (Hc (Z.of_nat i) ltac:(lia)))
    as (nv & s & w & _ & Hs & _ & Hws & Hs32 & _).
  apply py_index_Ok in Hs. rewrite Nat2Z.id in Hs. destruct Hs as [_ Hs].
  assert (z = s) by congruence. lia.
Qed.

Lemma sim_warmup2_uint z : In z (sim_warmup2 sim) -> 0 <= z < UINT_MAX1.
Proof.
  intros H. apply In_nth_error in H. destruct H as [i Hi].
  destruct (well_formed_inv sim n WF) as (Hm & _ & H1 & _ & Hc).
  assert (Hlt : (i < List.length (sim_warmup2 sim))%nat)
    by (apply nth_error_Some; congruence).
  destruct (chain_wf_inv _ _ _ (Hc (Z.of_nat i) ltac:(lia)))
    as (nv & s & w & _ & _ & Hw & Hws & Hs32 & _).
  apply py_index_Ok in Hw. rewrite Nat2Z.id in Hw. destruct Hw as [_ Hw].
  assert (z = w) by congruence. lia.
Qed.
End CommonLength.

(** ** The primitives inside their contracts *)

Section Contracts.
Context {F : Type} {D : Double F}.

Lemma autocovariance_of_length (y : list F) :
  List.length (stan.autocovariance_of y) = List.length y.
Proof. unfold stan.autocovariance_of. now rewrite length_map, length_seq. Qed.

Lemma stan_autocovariance_Ok (y : list F) :
  (2 <= List.length y)%nat -> stan.autocovariance y = Ok (stan.autocovariance_of y).
Proof. destruct y as [|a [|b y]]; simpl; intros; try lia; reflexivity. Qed.

Lemma stan_autocovariance_Undefined (y : list F) :
  (List.length y < 2)%nat -> stan.autocovariance y = Undefined.
Proof. destruct y as [|a [|b y]]; simpl; intros; try lia; reflexivity. Qed.

Lemma stan_mean_Ok (x : list F) :
  (1 <= List.length x)%nat -> stan.mean x = Ok (stan.mean_of x).
Proof. destruct x; simpl; intros; try lia; reflexivity. Qed.

Lemma stan_variance_Ok (x : list F) :
  (2 <= List.length x)%nat -> stan.variance x = Ok (stan.variance_of x).
Proof. destruct x as [|a [|b x]]; simpl; intros; try lia; reflexivity. Qed.

Lemma cdiv_Ok (x y : F) : is_zero y = false -> cdiv x y = Ok (fdiv x y).
Proof. unfold cdiv. now intros ->. Qed.

Lemma cdiv_Raise (x y : F) : is_zero y = true -> cdiv x y = Raise ZeroDivisionError.
Proof. unfold cdiv. now intros ->. Qed.

Lemma uint_sub_1 z : 1 <= z < UINT_MAX1 -> uint_sub z 1 = z - 1.
Proof. intros H. unfold uint_sub. apply Z.mod_small. lia. Qed.

Lemma fold_left_pair_map {A B C : Type} (f : A -> B) (g : A -> C) (l : list A)
    (acc : list B * list C) :
  fold_left (fun cc a => (fst cc ++ [f a], snd cc ++ [g a])) l acc
  = (fst acc ++ map f l, snd acc ++ map g l).
Proof.
  revert acc. induction l as [|a l IH]; intros [u v]; simpl.
  - now rewrite !app_nil_r.
  - rewrite IH. simpl. now rewrite <- !app_assoc.
Qed.
End Contracts.

(** ** Lines 105-133 of [effective_sample_size] *)

Section Moments.
Context {F : Type} {D : Double F} {E : ExactConversion F}.
Variable sim : Sim F.
Variable n : Z.
Hypothesis WF : well_formed sim n = true.
Hypothesis Hmin : 2 <= common_length sim.

Lemma spec_kept_length k :
  0 <= k < sim_chains sim -> (2 <= List.length (spec_kept sim n k))%nat.
Proof.
  intros Hk. pose proof (common_length_le sim n WF k Hk).
  destruct (chain_facts sim n WF k Hk) as (nv & w & H'). lia.
Qed.

Lemma returns_chain_count :
  returns sim (c <- py sim_chains ;; lift (to_uint c)) (Ok (sim_chains sim)).
Proof.
  destruct (well_formed_inv sim n WF) as (Hm & _).
  eapply returns_bind; [apply returns_py|].
  eapply returns_eq; [apply returns_lift|]. apply to_uint_Ok. lia.
Qed.

Lemma returns_kept_counts : returns sim kept_counts (Ok (n_kept sim)).
Proof.
  unfold kept_counts.
  eapply returns_bind; [apply returns_py|].
  eapply returns_bind; [apply returns_py|].
  eapply returns_eq; [apply returns_lift|].
  apply to_uint_vector_Ok. apply (n_kept_uint sim n WF).
Qed.

Lemma returns_n_samples :
  returns sim (lift (res_bind (py_min (n_kept sim)) to_uint))
          (Ok (common_length sim)).
Proof.
  eapply returns_eq; [apply returns_lift|].
  rewrite (py_min_n_kept sim n WF). simpl.
  apply to_uint_Ok, (common_length_uint sim n WF).
Qed.

Lemma returns_ess_moments :
  returns sim (ess_moments n) (Ok (spec_moments sim n)).
Proof.
  destruct (well_formed_inv sim n WF) as (Hm & _).
  unfold ess_moments.
  eapply returns_bind; [apply returns_chain_count|].
  eapply returns_bind.
  { eapply returns_bind; [apply returns_py|].
    eapply returns_eq; [apply returns_lift|].
    apply to_uint_vector_Ok, (sim_n_save_uint sim n WF). }
  eapply returns_bind.
  { eapply returns_bind; [apply returns_py|].
    eapply returns_eq; [apply returns_lift|].
    apply to_uint_vector_Ok, (sim_warmup2_uint sim n WF). }
  eapply returns_bind; [apply returns_kept_counts|].
  eapply returns_bind; [apply returns_n_samples|].
  eapply returns_bind.
  { apply (returns_for_each sim _ _ (fun acc k => acc ++ [spec_acov sim n k])).
    intros k acc Hk. apply py_range_In in Hk.
    eapply returns_bind; [|apply returns_ret].
    eapply returns_eq; [apply (returns_autocovariance sim n WF k Hk)|].
    apply stan_autocovariance_Ok, spec_kept_length, Hk. }
  rewrite fold_left_snoc_map. simpl.
  eapply returns_bind.
  { apply (returns_for_each sim _ _
             (fun cc k => (fst cc ++ [spec_chain_mean sim n k],
                           snd cc ++ [spec_chain_var sim n k]))).
    intros k [cm cv] Hk. apply py_range_In in Hk.
    destruct (chain_facts sim n WF k Hk)
      as (nv & w & _ & _ & _ & _ & _ & Hl & _ & Hu & Hat).
    pose proof (common_length_le sim n WF k Hk) as Hle.
    eapply returns_bind; [eapply returns_eq; [apply returns_lift | exact Hat]|].
    eapply returns_bind;
      [apply (returns_get_chain_mean sim n WF k Hk); lia|].
    eapply returns_bind;
      [eapply returns_eq; [apply returns_lift | now apply vec_at_map_range]|].
    eapply returns_bind.
    { eapply returns_eq; [apply returns_lift|].
      apply (vec_at_nth _ 0 (of_Z 0)).
      unfold spec_acov. rewrite autocovariance_of_length. lia. }
    eapply returns_bind; [|apply returns_ret].
    eapply returns_eq; [apply returns_lift|].
    rewrite uint_sub_1 by lia.
    apply cdiv_Ok, of_Z_nonzero. lia. }
  rewrite fold_left_pair_map. simpl.
  eapply returns_bind.
  { eapply returns_eq; [apply returns_lift|].
    apply stan_mean_Ok. rewrite length_map, py_range_length. lia. }
  eapply returns_bind.
  { eapply returns_eq; [apply returns_lift|].
    rewrite uint_sub_1 by (pose proof (common_length_uint sim n WF); lia).
    apply cdiv_Ok, of_Z_nonzero. lia. }
  unfold spec_moments, spec_var_plus, spec_mean_var, spec_chains.
  destruct (Z.ltb_spec 1 (sim_chains sim)).
  - eapply returns_bind; [|apply returns_ret].
    eapply returns_bind; [|apply returns_ret].
    eapply returns_eq; [apply returns_lift|].
    apply stan_variance_Ok. rewrite length_map, py_range_length. lia.
  - eapply returns_bind; [|apply returns_ret]. apply returns_ret.
Qed.
End Moments.

(** ** The loop over the lags *)

Section Lags.
Context {F : Type} {D : Double F}.

Lemma vec_update_app_mid {A : Type} (l1 l2 : list A) (a x : A) :
  vec_update (l1 ++ a :: l2) (List.length l1) x = Some (l1 ++ x :: l2).
Proof. induction l1 as [|b l1 IH]; simpl; [reflexivity|]. now rewrite IH. Qed.

Lemma store_at_run p i (x : F) s l1 a l2 :
  nth_error (heap s) p = Some (l1 ++ a :: l2) ->
  Z.of_nat (List.length l1) = i ->
  store_at p i x s
  = (Ok tt, mkStore (snapshot s) (heap_set (heap s) p (l1 ++ x :: l2))).
Proof.
  intros Hp Hi. unfold store_at.
  rewrite (bind_Ok _ _ _ _ _ (deref_run _ _ _ Hp)).
  destruct (Z.ltb_spec i 0); [lia|].
  replace (Z.to_nat i) with (List.length l1) by lia.
  rewrite vec_update_app_mid. eapply assign_run; eassumption.
Qed.

(** A loop that fills the vector behind [p], one index per pass. *)
Lemma for_each_fill (body : Z -> unit -> M F unit) (g : Z -> F) (p : loc)
    (z : F) (m : nat) :
  (forall i u s l1 a l2,
     0 <= i < Z.of_nat m -> Z.of_nat (List.length l1) = i ->
     nth_error (heap s) p = Some (l1 ++ a :: l2) ->
     body i u s
     = (Ok tt, mkStore (snapshot s) (heap_set (heap s) p (l1 ++ g i :: l2)))) ->
  forall j s, (j <= m)%nat ->
    nth_error (heap s) p = Some (repeat z m) ->
    for_each (py_range 0 (Z.of_nat j)) body tt s
    = (Ok tt, mkStore (snapshot s)
                (heap_set (heap s) p
                   (map g (py_range 0 (Z.of_nat j)) ++ repeat z (m - j)))).
Proof.
  intros Hb. induction j as [|j IH]; intros s Hj Hp.
  - simpl. rewrite Nat.sub_0_r, heap_set_id by assumption.
    destruct s; reflexivity.
  - replace (Z.of_nat (S j)) with (Z.of_nat j + 1) by lia.
    rewrite py_range_snoc by lia.
    rewrite for_each_app, (bind_Ok _ _ _ _ _ (IH s ltac:(lia) Hp)).
    simpl.
    replace (m - j)%nat with (S (m - S j)) by lia. simpl.
    rewrite bind_Ok with (a := tt)
      (s' := mkStore (snapshot s)
               (heap_set (heap s) p
                  (map g (py_range 0 (Z.of_nat j)) ++ g (Z.of_nat j)
                     :: repeat z (m - S j)))).
    + rewrite map_app, <- app_assoc. reflexivity.
    + rewrite (Hb (Z.of_nat j) tt _ (map g (py_range 0 (Z.of_nat j))) z
                 (repeat z (m - S j))).
      * simpl. now rewrite heap_set_twice.
      * lia.
      * rewrite length_map, py_range_length. lia.
      * simpl. eapply heap_set_same; eassumption.
Qed.
End Lags.

(** ** Lines 135-152 of [effective_sample_size] *)

Section Scan.
Context {F : Type} {D : Double F} {E : ExactConversion F}.
Variable sim : Sim F.
Variable n : Z.
Hypothesis WF : well_formed sim n = true.
Hypothesis Hmin : 2 <= common_length sim.

Lemma returns_rho_hat_at t :
  0 <= t < common_length sim ->
  returns sim (rho_hat_at (spec_moments sim n) t)
    (res_bind (cdiv (fsub (spec_mean_var sim n) (spec_mean_acov sim n t))
                    (spec_var_plus sim n))
              (fun q => Ok (fsub (of_Z 1) q))).
Proof.
  intros Ht s Hs.
  destruct (well_formed_inv sim n WF) as (Hm & _).
  unfold rho_hat_at. rewrite bind_new_vector. simpl.
  set (g := fun k => nth (Z.to_nat t) (spec_acov sim n k) (of_Z 0)).
  set (p := List.length (heap s)).
  erewrite bind_Ok.
  2:{ rewrite <- (Z2Nat.id (sim_chains sim)) at 1 by lia.
      apply (for_each_fill _ g p (of_Z 0) (Z.to_nat (sim_chains sim))).
      - intros i u s1 l1 a l2 Hi Hl Hp.
        rewrite (bind_lift_Ok _ (spec_acov sim n i)).
        2:{ unfold spec_chains. apply vec_at_map_range. lia. }
        rewrite (bind_lift_Ok _ (g i)).
        2:{ apply vec_at_nth. unfold spec_acov.
            rewrite autocovariance_of_length.
            pose proof (common_length_le sim n WF i ltac:(lia)).
            destruct (chain_facts sim n WF i ltac:(lia)) as (nv & w & H').
            lia. }
        apply (store_at_run _ _ _ _ l1 a l2 Hp Hl).
      - lia.
      - simpl. unfold p. now rewrite nth_error_app_len0. }
  rewrite Nat.sub_diag, app_nil_r, Z2Nat.id by lia. simpl.
  unfold p. rewrite heap_set_app0. simpl.
  erewrite bind_Ok.
  2:{ apply deref_run. simpl. now rewrite nth_error_app_len0. }
  rewrite (bind_lift_Ok _ (spec_mean_acov sim n t)).
  2:{ unfold spec_mean_acov, spec_chains. fold g.
      apply stan_mean_Ok. rewrite length_map, py_range_length. lia. }
  rewrite bind_lift. unfold spec_mean_acov, spec_chains.
  fold g.
  destruct (cdiv (fsub (spec_mean_var sim n)
                   (stan.mean_of (map g (py_range 0 (sim_chains sim)))))
              (spec_var_plus sim n)) as [q|e|]; simpl;
    eexists; (split; [reflexivity | exact Hs]).
Qed.

Lemma returns_rho_scan ts :
  is_zero (spec_var_plus sim n) = false ->
  (forall t, In t ts -> 0 <= t < common_length sim) ->
  forall rho_hat acc,
    returns sim (rho_scan (spec_moments sim n) ts rho_hat acc)
      (Ok (if ge_zero rho_hat
           then acc ++ take_while ge_zero (map (spec_rho_hat sim n) ts)
           else acc)).
Proof.
  intros Hv. induction ts as [|t ts IH]; intros Hts rho_hat acc; simpl.
  - eapply returns_eq; [apply returns_ret|].
    destruct (ge_zero rho_hat); now rewrite ?app_nil_r.
  - destruct (ge_zero rho_hat); [|apply returns_ret].
    eapply returns_bind.
    + eapply returns_eq; [apply returns_rho_hat_at; apply Hts; now left|].
      rewrite cdiv_Ok by assumption. simpl. reflexivity.
    + eapply returns_eq; [apply IH; intros; apply Hts; now right|].
      fold (spec_mean_acov sim n t).
      change (fsub (of_Z 1)
                (fdiv (fsub (spec_mean_var sim n) (spec_mean_acov sim n t))
                   (spec_var_plus sim n)))
        with (spec_rho_hat sim n t).
      destruct (ge_zero (spec_rho_hat sim n t)).
      * now rewrite <- app_assoc.
      * now rewrite app_nil_r.
Qed.

(** The values the loop accumulates. *)
Lemma returns_ess_rho_hat_t :
  is_zero (spec_var_plus sim n) = false ->
  returns sim (ess_rho_hat_t (spec_moments sim n)) (Ok (spec_rho_hat_t sim n)).
Proof.
  intros Hv. unfold ess_rho_hat_t.
  eapply returns_eq.
  - apply returns_rho_scan; [assumption|].
    simpl. intros t Ht. now apply py_range_In in Ht.
  - rewrite ge_zero_0. reflexivity.
Qed.

(** A zero [var_plus] stops the loop in its first pass. *)
Lemma returns_ess_rho_hat_t_Raise :
  is_zero (spec_var_plus sim n) = true ->
  returns sim (ess_rho_hat_t (spec_moments sim n)) (Raise ZeroDivisionError).
Proof.
  intros Hv. unfold ess_rho_hat_t. simpl.
  rewrite py_range_cons by lia. simpl. rewrite ge_zero_0.
  apply returns_bind_Raise.
  eapply returns_eq; [apply returns_rho_hat_at; lia|].
  now rewrite cdiv_Raise.
Qed.

(** The outcome of [effective_sample_size] on a well-formed snapshot with
    at least two kept draws per chain. *)
Lemma returns_effective_sample_size :
  returns sim (effective_sample_size n)
    (if is_zero (spec_var_plus sim n)
     then Raise ZeroDivisionError
     else ess_result (spec_moments sim n) (spec_rho_hat_t sim n)).
Proof.
  unfold effective_sample_size.
  eapply returns_bind; [apply (returns_ess_moments sim n WF Hmin)|].
  destruct (is_zero (spec_var_plus sim n)) eqn:Hv.
  - apply returns_bind_Raise. now apply returns_ess_rho_hat_t_Raise.
  - eapply returns_bind; [now apply returns_ess_rho_hat_t|].
    apply returns_lift.
Qed.
End Scan.

(** ** Exact arithmetic *)

Lemma Qeq_bool_inject_Z (z : Z) : z <> 0 -> Qeq_bool (inject_Z z) 0 = false.
Proof.
  intros H. destruct (Qeq_bool (inject_Z z) 0) eqn:E; [|reflexivity].
  apply Qeq_bool_eq in E. unfold Qeq in E. simpl in E. lia.
Qed.

#[export] Instance exact_conversion : ExactConversion Q :=
  {| of_Z_nonzero := Qeq_bool_inject_Z |}.

(** ** The truncation rule *)

Section Truncation.
Context {A : Type}.

Lemma take_while_range (p : A -> bool) (f : Z -> A) (len : nat) (lo : Z) :
  exists T,
    lo <= T <= lo + Z.of_nat len
    /\ take_while p (map f (py_range lo (lo + Z.of_nat len))) = map f (py_range lo T)
    /\ (forall t, lo <= t < T -> p (f t) = true)
    /\ (T < lo + Z.of_nat len -> p (f T) = false).
Proof.
  revert lo. induction len as [|len IH]; intros lo.
  - exists lo. rewrite !py_range_nil by lia. simpl. repeat split; try lia.
  - replace (lo + Z.of_nat (S len)) with (lo + 1 + Z.of_nat len) by lia.
    rewrite py_range_cons by lia. simpl.
    destruct (p (f lo)) eqn:Hp.
    + destruct (IH (lo + 1)) as (T & HT & E & Hall & Hstop).
      exists T.
      repeat split; try lia.
      * rewrite E, (py_range_cons lo T) by lia. reflexivity.
      * intros t Ht. destruct (Z.eq_dec t lo) as [->|]; [assumption|].
        apply Hall. lia.
      * assumption.
    + exists lo. rewrite py_range_nil by lia. simpl.
      repeat split; try lia. intros _. assumption.
Qed.
End Truncation.

(** ** The effective sample size *)

Section EffectiveSampleSize.
Context {F : Type} {D : Double F} {E : ExactConversion F}.

Lemma uint_mul_small a b : 0 <= a * b < UINT_MAX1 -> uint_mul a b = a * b.
Proof. intros H. unfold uint_mul. now apply Z.mod_small. Qed.

(** C4: on a well-formed snapshot with at least two kept draws per chain,
    a [var_plus] that is not zero and a product [m * N] that fits a C
    unsigned int, the locals [mean_var] and [var_plus] of
    [effective_sample_size] are the mean over the chains of
    [chain_var[k] = acov[k][0] * n_kept[k] / (n_kept[k] - 1)] and
    [mean_var * (N - 1) / N], plus the sample variance of the chain means
    exactly when [m > 1]; and the function returns [m * N] divided by
    [1 + 2 * sum(rho_hat_t)] when values were accumulated (and [m * N]
    otherwise). *)
Theorem effective_sample_size_is_spec_ess
    (sim : Sim F) (n : Z) (h : list (list F)) :
  well_formed sim n = true ->
  2 <= common_length sim ->
  sim_chains sim * common_length sim < UINT_MAX1 ->
  is_zero (spec_var_plus sim n) = false ->
  (spec_rho_hat_t sim n <> [] ->
   is_zero (fadd (of_Z 1) (fmul (of_Z 2) (stan.sum (spec_rho_hat_t sim n)))) = false) ->
  exists mo s1,
    ess_moments n (mkStore sim h) = (Ok mo, s1)
    /\ mo_mean_var mo
       = stan.mean_of (map (spec_chain_var sim n) (spec_chains sim))
    /\ mo_var_plus mo
       = (let within :=
            fdiv (fmul (mo_mean_var mo) (of_Z (common_length sim - 1)))
                 (of_Z (common_length sim)) in
          if 1 <? sim_chains sim
          then fadd within
                 (stan.variance_of (map (spec_chain_mean sim n) (spec_chains sim)))
          else within)
    /\ fst (effective_sample_size n (mkStore sim h)) = Ok (spec_ess sim n).
Proof.
  intros WF Hmin Hmul Hv Hden.
  destruct (returns_ess_moments sim n WF Hmin (mkStore sim h) eq_refl)
    as (s1 & E1 & _).
  exists (spec_moments sim n), s1.
  split; [assumption|]. split; [reflexivity|]. split; [reflexivity|].
  rewrite (returns_fst sim _ _ h (returns_effective_sample_size sim n WF Hmin)).
  rewrite Hv. unfold ess_result, spec_ess. simpl.
  destruct (well_formed_inv sim n WF) as (Hm & _).
  rewrite uint_mul_small by nia.
  destruct (spec_rho_hat_t sim n) as [|r l] eqn:Hr; simpl; [reflexivity|].
  rewrite cdiv_Ok; [reflexivity|].
  apply Hden. discriminate.
Qed.

(** C5: on a well-formed snapshot with at least two kept draws per chain
    and a [var_plus] that is not zero, the loop of [effective_sample_size]
    accumulates exactly [rho_hat(0), ..., rho_hat(T-1)] for some lag
    [T <= N]: every accumulated value passed the test [rho_hat >= 0], and
    either [T = N] or [rho_hat(T)] is the first value that failed it and
    is left out. *)
Theorem rho_hat_t_is_truncated_sequence
    (sim : Sim F) (n : Z) (h : list (list F)) :
  well_formed sim n = true ->
  2 <= common_length sim ->
  is_zero (spec_var_plus sim n) = false ->
  exists mo s1 T,
    ess_moments n (mkStore sim h) = (Ok mo, s1)
    /\ fst (ess_rho_hat_t mo s1) = Ok (map (spec_rho_hat sim n) (py_range 0 T))
    /\ 0 <= T <= common_length sim
    /\ (forall t, 0 <= t < T -> ge_zero (spec_rho_hat sim n t) = true)
    /\ (T < common_length sim -> ge_zero (spec_rho_hat sim n T) = false).
Proof.
  intros WF Hmin Hv.
  destruct (returns_ess_moments sim n WF Hmin (mkStore sim h) eq_refl)
    as (s1 & E1 & Hs1).
  destruct (returns_ess_rho_hat_t sim n WF Hv s1 Hs1) as (s2 & E2 & _).
  destruct (take_while_range ge_zero (spec_rho_hat sim n)
              (Z.to_nat (common_length sim)) 0) as (T & HT & ET & Hall & Hstop).
  rewrite Z.add_0_l, Z2Nat.id in * by lia.
  exists (spec_moments sim n), s1, T.
  split; [assumption|]. split; [|repeat split; try lia; assumption].
  rewrite E2. simpl. unfold spec_rho_hat_t. now rewrite ET.
Qed.
End EffectiveSampleSize.

Lemma effective_sample_size_is_spec_ess_witness :
  exists mo s1,
    ess_moments 0 (mkStore sim_123 []) = (Ok mo, s1)
    /\ mo_mean_var mo
       = stan.mean_of (map (spec_chain_var sim_123 0) (spec_chains sim_123))
    /\ mo_var_plus mo
       = (let within :=
            fdiv (fmul (mo_mean_var mo) (of_Z (common_length sim_123 - 1)))
                 (of_Z (common_length sim_123)) in
          if 1 <? sim_chains sim_123
          then fadd within
                 (stan.variance_of
                    (map (spec_chain_mean sim_123 0) (spec_chains sim_123)))
          else within)
    /\ fst (effective_sample_size 0 (mkStore sim_123 [])) = Ok (spec_ess sim_123 0).
Proof.
  apply (effective_sample_size_is_spec_ess sim_123 0 []).
  - reflexivity.
  - vm_compute. discriminate.
  - reflexivity.
  - reflexivity.
  - intros _. reflexivity.
Defined.

Lemma rho_hat_t_is_truncated_sequence_witness :
  exists mo s1 T,
    ess_moments 0 (mkStore sim_123 []) = (Ok mo, s1)
    /\ fst (ess_rho_hat_t mo s1) = Ok (map (spec_rho_hat sim_123 0) (py_range 0 T))
    /\ 0 <= T <= common_length sim_123
    /\ (forall t, 0 <= t < T -> ge_zero (spec_rho_hat sim_123 0 t) = true)
    /\ (T < common_length sim_123 -> ge_zero (spec_rho_hat sim_123 0 T) = false).
Proof.
  apply (rho_hat_t_is_truncated_sequence sim_123 0 []).
  - reflexivity.
  - vm_compute. discriminate.
  - reflexivity.
Defined.

(** ** Loops whose passes can fail *)

Section FailingLoops.
Context {F : Type} {D : Double F}.
Variable sim : Sim F.

Lemma returns_for_each_res {A S : Type} (l : list A) (body : A -> S -> M F S)
    (step : S -> A -> res S) :
  (forall a acc, In a l -> returns sim (body a acc) (step acc a)) ->
  forall acc, returns sim (for_each l body acc) (fold_res step l acc).
Proof.
  induction l as [|a l IH]; intros Hb acc; simpl.
  - apply returns_ret.
  - apply returns_bind_res; [apply Hb; now left|].
    intros acc' _. apply IH. intros; apply Hb; now right.
Qed.

Lemma fold_res_Undefined {A S : Type} (step : S -> A -> res S) (l : list A) :
  (forall a acc, In a l -> step acc a = Undefined \/ exists acc', step acc a = Ok acc') ->
  (exists a, In a l /\ forall acc, step acc a = Undefined) ->
  forall acc, fold_res step l acc = Undefined.
Proof.
  induction l as [|a l IH]; intros Hall (b & Hb & Hu) acc; simpl.
  - destruct Hb.
  - destruct (Hall a acc (or_introl eq_refl)) as [H1 | (acc' & H1)];
      rewrite H1; [reflexivity|]. simpl.
    destruct Hb as [<- | Hb].
    + rewrite Hu in H1. discriminate.
    + apply IH; [intros; apply Hall; now right | eauto].
Qed.
End FailingLoops.

(** ** Too few samples for the effective sample size *)

Section TooFew.
Context {F : Type} {D : Double F}.
Variable sim : Sim F.
Variable n : Z.
Hypothesis WF : well_formed sim n = true.

(** Below two kept draws in some chain, the first loop of
    [effective_sample_size] hands a sequence of length 0 or 1 to the
    autocovariance primitive. *)
Lemma returns_ess_moments_Undefined :
  common_length sim < 2 -> returns sim (ess_moments n) Undefined.
Proof.
  intros Hlt.
  destruct (well_formed_inv sim n WF) as (Hm & _).
  unfold ess_moments.
  eapply returns_bind; [apply (returns_chain_count sim n WF)|].
  eapply returns_bind.
  { eapply returns_bind; [apply returns_py|].
    eapply returns_eq; [apply returns_lift|].
    apply to_uint_vector_Ok, (sim_n_save_uint sim n WF). }
  eapply returns_bind.
  { eapply returns_bind; [apply returns_py|].
    eapply returns_eq; [apply returns_lift|].
    apply to_uint_vector_Ok, (sim_warmup2_uint sim n WF). }
  eapply returns_bind; [apply (returns_kept_counts sim n WF)|].
  eapply returns_bind; [apply (returns_n_samples sim n WF)|].
  apply returns_bind_Undefined.
  eapply returns_eq.
  - apply (returns_for_each_res sim _ _
             (fun acc k =>
                res_bind (stan.autocovariance (spec_kept sim n k))
                         (fun a => Ok (acc ++ [a])))).
    intros k acc Hk. apply py_range_In in Hk.
    apply returns_bind_res; [apply (returns_autocovariance sim n WF k Hk)|].
    intros a _. apply returns_ret.
  - apply fold_res_Undefined.
    + intros k acc _.
      destruct (stan.autocovariance (spec_kept sim n k)) as [a|e|] eqn:Ea; simpl.
      * right. eauto.
      * destruct (spec_kept sim n k) as [|x [|y l]]; discriminate.
      * now left.
    + destruct (n_kept_In sim n WF _ (common_length_In sim n WF))
        as (k & Hk & Ek).
      exists k. split; [now apply py_range_In|].
      intros acc. rewrite stan_autocovariance_Undefined; [reflexivity|].
      destruct (chain_facts sim n WF k Hk) as (nv & w & H'). lia.
Qed.

Lemma returns_effective_sample_size_Undefined :
  common_length sim < 2 -> returns sim (effective_sample_size n) Undefined.
Proof.
  intros Hlt. unfold effective_sample_size.
  apply returns_bind_Undefined. now apply returns_ess_moments_Undefined.
Qed.
End TooFew.

(** ** One pass of the loop over chains of the split R-hat *)

Section SplitPass.
Context {F : Type} {D : Double F}.

Lemma range_map_nth (xs : list F) (d : F) (lo hi : Z) :
  0 <= lo <= hi -> hi <= Z.of_nat (List.length xs) ->
  map (fun i => nth (Z.to_nat i) xs d) (py_range lo hi)
  = firstn (Z.to_nat (hi - lo)) (skipn (Z.to_nat lo) xs).
Proof.
  intros H1 H2. apply (nth_ext _ _ d d).
  - rewrite length_map, py_range_length, length_firstn, length_skipn. lia.
  - intros i Hi. rewrite length_map, py_range_length in Hi.
    unfold py_range. rewrite map_map.
    rewrite (nth_indep _ d (nth (Z.to_nat (lo + Z.of_nat 0)) xs d))
      by (rewrite length_map, length_seq; lia).
    rewrite (map_nth (fun x => nth (Z.to_nat (lo + Z.of_nat x)) xs d)).
    rewrite seq_nth by lia.
    rewrite nth_firstn.
    destruct (Nat.ltb_spec i (Z.to_nat (hi - lo))); [|lia].
    rewrite nth_skipn. f_equal. lia.
Qed.

Variable sim : Sim F.
Variable n : Z.
Hypothesis WF : well_formed sim n = true.
Variable h0 : list (list F).

Let q (i : nat) : loc := (List.length h0 + i)%nat.

(** Copying [samples[lo..hi)] to the end of [split_chain]. *)
Lemma copy_half_run means vars xs carry lo hi :
  0 <= lo <= hi -> hi <= Z.of_nat (List.length xs) ->
  for_each (py_range lo hi)
    (fun i _ =>
       v <- deref (q 2) ;;
       x <- lift (vec_at v i) ;;
       push_back (q 3) x) tt (split_store sim h0 means vars xs carry)
  = (Ok tt,
     split_store sim h0 means vars xs
       (carry ++ firstn (Z.to_nat (hi - lo)) (skipn (Z.to_nat lo) xs))).
Proof.
  intros H1 H2.
  rewrite (for_each_push _ (fun i => nth (Z.to_nat i) xs (of_Z 0)) (q 3)
             (fun s => nth_error (heap s) (q 2) = Some xs) _) with (acc := carry).
  - unfold split_store, q. simpl. rewrite heap_set_app. simpl.
    now rewrite range_map_nth.
  - intros i u s acc Hi Hs Hacc. apply py_range_In in Hi.
    rewrite (bind_Ok _ _ _ _ _ (deref_run _ _ _ Hs)).
    rewrite (bind_lift_Ok _ _ _ _ (vec_at_nth xs i (of_Z 0) ltac:(lia))).
    now apply push_back_run.
  - intros s v Hs. simpl. rewrite heap_set_other; [assumption|].
    unfold q. lia.
  - unfold split_store, q. simpl. now rewrite nth_error_app_len.
  - unfold split_store, q. simpl. now rewrite nth_error_app_len.
Qed.

(** Lines 198-199 and 204-205: the mean and the variance of
    [split_chain], appended to the two result vectors. *)
Lemma push_stats_run means vars xs c (rest : M F unit) :
  ((c' <- deref (q 3) ;; mu <- lift (stan.mean c') ;; push_back (q 0) mu) ;;
   (c' <- deref (q 3) ;; s2 <- lift (stan.variance c') ;; push_back (q 1) s2) ;;
   rest) (split_store sim h0 means vars xs c)
  = match half_stats c with
    | Ok ms => rest (split_store sim h0 (means ++ [fst ms]) (vars ++ [snd ms]) xs c)
    | Raise e =>
        (Raise e,
         match stan.mean c with
         | Ok mu => split_store sim h0 (means ++ [mu]) vars xs c
         | _ => split_store sim h0 means vars xs c
         end)
    | Undefined =>
        (Undefined,
         match stan.mean c with
         | Ok mu => split_store sim h0 (means ++ [mu]) vars xs c
         | _ => split_store sim h0 means vars xs c
         end)
    end.
Proof.
  unfold half_stats.
  rewrite bind_assoc.
  erewrite bind_Ok
    by (apply deref_run; unfold split_store, q; simpl; now rewrite nth_error_app_len).
  rewrite bind_assoc, bind_lift.
  destruct (stan.mean c) as [mu|e|]; simpl; try reflexivity.
  erewrite bind_Ok.
  2:{ apply (push_back_run _ _ means). unfold split_store, q. simpl.
      now rewrite nth_error_app_len. }
  unfold split_store, q. simpl. rewrite heap_set_app. simpl.
  rewrite !bind_assoc.
  erewrite bind_Ok
    by (apply deref_run; simpl; now rewrite nth_error_app_len).
  rewrite bind_assoc, bind_lift.
  destruct (stan.variance c) as [s2|e|]; simpl; try reflexivity.
  erewrite bind_Ok.
  2:{ apply (push_back_run _ _ vars). simpl. now rewrite nth_error_app_len. }
  simpl. rewrite heap_set_app. simpl. reflexivity.
Qed.

(** One pass of the loop, lines 194-205, against [split_step]. *)
Lemma split_one_chain_run means vars smp carry L k :
  0 <= k < sim_chains sim -> 0 <= L <= spec_n_kept sim k ->
  exists s',
    split_one_chain n L (q 0) (q 1) (q 2) (q 3) k (split_store sim h0 means vars smp carry)
    = (res_bind (split_step L (spec_kept sim n) (means, vars, carry) k)
                (fun _ => Ok tt), s')
    /\ snapshot s' = sim
    /\ forall means' vars' carry',
         split_step L (spec_kept sim n) (means, vars, carry) k
         = Ok (means', vars', carry') ->
         s' = split_store sim h0 means' vars' (spec_kept sim n k) carry'.
Proof.
  intros Hk HL.
  destruct (chain_facts sim n WF k Hk)
    as (nv & w & Hd & Hw & Hw0 & Hlen & Hsk & Hl & _).
  unfold split_one_chain.
  erewrite bind_Ok.
  2:{ apply (get_kept_samples_run _ k n nv w _ smp); auto.
      unfold split_store, q. simpl. now rewrite nth_error_app_len. }
  replace (mkStore (snapshot (split_store sim h0 means vars smp carry))
             (heap_set (heap (split_store sim h0 means vars smp carry)) (q 2)
                (skipn (Z.to_nat w) nv)))
    with (split_store sim h0 means vars (spec_kept sim n k) carry).
  2:{ unfold split_store, q. simpl. rewrite heap_set_app. simpl. now rewrite Hsk. }
  set (xs := spec_kept sim n k) in *.
  assert (HL2 : 0 <= L / 2 <= L) by (split; [apply Z.div_pos | apply Z.div_le_upper_bound]; lia).
  erewrite bind_Ok by (apply copy_half_run; lia).
  rewrite Z.sub_0_r. simpl skipn.
  rewrite push_stats_run. unfold split_step. fold xs.
  destruct (half_stats (carry ++ firstn (Z.to_nat (L / 2)) xs)) as [ms1|e|];
    simpl; try (eexists; split; [reflexivity | split; [reflexivity | discriminate]]).
  2:{ destruct (stan.mean (carry ++ firstn (Z.to_nat (L / 2)) xs));
        eexists; (split; [reflexivity | split; [reflexivity | discriminate]]). }
  2:{ destruct (stan.mean (carry ++ firstn (Z.to_nat (L / 2)) xs));
        eexists; (split; [reflexivity | split; [reflexivity | discriminate]]). }
  erewrite bind_Ok.
  2:{ apply (clear_run _ (carry ++ firstn (Z.to_nat (L / 2)) xs)).
      unfold split_store, q. simpl. now rewrite nth_error_app_len. }
  replace (mkStore _ _)
    with (split_store sim h0 (means ++ [fst ms1]) (vars ++ [snd ms1]) xs [])
    by (unfold split_store, q; simpl; rewrite heap_set_app; reflexivity).
  erewrite bind_Ok by (apply copy_half_run; lia).
  simpl app.
  pose proof (push_stats_run (means ++ [fst ms1]) (vars ++ [snd ms1]) xs
                (firstn (Z.to_nat (L - L / 2)) (skipn (Z.to_nat (L / 2)) xs))
                (ret tt)) as P.
  set (second := firstn (Z.to_nat (L - L / 2)) (skipn (Z.to_nat (L / 2)) xs)) in *.
  assert (E : forall (m1 m2 : M F unit) s, (m1 ;; m2) s = (m1 ;; m2 ;; ret tt) s).
  { intros m1 m2 s. unfold bind. destruct (m1 s) as [[[]| |] s1]; auto.
    destruct (m2 s1) as [[[]| |] s2]; auto. }
  rewrite E, P.
  destruct (half_stats second) as [ms2|e|]; simpl.
  - eexists. split; [reflexivity|]. split; [reflexivity|].
    intros means' vars' carry' H. inversion H; subst.
    now rewrite <- !app_assoc.
  - destruct (stan.mean second);
      eexists; (split; [reflexivity | split; [reflexivity | discriminate]]).
  - destruct (stan.mean second);
      eexists; (split; [reflexivity | split; [reflexivity | discriminate]]).
Qed.
End SplitPass.

(** ** The split potential scale reduction *)

Arguments split_step : simpl never.

Section SplitRun.
Context {F : Type} {D : Double F}.
Variable sim : Sim F.
Variable n : Z.
Hypothesis WF : well_formed sim n = true.

Lemma split_loop_run h0 L (l : list Z) :
  (forall k, In k l -> 0 <= k < sim_chains sim /\ 0 <= L <= spec_n_kept sim k) ->
  forall means vars smp carry,
  exists s',
    for_each l
      (fun chain _ =>
         split_one_chain n L (List.length h0 + 0)%nat (List.length h0 + 1)%nat
           (List.length h0 + 2)%nat (List.length h0 + 3)%nat chain)
      tt (split_store sim h0 means vars smp carry)
    = (res_bind (fold_res (split_step L (spec_kept sim n)) l (means, vars, carry))
                (fun _ => Ok tt), s')
    /\ snapshot s' = sim
    /\ forall means' vars' carry',
         fold_res (split_step L (spec_kept sim n)) l (means, vars, carry)
         = Ok (means', vars', carry') ->
         exists smp', s' = split_store sim h0 means' vars' smp' carry'.
Proof.
  induction l as [|k l IH]; intros Hl means vars smp carry; simpl.
  - eexists. split; [reflexivity|]. split; [reflexivity|].
    intros means' vars' carry' H. inversion H; subst. eauto.
  - destruct (Hl k (or_introl eq_refl)) as [Hk HL].
    destruct (split_one_chain_run sim n WF h0 means vars smp carry L k Hk HL)
      as (s1 & E1 & Hs1 & Hst).
    destruct (split_step L (spec_kept sim n) (means, vars, carry) k)
      as [[[means1 vars1] carry1]|e|] eqn:Estep; simpl in E1 |- *.
    + rewrite (bind_Ok _ _ _ _ _ E1).
      rewrite (Hst _ _ _ eq_refl).
      apply IH. intros; apply Hl; now right.
    + rewrite (bind_Raise _ _ _ _ _ E1).
      eexists. split; [reflexivity|]. split; [assumption | discriminate].
    + rewrite (bind_Undefined _ _ _ _ E1).
      eexists. split; [reflexivity|]. split; [assumption | discriminate].
Qed.

Lemma even_length_bounds N : 0 <= N -> 0 <= even_length N <= N.
Proof.
  intros H. unfold even_length. destruct (Z.eqb_spec (N mod 2) 1); [|lia].
  assert (N <> 0) by (intros ->; discriminate). lia.
Qed.

Lemma even_length_uint N :
  0 <= N < UINT_MAX1 ->
  (if N mod 2 =? 1 then uint_sub N 1 else N) = even_length N.
Proof.
  intros H. unfold even_length. destruct (Z.eqb_spec (N mod 2) 1); [|reflexivity].
  apply uint_sub_1. assert (N <> 0) by (intros ->; discriminate). lia.
Qed.

(** Lines 175-205 on a well-formed snapshot. *)
Lemma split_halves_run h0 :
  let L := even_length (common_length sim) in
  let r := fold_res (split_step L (spec_kept sim n)) (spec_chains sim) ([], [], []) in
  exists s',
    split_halves n (mkStore sim h0)
    = (res_bind r (fun _ =>
         Ok (mkHalves L (List.length h0) (List.length h0 + 1)%nat)), s')
    /\ snapshot s' = sim
    /\ forall means vars carry,
         r = Ok (means, vars, carry) ->
         exists smp, s' = split_store sim h0 means vars smp carry.
Proof.
  intros L r.
  destruct (well_formed_inv sim n WF) as (Hm & _).
  pose proof (common_length_uint sim n WF) as HN.
  unfold split_halves.
  destruct (returns_chain_count sim n WF (mkStore sim h0) eq_refl) as (s1 & E1 & Hs1).
  assert (s1 = mkStore sim h0) as ->.
  { revert E1. unfold bind, py, lift. simpl. now inversion 1. }
  rewrite (bind_Ok _ _ _ _ _ E1).
  rewrite bind_Ok with (a := sim_n_save sim) (s' := mkStore sim h0).
  2:{ rewrite bind_py. simpl. unfold lift.
      now rewrite (to_uint_vector_Ok _ (sim_n_save_uint sim n WF)). }
  rewrite bind_Ok with (a := sim_warmup2 sim) (s' := mkStore sim h0).
  2:{ rewrite bind_py. simpl. unfold lift.
      now rewrite (to_uint_vector_Ok _ (sim_warmup2_uint sim n WF)). }
  rewrite bind_Ok with (a := n_kept sim) (s' := mkStore sim h0).
  2:{ pose proof (to_uint_vector_Ok _ (n_kept_uint sim n WF)) as Hu.
      unfold n_kept in Hu |- *. unfold kept_counts. rewrite !bind_py. simpl.
      unfold lift. now rewrite Hu. }
  rewrite bind_lift_Ok with (a := common_length sim).
  2:{ rewrite (py_min_n_kept sim n WF). simpl. now apply to_uint_Ok. }
  rewrite even_length_uint by assumption. fold L.
  rewrite !bind_new_vector. simpl.
  rewrite !length_app. simpl.
  rewrite <- !app_assoc. simpl. rewrite <- !Nat.add_assoc. simpl.
  destruct (split_loop_run h0 L (spec_chains sim)) with
    (means := @nil F) (vars := @nil F) (smp := @nil F) (carry := @nil F)
    as (s2 & E2 & Hs2 & Hst).
  { intros k Hk. apply py_range_In in Hk. split; [assumption|].
    pose proof (even_length_bounds (common_length sim) ltac:(lia)).
    pose proof (common_length_le sim n WF k Hk). fold L in H. lia. }
  unfold split_store in E2. fold r in E2, Hst.
  unfold spec_chains in E2. rewrite Nat.add_0_r in E2.
  destruct r as [[[means vars] carry]|e|]; simpl in *.
  - rewrite (bind_Ok _ _ _ _ _ E2). eexists. split; [reflexivity|].
    split; [assumption|]. intros means' vars' carry' H. inversion H; subst.
    apply Hst. reflexivity.
  - rewrite (bind_Raise _ _ _ _ _ E2). eexists. split; [reflexivity|].
    split; [assumption | discriminate].
  - rewrite (bind_Undefined _ _ _ _ E2). eexists. split; [reflexivity|].
    split; [assumption | discriminate].
Qed.

(** [split_potential_scale_reduction] on a well-formed snapshot. *)
Lemma split_potential_scale_reduction_run `{Sqrt F} h0 :
  fst (split_potential_scale_reduction n (mkStore sim h0))
  = split_outcome (even_length (common_length sim))
      (fold_res (split_step (even_length (common_length sim)) (spec_kept sim n))
         (spec_chains sim) ([], [], [])).
Proof.
  destruct (split_halves_run h0) as (s1 & E1 & Hs1 & Hst).
  unfold split_potential_scale_reduction, split_outcome.
  destruct (fold_res _ _ _) as [[[means vars] carry]|e|]; simpl in *.
  - rewrite (bind_Ok _ _ _ _ _ E1).
    destruct (Hst _ _ _ eq_refl) as (smp & ->).
    unfold split_variances. simpl.
    rewrite bind_assoc.
    erewrite bind_Ok
      by (apply deref_run; unfold split_store; simpl; now rewrite nth_error_app_len0).
    rewrite bind_assoc, bind_lift.
    destruct (stan.variance means) as [b|e|]; simpl; try reflexivity.
    rewrite bind_assoc.
    erewrite bind_Ok
      by (apply deref_run; unfold split_store; simpl; now rewrite nth_error_app_len).
    rewrite bind_assoc, bind_lift.
    destruct (stan.mean vars) as [vw|e|]; simpl; reflexivity.
  - now rewrite (bind_Raise _ _ _ _ _ E1).
  - now rewrite (bind_Undefined _ _ _ _ E1).
Qed.
(** One pass on a well-formed snapshot, entered with [carry] in
    [split_chain]: the statistics pushed first are those of [carry] followed
    by the first half of the chain, and the pass leaves the second half,
    [L / 2] draws, in [split_chain]. *)
Lemma split_pass_keeps_second_half h0 means vars smp carry k m1 v1 m2 v2 :
  let L := even_length (common_length sim) in
  let xs := spec_kept sim n k in
  let second := firstn (Z.to_nat (L - L / 2)) (skipn (Z.to_nat (L / 2)) xs) in
  0 <= k < sim_chains sim ->
  half_stats (carry ++ firstn (Z.to_nat (L / 2)) xs) = Ok (m1, v1) ->
  half_stats second = Ok (m2, v2) ->
  split_one_chain n L (List.length h0 + 0)%nat (List.length h0 + 1)%nat
    (List.length h0 + 2)%nat (List.length h0 + 3)%nat k
    (split_store sim h0 means vars smp carry)
  = (Ok tt, split_store sim h0 (means ++ [m1; m2]) (vars ++ [v1; v2]) xs second)
  /\ Z.of_nat (List.length second) = L / 2.
Proof.
  intros L xs second Hk E1 E2.
  pose proof (common_length_le sim n WF k Hk) as Hle.
  pose proof (common_length_uint sim n WF) as HN.
  pose proof (even_length_bounds (common_length sim) ltac:(lia)) as HL.
  fold L in HL.
  destruct (chain_facts sim n WF k Hk)
    as (nv & w & _ & _ & _ & _ & _ & Hlen & _).
  fold xs in Hlen.
  assert (Hstep : split_step L (spec_kept sim n) (means, vars, carry) k
                  = Ok (means ++ [m1; m2], vars ++ [v1; v2], second)).
  { unfold split_step. fold xs. rewrite E1. simpl. fold second. rewrite E2.
    reflexivity. }
  destruct (split_one_chain_run sim n WF h0 means vars smp carry L k Hk
              ltac:(lia)) as (s' & Hrun & _ & Hs').
  rewrite Hrun, Hstep, (Hs' _ _ _ Hstep). split; [reflexivity|].
  assert (Heven : L mod 2 = 0).
  { unfold L, even_length.
    destruct (Z.eqb_spec (common_length sim mod 2) 1) as [E|E].
    - replace (common_length sim - 1) with (common_length sim + (-1) * 2 + 1)
        by lia.
      rewrite Z.add_comm, Z.add_assoc.
      rewrite Z_mod_plus_full.
      rewrite Z.add_comm, Zplus_mod, E. reflexivity.
    - pose proof (Z.mod_pos_bound (common_length sim) 2 ltac:(lia)). lia. }
  pose proof (Z.div_mod L 2 ltac:(lia)) as Hdm.
  unfold second. rewrite length_firstn, length_skipn. lia.
Qed.

End SplitRun.

(** ** Degenerate variances *)

(** C2: when the variance in the denominator is zero, both functions
    raise [ZeroDivisionError] instead of returning a value:
    [effective_sample_size] on a well-formed snapshot with at least two
    kept draws per chain whose [var_plus] is zero, and
    [split_potential_scale_reduction] on any store where the loop over the
    chains ends and leaves a zero [var_within]. *)
Theorem degenerate_variance_raises :
  (forall (F : Type) (D : Double F) (E : ExactConversion F)
          (sim : Sim F) (n : Z) (h : list (list F)) (mo : moments) (s1 : store F),
      well_formed sim n = true ->
      2 <= common_length sim ->
      ess_moments n (mkStore sim h) = (Ok mo, s1) ->
      is_zero (mo_var_plus mo) = true ->
      fst (effective_sample_size n (mkStore sim h)) = Raise ZeroDivisionError)
  /\ (forall (F : Type) (D : Double F) (S : Sqrt F)
             (n : Z) (s s1 s2 : store F) (hv : halves) (var_between var_within : F),
      split_halves n s = (Ok hv, s1) ->
      split_variances hv s1 = (Ok (var_between, var_within), s2) ->
      is_zero var_within = true ->
      fst (split_potential_scale_reduction n s) = Raise ZeroDivisionError).
Proof.
  split.
  - intros F D E sim n h mo s1 WF Hmin Hmo Hv.
    destruct (returns_ess_moments sim n WF Hmin (mkStore sim h) eq_refl)
      as (s1' & E1 & _).
    rewrite E1 in Hmo. inversion Hmo; subst mo s1'. simpl in Hv.
    rewrite (returns_fst sim _ _ h (returns_effective_sample_size sim n WF Hmin)).
    now rewrite Hv.
  - intros F D S n s s1 s2 hv vb vw H1 H2 Hv.
    unfold split_potential_scale_reduction.
    rewrite (bind_Ok _ _ _ _ _ H1), (bind_Ok _ _ _ _ _ H2).
    unfold lift, srhat_of. simpl. now rewrite (cdiv_Raise _ _ Hv).
Qed.

Lemma degenerate_variance_raises_witness :
  fst (effective_sample_size 0 (mkStore sim_111 [])) = Raise ZeroDivisionError
  /\ fst (split_potential_scale_reduction 0 (mkStore sim_1111 []))
     = Raise ZeroDivisionError.
Proof.
  split.
  - apply (proj1 degenerate_variance_raises Q exact exact_conversion sim_111 0 []
             (spec_moments sim_111 0) (snd (ess_moments 0 (mkStore sim_111 [])))).
    + reflexivity.
    + vm_compute. discriminate.
    + vm_compute. reflexivity.
    + vm_compute. reflexivity.
  - apply (proj2 degenerate_variance_raises float binary64 binary64_sqrt 0
             (mkStore sim_1111 [])
             (snd (split_halves 0 (mkStore sim_1111 [])))
             (snd (split_variances (mkHalves 4 0%nat 1%nat)
                     (snd (split_halves 0 (mkStore sim_1111 [])))))
             (mkHalves 4 0%nat 1%nat) 0%float 0%float).
    + vm_compute. reflexivity.
    + vm_compute. reflexivity.
    + reflexivity.
Defined.

(** ** Too few samples *)

Section TooFewSplit.
Context {F : Type} {D : Double F}.

Lemma half_stats_short (x : list F) :
  (List.length x < 2)%nat -> half_stats x = Undefined.
Proof.
  unfold half_stats. destruct x as [|a [|b x]]; simpl; intros; try lia; reflexivity.
Qed.

Lemma even_length_small N : 0 <= N < 4 -> 0 <= even_length N / 2 <= 1.
Proof.
  intros H.
  assert (C : N = 0 \/ N = 1 \/ N = 2 \/ N = 3) by lia.
  destruct C as [C | [C | [C | C]]]; rewrite C; vm_compute; split; discriminate.
Qed.

Lemma fold_res_split_Undefined (sim : Sim F) (n : Z) :
  0 < sim_chains sim -> 0 <= common_length sim < 4 ->
  fold_res (split_step (even_length (common_length sim)) (spec_kept sim n))
    (spec_chains sim) ([], [], []) = Undefined.
Proof.
  intros Hm HN. unfold spec_chains. rewrite py_range_cons by lia. simpl.
  unfold split_step. rewrite half_stats_short; [reflexivity|].
  pose proof (even_length_small _ HN).
  simpl. rewrite length_firstn. lia.
Qed.
End TooFewSplit.

(** C3, as the code has it: neither function checks the sample count.  On
    a well-formed snapshot whose common kept length is below 2
    ([effective_sample_size]) or below 4
    ([split_potential_scale_reduction]), the function runs into a call of
    an external primitive outside its contract (the autocovariance of
    fewer than two draws; the mean or variance of a half of fewer than two
    draws), and its outcome is that undefined behaviour, not an error of
    its own. *)
Theorem too_few_samples_are_not_checked :
  (forall (F : Type) (D : Double F) (sim : Sim F) (n : Z) (h : list (list F)),
      well_formed sim n = true ->
      common_length sim < 2 ->
      fst (effective_sample_size n (mkStore sim h)) = Undefined)
  /\ (forall (F : Type) (D : Double F) (S : Sqrt F)
             (sim : Sim F) (n : Z) (h : list (list F)),
      well_formed sim n = true ->
      common_length sim < 4 ->
      fst (split_potential_scale_reduction n (mkStore sim h)) = Undefined).
Proof.
  split.
  - intros F D sim n h WF HN.
    apply returns_fst. now apply returns_effective_sample_size_Undefined.
  - intros F D S sim n h WF HN.
    rewrite (split_potential_scale_reduction_run sim n WF).
    destruct (well_formed_inv sim n WF) as (Hm & _).
    pose proof (common_length_uint sim n WF).
    rewrite fold_res_split_Undefined by lia. reflexivity.
Qed.

Lemma too_few_samples_are_not_checked_witness :
  fst (effective_sample_size 0 (mkStore sim_5 [])) = Undefined
  /\ fst (split_potential_scale_reduction 0 (mkStore sim_3draws [])) = Undefined.
Proof.
  split.
  - apply (proj1 too_few_samples_are_not_checked float binary64 sim_5 0 []).
    + reflexivity.
    + reflexivity.
  - apply (proj2 too_few_samples_are_not_checked float binary64 binary64_sqrt
             sim_3draws 0 []).
    + reflexivity.
    + reflexivity.
Defined.

(** C3 as stated fails: with one kept draw (N = 1 < 2)
    [effective_sample_size] raises no exception; it has extracted the kept
    samples (the vectors [[5]] and [[]] are in the heap) and handed them
    to the autocovariance primitive.  With three kept draws (N = 3 < 4)
    [split_potential_scale_reduction] raises no exception either; it has
    already stored the mean of the first half, a single draw. *)
Lemma too_few_samples_raise_no_error :
  common_length sim_5 = 1
  /\ effective_sample_size 0 (mkStore sim_5 [])
     = (Undefined, mkStore sim_5 [[5%float]; []])
  /\ common_length sim_3draws = 3
  /\ split_potential_scale_reduction 0 (mkStore sim_3draws [])
     = (Undefined, mkStore sim_3draws [[1%float]; []; [1; 2; 3]%float; [1%float]]).
Proof. repeat split; vm_compute; reflexivity. Qed.

(** ** The snapshot is never written *)

(** C9: [effective_sample_size], [split_potential_scale_reduction] and
    [get_kept_samples] leave the snapshot of every store as they found it,
    whatever their outcome; the kept samples are a vector of the C++ heap,
    and overwriting it, wholly or at one index, leaves the snapshot
    unchanged too. *)
Theorem snapshot_is_never_mutated (F : Type) (D : Double F) (S : Sqrt F) :
  (forall n s, snapshot (snd (effective_sample_size (F:=F) n s)) = snapshot s)
  /\ (forall n s,
        snapshot (snd (split_potential_scale_reduction (F:=F) n s)) = snapshot s)
  /\ (forall k n p s, snapshot (snd (get_kept_samples (F:=F) k n p s)) = snapshot s)
  /\ (forall k n p v s,
        snapshot (snd ((get_kept_samples (F:=F) k n p ;; assign p v) s)) = snapshot s)
  /\ (forall k n p i x s,
        snapshot (snd ((get_kept_samples (F:=F) k n p ;; store_at p i x) s))
        = snapshot s).
Proof.
  repeat split; intros.
  - apply preserves_effective_sample_size.
  - apply preserves_split_potential_scale_reduction.
  - apply preserves_get_kept_samples.
  - apply preserves_bind; [apply preserves_get_kept_samples|].
    intros _. apply preserves_assign.
  - apply preserves_bind; [apply preserves_get_kept_samples|].
    intros _. apply preserves_store_at.
Qed.

(** ** The pseudo-chains of the split R-hat *)

(** C1 fails on the code: [split_chain] is cleared before the second half
    of a chain (line 201) and not before the first half of the next one.
    With the chains 1,2,3,4 and 5,6,7,8 the third pseudo-chain is
    3,4,5,6, of length 4, with mean 4.5 and variance 5/3 (the double
    0x1.aaaaaaaaaaaabp+0), where the halves
    of length 2 would give 5,6 with mean 5.5 and variance 0.5.  On every
    well-formed snapshot a pass of the loop entered with [carry] in
    [split_chain] pushes the statistics of [carry] followed by the first
    half, and leaves the [L / 2] draws of the second half for the next
    pass. *)
Theorem split_chain_is_not_cleared_between_chains :
  split_halves 0 (mkStore sim_two_chains [])
  = (Ok (mkHalves 4 0%nat 1%nat),
     mkStore sim_two_chains
       [[1.5; 3.5; 4.5; 7.5]; [0.5; 0.5; 0x1.aaaaaaaaaaaabp+0; 0.5];
        [5; 6; 7; 8]; [7; 8]]%float)
  /\ half_stats [3; 4; 5; 6]%float = Ok (4.5, 0x1.aaaaaaaaaaaabp+0)%float
  /\ half_stats [5; 6]%float = Ok (5.5, 0.5)%float
  /\ (forall (sim : Sim float) (n : Z) (h0 : list (list float))
             (means vars smp carry : list float) (k : Z) (m1 v1 m2 v2 : float),
        let L := even_length (common_length sim) in
        let xs := spec_kept sim n k in
        let second :=
          firstn (Z.to_nat (L - L / 2)) (skipn (Z.to_nat (L / 2)) xs) in
        well_formed sim n = true ->
        0 <= k < sim_chains sim ->
        half_stats (carry ++ firstn (Z.to_nat (L / 2)) xs) = Ok (m1, v1) ->
        half_stats second = Ok (m2, v2) ->
        split_one_chain n L (List.length h0 + 0)%nat (List.length h0 + 1)%nat
          (List.length h0 + 2)%nat (List.length h0 + 3)%nat k
          (split_store sim h0 means vars smp carry)
        = (Ok tt,
           split_store sim h0 (means ++ [m1; m2]) (vars ++ [v1; v2]) xs second)
        /\ Z.of_nat (List.length second) = L / 2).
Proof.
  split; [vm_compute; reflexivity|].
  split; [vm_compute; reflexivity|].
  split; [vm_compute; reflexivity|].
  intros sim n h0 means vars smp carry k m1 v1 m2 v2 L xs second WF Hk E1 E2.
  exact (split_pass_keeps_second_half sim n WF h0 means vars smp carry k
           m1 v1 m2 v2 Hk E1 E2).
Qed.

(** ** Odd common lengths *)

Section Truncated.
Context {F : Type} {D : Double F}.

Lemma nth_error_combine {A B : Type} (l1 : list A) (l2 : list B) i a b :
  nth_error l1 i = Some a -> nth_error l2 i = Some b ->
  nth_error (combine l1 l2) i = Some (a, b).
Proof.
  revert l2 i. induction l1 as [|x l1 IH]; intros [|y l2] [|i]; simpl;
    try discriminate.
  - intros E1 E2; inversion E1; inversion E2; reflexivity.
  - apply IH.
Qed.

Lemma dict_get_map {V W : Type} (g : V -> W) (d : list (string * V)) key v :
  dict_get d key = Ok v ->
  dict_get (map (fun kv => (fst kv, g (snd kv))) d) key = Ok (g v).
Proof.
  induction d as [|[k x] d IH]; simpl; [discriminate|].
  destruct (String.eqb k key); [|assumption].
  intros E; inversion E; reflexivity.
Qed.

Lemma combine_map_self {A B : Type} (f : A -> B) (l : list A) :
  combine (map f l) l = map (fun x => (f x, x)) l.
Proof. induction l; simpl; [reflexivity|]. now rewrite IHl. Qed.

Lemma fold_min_const (L : Z) (l : list Z) :
  (forall z, In z l -> z = L) -> fold_left Z.min l L = L.
Proof.
  induction l as [|a l IH]; intros H; simpl; [reflexivity|].
  rewrite (H a (or_introl eq_refl)), Z.min_id.
  apply IH. intros; apply H; now right.
Qed.

Variable sim : Sim F.
Variable n : Z.
Hypothesis WF : well_formed sim n = true.
Variable L : Z.
Hypothesis HL : 0 <= L <= common_length sim.

Lemma n_kept_truncate : n_kept (truncate_kept L sim) = map (fun _ => L) (sim_warmup2 sim).
Proof.
  unfold n_kept, truncate_kept. simpl. rewrite combine_map_self, map_map.
  apply map_ext. intros w. simpl. lia.
Qed.

Lemma common_length_truncate : common_length (truncate_kept L sim) = L.
Proof.
  unfold common_length. rewrite n_kept_truncate.
  destruct (well_formed_inv sim n WF) as (Hm & _ & H2 & _).
  destruct (sim_warmup2 sim) as [|w l]; [simpl in H2; lia|]. simpl.
  apply fold_min_const. intros z Hz. apply in_map_iff in Hz.
  now destruct Hz as (_ & <- & _).
Qed.

Lemma chain_truncate k :
  0 <= k < sim_chains sim ->
  chain_wf (truncate_kept L sim) n k = true
  /\ spec_kept (truncate_kept L sim) n k
     = firstn (Z.to_nat L) (spec_kept sim n k).
Proof.
  intros Hk.
  destruct (well_formed_inv sim n WF) as (_ & _ & _ & _ & Hc).
  destruct (chain_wf_inv _ _ _ (Hc k Hk))
    as (nv & s & w & Hd & Hs & Hw & Hws & Hs32 & Hlen).
  destruct (draws_inv _ _ _ _ Hd) as (slst & key & E1 & E2 & E3).
  pose proof (common_length_le sim n WF k Hk) as Hle.
  destruct (chain_facts sim n WF k Hk)
    as (nv' & w' & Hd' & Hw' & _ & _ & Hsk & _ & Hc' & _).
  assert (nv' = nv) by congruence. assert (w' = w) by congruence. subst nv' w'.
  assert (Hd2 : draws (truncate_kept L sim) k n = Ok (firstn (Z.to_nat (w + L)) nv)).
  { unfold draws, truncate_kept. simpl.
    apply py_index_Ok in E1, Hw. destruct E1 as [H0 E1], Hw as [_ Hw].
    rewrite (proj2 (py_index_Ok _ k _)
               (conj H0 (map_nth_error _ _ _ (nth_error_combine _ _ _ _ _ Hw E1)))).
    simpl. rewrite map_map. simpl.
    change (map (fun x : string * list F => fst x) slst) with (map fst slst).
    rewrite E2. simpl.
    now apply (dict_get_map (fun x => firstn (Z.to_nat (w + L)) x)). }
  assert (Hs2 : py_index (sim_n_save (truncate_kept L sim)) k = Ok (w + L)).
  { simpl. apply py_index_Ok in Hw. destruct Hw as [H0 Hw].
    apply py_index_Ok. split; [assumption|].
    now apply (map_nth_error (fun w => w + L)). }
  split.
  - unfold chain_wf. rewrite Hd2, Hs2. simpl sim_warmup2. rewrite Hw.
    rewrite length_firstn.
    rewrite !andb_true_iff. repeat split; try lia.
    apply Z.eqb_eq. lia.
  - unfold spec_kept at 1, kept. rewrite Hd2. simpl sim_warmup2. rewrite Hw. simpl.
    rewrite Hsk, skipn_firstn_comm. f_equal. lia.
Qed.

Lemma well_formed_truncate : well_formed (truncate_kept L sim) n = true.
Proof.
  destruct (well_formed_inv sim n WF) as (Hm & H1 & H2 & H3 & Hc).
  unfold well_formed. rewrite !andb_true_iff, !Z.ltb_lt, !Z.eqb_eq. simpl.
  rewrite !length_map, length_combine.
  repeat split; try lia.
  apply forallb_forall. intros k Hk. apply py_range_In in Hk.
  now apply chain_truncate.
Qed.

Lemma split_step_truncate st k :
  0 <= k < sim_chains sim ->
  split_step L (spec_kept (truncate_kept L sim) n) st k
  = split_step L (spec_kept sim n) st k.
Proof.
  intros Hk. destruct st as [[means vars] carry]. unfold split_step.
  rewrite (proj2 (chain_truncate k Hk)).
  assert (H2 : 0 <= L / 2 <= L)
    by (split; [apply Z.div_pos | apply Z.div_le_upper_bound]; lia).
  rewrite firstn_firstn, skipn_firstn_comm, firstn_firstn.
  replace (Init.Nat.min (Z.to_nat (L / 2)) (Z.to_nat L)) with (Z.to_nat (L / 2)) by lia.
  replace (Init.Nat.min (Z.to_nat (L - L / 2)) (Z.to_nat L - Z.to_nat (L / 2)))
    with (Z.to_nat (L - L / 2)) by lia.
  reflexivity.
Qed.

Lemma fold_res_ext {A S : Type} (f g : S -> A -> res S) (l : list A) :
  (forall a acc, In a l -> f acc a = g acc a) ->
  forall acc, fold_res f l acc = fold_res g l acc.
Proof.
  induction l as [|a l IH]; intros H acc; simpl; [reflexivity|].
  rewrite (H a acc (or_introl eq_refl)).
  destruct (g acc a); simpl; auto. apply IH. intros; apply H; now right.
Qed.

Lemma fold_res_split_truncate st :
  fold_res (split_step L (spec_kept (truncate_kept L sim) n))
    (spec_chains (truncate_kept L sim)) st
  = fold_res (split_step L (spec_kept sim n)) (spec_chains sim) st.
Proof.
  unfold spec_chains. simpl. apply fold_res_ext.
  intros k acc Hk. apply py_range_In in Hk. now apply split_step_truncate.
Qed.
End Truncated.

Section OddLength.
Context {F : Type} {D : Double F} {S : Sqrt F}.

Lemma even_length_odd N : N mod 2 = 1 -> even_length N = N - 1.
Proof. intros H. unfold even_length. now rewrite H. Qed.

Lemma even_length_even N : N mod 2 <> 1 -> even_length N = N.
Proof.
  intros H. unfold even_length. destruct (Z.eqb_spec (N mod 2) 1); congruence.
Qed.

(** C7: on a well-formed snapshot whose common kept length [N] is odd,
    [split_potential_scale_reduction] has the outcome it has on the
    snapshot with every chain cut after its first [N - 1] kept draws; and
    the [n_samples] that the loop over the chains works with is [N - 1]
    for an odd [N] and [N] itself for an even one. *)
Theorem odd_common_length_drops_one_draw
    (sim : Sim F) (n : Z) (h h' : list (list F)) :
  well_formed sim n = true ->
  (common_length sim mod 2 = 1 ->
   fst (split_potential_scale_reduction n (mkStore sim h))
   = fst (split_potential_scale_reduction n
            (mkStore (truncate_kept (common_length sim - 1) sim) h')))
  /\ (forall hv s',
        split_halves n (mkStore sim h) = (Ok hv, s') ->
        ha_n_samples hv
        = if common_length sim mod 2 =? 1
          then common_length sim - 1 else common_length sim).
Proof.
  intros WF. split.
  - intros Hodd.
    pose proof (common_length_uint sim n WF) as HN.
    assert (HL : 0 <= common_length sim - 1 <= common_length sim).
    { assert (common_length sim <> 0) by (intros E; rewrite E in Hodd; discriminate).
      lia. }
    rewrite (split_potential_scale_reduction_run sim n WF).
    rewrite (split_potential_scale_reduction_run _ n
               (well_formed_truncate sim n WF _ HL)).
    rewrite (common_length_truncate sim n WF).
    rewrite (even_length_odd _ Hodd).
    rewrite even_length_even.
    + now rewrite (fold_res_split_truncate sim n WF _ HL).
    + rewrite <- Zminus_mod_idemp_l, Hodd. discriminate.
  - intros hv s' Hh.
    destruct (split_halves_run sim n WF h) as (s1 & E1 & _).
    rewrite Hh in E1.
    destruct (fold_res _ _ _) as [st|e|]; simpl in E1; inversion E1.
    reflexivity.
Qed.
End OddLength.

Lemma odd_common_length_drops_one_draw_witness :
  (common_length sim_7draws mod 2 = 1 ->
   fst (split_potential_scale_reduction 0 (mkStore sim_7draws []))
   = fst (split_potential_scale_reduction 0
            (mkStore (truncate_kept (common_length sim_7draws - 1) sim_7draws) [])))
  /\ (forall hv s',
        split_halves 0 (mkStore sim_7draws []) = (Ok hv, s') ->
        ha_n_samples hv
        = if common_length sim_7draws mod 2 =? 1
          then common_length sim_7draws - 1 else common_length sim_7draws).
Proof.
  apply (odd_common_length_drops_one_draw sim_7draws 0 [] []).
  reflexivity.
Defined.

(** Cutting the seven draws after the sixth is the snapshot of the first
    six draws, and both have the same split R-hat. *)
Example seven_draws_as_six :
  truncate_kept 6 sim_7draws = sim_of [[1; 2; 3; 4; 5; 6]%float] [0]
  /\ fst (split_potential_scale_reduction 0 (mkStore sim_7draws []))
     = fst (split_potential_scale_reduction 0
              (mkStore (sim_of [[1; 2; 3; 4; 5; 6]%float] [0]) [])).
Proof. split; vm_compute; reflexivity. Qed.

(** ** The lag-0 autocorrelation in exact arithmetic *)

(** The operations of the instance [exact] as operations of [Q]. *)
Ltac exact_ops :=
  change (@fadd Q exact) with Qplus in *;
  change (@fsub Q exact) with Qminus in *;
  change (@fmul Q exact) with Qmult in *;
  change (@fdiv Q exact) with Qdiv in *;
  change (@of_Z Q exact) with inject_Z in *;
  change (inject_Z 0) with 0%Q in *;
  change (inject_Z 1) with 1%Q in *;
  change (inject_Z 2) with 2%Q in *.

Section ExactSums.
Local Open Scope Q_scope.

Lemma fold_Qplus_acc (l : list Q) (a : Q) :
  fold_left Qplus l a == a + fold_left Qplus l 0.
Proof.
  revert a. induction l as [|x l IH]; intros a; simpl.
  - ring.
  - rewrite (IH (a + x)), (IH (0 + x)). ring.
Qed.

Lemma sum_cons (x : Q) (l : list Q) : stan.sum (x :: l) == x + stan.sum l.
Proof.
  unfold stan.sum. simpl. exact_ops. rewrite fold_Qplus_acc. ring.
Qed.

Lemma sum_nil : stan.sum (@nil Q) == 0.
Proof. reflexivity. Qed.

Lemma sum_nonneg (l : list Q) : (forall x, In x l -> 0 <= x) -> 0 <= stan.sum l.
Proof.
  induction l as [|x l IH]; intros H.
  - apply Qle_refl.
  - rewrite sum_cons.
    assert (0 <= x) by (apply H; now left).
    assert (0 <= stan.sum l) by (apply IH; intros; apply H; now right).
    lra.
Qed.

Lemma sum_map_le {A : Type} (f g : A -> Q) (l : list A) :
  (forall a, In a l -> f a <= g a) ->
  stan.sum (map f l) <= stan.sum (map g l).
Proof.
  induction l as [|a l IH]; intros H; simpl.
  - apply Qle_refl.
  - rewrite !sum_cons.
    assert (f a <= g a) by (apply H; now left).
    assert (stan.sum (map f l) <= stan.sum (map g l))
      by (apply IH; intros; apply H; now right).
    lra.
Qed.

Lemma sum_map_scale {A : Type} (f : A -> Q) (c : Q) (l : list A) :
  stan.sum (map (fun a => f a * c) l) == stan.sum (map f l) * c.
Proof.
  induction l as [|a l IH]; simpl.
  - rewrite !sum_nil. ring.
  - rewrite !sum_cons, IH. ring.
Qed.

Lemma sum_squares_nonneg (d : list Q) : 0 <= stan.sum (map (fun v => fmul v v) d).
Proof.
  apply sum_nonneg. intros x Hx. apply in_map_iff in Hx.
  destruct Hx as (v & <- & _). exact_ops. nra.
Qed.

Lemma variance_of_nonneg (x : list Q) :
  (1 <= List.length x)%nat -> 0 <= stan.variance_of x.
Proof.
  intros H. unfold stan.variance_of.
  pose proof (sum_squares_nonneg (stan.centered x (stan.mean_of x))) as Hs.
  set (s := stan.sum _) in *.
  assert (Hd : 0 <= of_Z (Z.of_nat (List.length x) - 1)).
  { exact_ops. unfold Qle. simpl. lia. }
  set (d := of_Z _) in *. exact_ops.
  destruct (Qlt_le_dec 0 d) as [Hpos | Hle].
  - apply Qle_shift_div_l; [assumption|]. lra.
  - assert (d == 0) by lra. unfold Qdiv. rewrite H0.
    change (/ 0) with 0. lra.
Qed.

Lemma lag_products_0 (d : list Q) :
  stan.lag_products d 0 = map (fun v => fmul v v) d.
Proof.
  unfold stan.lag_products. simpl skipn.
  induction d as [|a d IH]; [reflexivity|].
  cbn [combine map fst snd]. f_equal. exact IH.
Qed.

Lemma acov_0_nonneg (y : list Q) :
  (1 <= List.length y)%nat -> 0 <= nth 0 (stan.autocovariance_of y) (of_Z 0%Z).
Proof.
  intros H. unfold stan.autocovariance_of.
  destruct (List.length y) as [|L] eqn:EL; [lia|]. simpl seq. simpl map. simpl nth.
  rewrite lag_products_0.
  pose proof (sum_squares_nonneg (stan.centered y (stan.mean_of y))) as Hs.
  set (s := stan.sum _) in *. exact_ops.
  apply Qle_shift_div_l; [unfold Qlt; simpl; lia | lra].
Qed.
End ExactSums.

Lemma inject_Z_pred (z : Z) : (inject_Z (z - 1) == inject_Z z - 1)%Q.
Proof. unfold Qeq, Qminus, Qplus, Qopp. simpl. lia. Qed.

Section ExactRho.
Local Open Scope Q_scope.
Variable sim : Sim Q.
Variable n : Z.
Hypothesis WF : well_formed sim n = true.
Hypothesis Hmin : (2 <= common_length sim)%Z.

Let a0 (k : Z) : Q := nth 0 (spec_acov sim n k) (of_Z 0%Z).
Let c : Q := inject_Z (common_length sim).

Lemma chain_var_over_N k :
  (0 <= k < sim_chains sim)%Z -> spec_chain_var sim n k * / c <= a0 k.
Proof.
  intros Hk. unfold spec_chain_var. fold (a0 k).
  assert (Ha : 0 <= a0 k).
  { unfold a0, spec_acov. apply acov_0_nonneg.
    pose proof (spec_kept_length sim n WF Hmin k Hk). lia. }
  pose proof (common_length_le sim n WF k Hk) as Hle.
  set (A := a0 k) in *. exact_ops.
  set (p := inject_Z (spec_n_kept sim k)).
  assert (Hq : inject_Z (spec_n_kept sim k - 1) == p - 1).
  { unfold p. apply inject_Z_pred. }
  rewrite Hq.
  assert (Hc : 2 <= c) by (unfold c, Qle; simpl; lia).
  assert (Hp : c <= p) by (unfold c, p, Qle; simpl; lia).
  unfold Qdiv.
  assert (E : A * p * / (p - 1) * / c == A * p / ((p - 1) * c)) by (field; split; lra).
  rewrite E.
  assert (HX : p <= (p - 1) * c) by nra.
  assert (H0 : 0 < (p - 1) * c) by lra.
  set (X := (p - 1) * c) in *.
  apply Qle_shift_div_r; [assumption|]. nra.
Qed.

Lemma mean_var_over_N : spec_mean_var sim n * / c <= spec_mean_acov sim n 0.
Proof.
  destruct (well_formed_inv sim n WF) as (Hm & _).
  unfold spec_mean_var, spec_mean_acov, stan.mean_of.
  rewrite !length_map. unfold spec_chains. rewrite py_range_length.
  change (Z.to_nat 0) with 0%nat. fold a0.
  pose proof (sum_map_le (fun k => spec_chain_var sim n k * / c) a0
                (py_range 0 (sim_chains sim))) as Hs.
  rewrite sum_map_scale in Hs.
  assert (Hle : stan.sum (map (spec_chain_var sim n) (py_range 0 (sim_chains sim))) * / c
                <= stan.sum (map a0 (py_range 0 (sim_chains sim)))).
  { apply Hs. intros k Hk. apply py_range_In in Hk. now apply chain_var_over_N. }
  clear Hs.
  set (S1 := stan.sum (map (spec_chain_var sim n) _)) in *.
  set (S2 := stan.sum (map a0 _)) in *.
  exact_ops.
  set (M := inject_Z (Z.of_nat (Z.to_nat (sim_chains sim - 0)))).
  assert (HM : 0 < M) by (unfold M, Qlt; simpl; lia).
  assert (Hc : 2 <= c) by (unfold c, Qle; simpl; lia).
  unfold Qdiv.
  assert (E : S1 * / M * / c == (S1 * / c) / M) by (field; split; lra).
  rewrite E. apply Qle_shift_div_r; [assumption|].
  assert (E2 : S2 * / M * M == S2) by (field; lra).
  rewrite E2. assumption.
Qed.

Lemma within_le_var_plus :
  spec_mean_var sim n * (c - 1) / c <= spec_var_plus sim n.
Proof.
  destruct (well_formed_inv sim n WF) as (Hm & _).
  unfold spec_var_plus. exact_ops. fold c.
  assert (Hq : inject_Z (common_length sim - 1) == c - 1).
  { unfold c. apply inject_Z_pred. }
  destruct (Z.ltb_spec 1 (sim_chains sim)); rewrite Hq; [|apply Qle_refl].
  pose proof (variance_of_nonneg (map (spec_chain_mean sim n) (spec_chains sim))) as Hv.
  assert (0 <= stan.variance_of (map (spec_chain_mean sim n) (spec_chains sim))).
  { apply Hv. unfold spec_chains. rewrite length_map, py_range_length. lia. }
  set (w := spec_mean_var sim n * (c - 1) / c). lra.
Qed.

(** With a positive [var_plus] the lag-0 autocorrelation is not negative. *)
Lemma spec_rho_hat_0_nonneg :
  0 < spec_var_plus sim n -> 0 <= spec_rho_hat sim n 0.
Proof.
  intros Hpos. unfold spec_rho_hat.
  pose proof mean_var_over_N as H1.
  pose proof within_le_var_plus as H2.
  set (mv := spec_mean_var sim n) in *.
  set (ma := spec_mean_acov sim n 0) in *.
  set (vp := spec_var_plus sim n) in *.
  exact_ops.
  assert (Hc : 2 <= c) by (unfold c, Qle; simpl; lia).
  assert (E : mv * (c - 1) / c == mv - mv * / c) by (field; lra).
  rewrite E in H2.
  assert (Hq : (mv - ma) / vp <= 1).
  { apply Qle_shift_div_r; [assumption|]. lra. }
  lra.
Qed.
End ExactRho.

Section LagZero.
Local Open Scope Q_scope.

Lemma take_while_all {A : Type} (p : A -> bool) (l : list A) x :
  In x (take_while p l) -> p x = true.
Proof.
  induction l as [|a l IH]; simpl; [tauto|].
  destruct (p a) eqn:Hp; simpl; [|tauto].
  intros [<- | H]; auto.
Qed.

Lemma is_zero_false_of_pos (x : Q) : 0 < x -> is_zero x = false.
Proof.
  intros H. simpl. destruct (Qeq_bool x 0) eqn:E; [|reflexivity].
  apply Qeq_bool_eq in E. lra.
Qed.

(** C6, as the code has it: in exact arithmetic, on a well-formed snapshot
    with at least two kept draws per chain and a positive [var_plus], the
    lag-0 autocorrelation [rho_hat(0) = 1 - (mean_var - mean_k acov[k][0])
    / var_plus] is not negative (it need not be 1: [mean_var] averages the
    bias-corrected [chain_var[k]], not [acov[k][0]]); so [rho_hat(0)] is
    the first accumulated value, the sum is never empty, and
    [effective_sample_size] returns [m * N] divided by
    [1 + 2 * sum(rho_hat_t)]. *)
Theorem lag_0_autocorrelation_is_not_negative
    (sim : Sim Q) (n : Z) (h : list (list Q)) :
  well_formed sim n = true ->
  (2 <= common_length sim)%Z ->
  0 < spec_var_plus sim n ->
  0 <= spec_rho_hat sim n 0
  /\ (exists rest, spec_rho_hat_t sim n = spec_rho_hat sim n 0 :: rest)
  /\ (exists mo s1 s2,
        ess_moments n (mkStore sim h) = (Ok mo, s1)
        /\ ess_rho_hat_t mo s1 = (Ok (spec_rho_hat_t sim n), s2))
  /\ fst (effective_sample_size n (mkStore sim h))
     = Ok (fdiv (of_Z (uint_mul (sim_chains sim) (common_length sim)))
                (fadd (of_Z 1%Z) (fmul (of_Z 2%Z) (stan.sum (spec_rho_hat_t sim n))))).
Proof.
  intros WF Hmin Hpos.
  pose proof (spec_rho_hat_0_nonneg sim n WF Hmin Hpos) as H0.
  pose proof (is_zero_false_of_pos _ Hpos) as Hv.
  assert (Hr : exists rest, spec_rho_hat_t sim n = spec_rho_hat sim n 0 :: rest).
  { unfold spec_rho_hat_t. rewrite py_range_cons by lia. cbn [map take_while].
    apply Qle_bool_iff in H0.
    replace (ge_zero (spec_rho_hat sim n 0)) with true by (symmetry; exact H0).
    eauto. }
  split; [assumption|]. split; [assumption|]. split.
  - destruct (returns_ess_moments sim n WF Hmin (mkStore sim h) eq_refl)
      as (s1 & E1 & Hs1).
    destruct (returns_ess_rho_hat_t sim n WF Hv s1 Hs1) as (s2 & E2 & _).
    eauto.
  - rewrite (returns_fst sim _ _ h (returns_effective_sample_size sim n WF Hmin)).
    rewrite Hv. unfold ess_result. simpl mo_m. simpl mo_n_samples.
    destruct Hr as (rest & Hr).
    assert (Hs : 0 <= stan.sum (spec_rho_hat_t sim n)).
    { apply sum_nonneg. intros x Hx.
      apply take_while_all in Hx. now apply Qle_bool_iff. }
    rewrite Hr in *. simpl List.length.
    destruct (Z.ltb_spec 0 (Z.of_nat (S (List.length rest)))); [|lia].
    apply cdiv_Ok. apply is_zero_false_of_pos.
    set (S := stan.sum _) in *. exact_ops. lra.
Qed.
End LagZero.

Lemma lag_0_autocorrelation_is_not_negative_witness :
  (0 <= spec_rho_hat sim_123 0 0)%Q
  /\ (exists rest, spec_rho_hat_t sim_123 0 = spec_rho_hat sim_123 0 0 :: rest)
  /\ (exists mo s1 s2,
        ess_moments 0 (mkStore sim_123 []) = (Ok mo, s1)
        /\ ess_rho_hat_t mo s1 = (Ok (spec_rho_hat_t sim_123 0), s2))
  /\ fst (effective_sample_size 0 (mkStore sim_123 []))
     = Ok (fdiv (of_Z (uint_mul (sim_chains sim_123) (common_length sim_123)))
                (fadd (of_Z 1) (fmul (of_Z 2) (stan.sum (spec_rho_hat_t sim_123 0))))).
Proof.
  apply (lag_0_autocorrelation_is_not_negative sim_123 0 []).
  - reflexivity.
  - vm_compute. discriminate.
  - vm_compute. reflexivity.
Defined.

(** C6 as stated fails: for the single chain 1, 2, 3, [var_plus] is
    positive (2/3) and the lag-0 autocorrelation is 1/2, not 1. *)
Lemma lag_0_autocorrelation_is_one_half :
  exists mo s1 r s2,
    ess_moments 0 (mkStore sim_123 []) = (Ok mo, s1)
    /\ (mo_var_plus mo == 2 # 3)%Q
    /\ rho_hat_at mo 0 s1 = (Ok r, s2)
    /\ (r == 1 # 2)%Q
    /\ Qeq_bool r 1 = false.
Proof.
  eexists. eexists. eexists. eexists.
  split; [vm_compute; reflexivity|].
  split; [vm_compute; reflexivity|].
  split; [vm_compute; reflexivity|].
  split; vm_compute; reflexivity.
Qed.

(** ** Reordering the chains *)

Lemma Qplus_comm_eq (x y : Q) : Qplus x y = Qplus y x.
Proof.
  unfold Qplus. f_equal; [ring | apply Pos.mul_comm].
Qed.

Lemma Qplus_assoc_eq (x y z : Q) : Qplus (Qplus x y) z = Qplus x (Qplus y z).
Proof.
  unfold Qplus. simpl. f_equal.
  - rewrite !Pos2Z.inj_mul. ring.
  - now rewrite Pos.mul_assoc.
Qed.

#[export] Instance exact_addition : ExactAddition Q :=
  {| fadd_comm := Qplus_comm_eq; fadd_assoc := Qplus_assoc_eq |}.

Section PermutedSums.
Context {F : Type} {D : Double F} {A : ExactAddition F}.

Lemma fold_fadd_perm (l l' : list F) :
  Permutation l l' -> forall z, fold_left fadd l z = fold_left fadd l' z.
Proof.
  induction 1 as [|x l l' _ IH|x y l|l1 l2 l3 _ IH1 _ IH2]; intros z; simpl.
  - reflexivity.
  - apply IH.
  - f_equal. rewrite !fadd_assoc. f_equal. apply fadd_comm.
  - now rewrite IH1.
Qed.

Lemma sum_perm (l l' : list F) : Permutation l l' -> stan.sum l = stan.sum l'.
Proof. intros H. unfold stan.sum. now apply fold_fadd_perm. Qed.

Lemma mean_of_perm (l l' : list F) :
  Permutation l l' -> stan.mean_of l = stan.mean_of l'.
Proof.
  intros H. unfold stan.mean_of.
  now rewrite (sum_perm _ _ H), (Permutation_length H).
Qed.

Lemma variance_of_perm (l l' : list F) :
  Permutation l l' -> stan.variance_of l = stan.variance_of l'.
Proof.
  intros H. unfold stan.variance_of, stan.centered.
  rewrite (mean_of_perm _ _ H), (Permutation_length H).
  f_equal. apply sum_perm. now do 2 apply Permutation_map.
Qed.
End PermutedSums.

Section PermutedChains.
Context {F : Type} {D : Double F}.
Variable sim : Sim F.
Variable n : Z.
Hypothesis WF : well_formed sim n = true.
Variable pi : list nat.
Hypothesis HP : Permutation pi (seq 0 (Z.to_nat (sim_chains sim))).

Lemma pi_length : Z.of_nat (List.length pi) = sim_chains sim.
Proof.
  destruct (well_formed_inv sim n WF) as (Hm & _).
  rewrite (Permutation_length HP), length_seq. lia.
Qed.

Lemma pi_bound i : In i pi -> 0 <= Z.of_nat i < sim_chains sim.
Proof.
  intros H. apply (Permutation_in _ HP) in H. apply in_seq in H. lia.
Qed.

Lemma pi_nth_bound k :
  0 <= k < sim_chains sim ->
  0 <= Z.of_nat (nth (Z.to_nat k) pi 0%nat) < sim_chains sim.
Proof.
  intros Hk. apply pi_bound, nth_In. pose proof pi_length. lia.
Qed.

Lemma py_index_nth {B : Type} (l : list B) (i : nat) (d : B) :
  (i < List.length l)%nat -> py_index l (Z.of_nat i) = Ok (nth i l d).
Proof.
  intros H. apply py_index_Ok. split; [lia|].
  rewrite Nat2Z.id. now apply nth_error_nth'.
Qed.

Lemma py_index_map_pi {B : Type} (g : nat -> B) k :
  0 <= k < sim_chains sim ->
  py_index (map g pi) k = Ok (g (nth (Z.to_nat k) pi 0%nat)).
Proof.
  intros Hk. apply py_index_Ok. split; [lia|].
  apply map_nth_error, nth_error_nth'. pose proof pi_length. lia.
Qed.

Section OneChain.
Variable k : Z.
Hypothesis Hk : 0 <= k < sim_chains sim.
Let i : nat := nth (Z.to_nat k) pi 0%nat.

Lemma permuted_samples :
  py_index (sim_samples (permute_chains pi sim)) k
  = py_index (sim_samples sim) (Z.of_nat i).
Proof.
  destruct (well_formed_inv sim n WF) as (_ & _ & _ & H3 & _).
  pose proof (pi_nth_bound k Hk). fold i in H.
  simpl. rewrite (py_index_map_pi (fun i => nth i (sim_samples sim) []) k Hk).
  symmetry. apply py_index_nth. lia.
Qed.

Lemma permuted_n_save :
  py_index (sim_n_save (permute_chains pi sim)) k
  = py_index (sim_n_save sim) (Z.of_nat i).
Proof.
  destruct (well_formed_inv sim n WF) as (_ & H1 & _).
  pose proof (pi_nth_bound k Hk). fold i in H.
  simpl. rewrite (py_index_map_pi (fun i => nth i (sim_n_save sim) 0) k Hk).
  symmetry. apply py_index_nth. lia.
Qed.

Lemma permuted_warmup2 :
  py_index (sim_warmup2 (permute_chains pi sim)) k
  = py_index (sim_warmup2 sim) (Z.of_nat i).
Proof.
  destruct (well_formed_inv sim n WF) as (_ & _ & H2 & _).
  pose proof (pi_nth_bound k Hk). fold i in H.
  simpl. rewrite (py_index_map_pi (fun i => nth i (sim_warmup2 sim) 0) k Hk).
  symmetry. apply py_index_nth. lia.
Qed.

Lemma permuted_draws :
  draws (permute_chains pi sim) k n = draws sim (Z.of_nat i) n.
Proof. unfold draws. now rewrite permuted_samples. Qed.

Lemma permuted_chain_wf :
  chain_wf (permute_chains pi sim) n k = chain_wf sim n (Z.of_nat i).
Proof.
  unfold chain_wf.
  now rewrite permuted_draws, permuted_n_save, permuted_warmup2.
Qed.

Lemma permuted_spec_kept :
  spec_kept (permute_chains pi sim) n k = spec_kept sim n (Z.of_nat i).
Proof.
  unfold spec_kept, kept. now rewrite permuted_draws, permuted_warmup2.
Qed.

Lemma spec_n_kept_index (s : Sim F) j :
  spec_n_kept s j
  = match py_index (sim_n_save s) j, py_index (sim_warmup2 s) j with
    | Ok a, Ok b => a - b
    | _, _ => spec_n_kept s j
    end.
Proof.
  destruct (py_index (sim_n_save s) j) as [a| |] eqn:Ea; try reflexivity.
  destruct (py_index (sim_warmup2 s) j) as [b| |] eqn:Eb; try reflexivity.
  pose proof (n_kept_index s j a b Ea Eb) as Hi.
  apply py_index_Ok in Hi. destruct Hi as [_ Hi].
  unfold spec_n_kept. now apply nth_error_nth.
Qed.

Lemma permuted_spec_n_kept :
  spec_n_kept (permute_chains pi sim) k = spec_n_kept sim (Z.of_nat i).
Proof.
  destruct (well_formed_inv sim n WF) as (_ & _ & _ & _ & Hc).
  pose proof (pi_nth_bound k Hk) as Hi. fold i in Hi.
  destruct (chain_wf_inv _ _ _ (Hc _ Hi)) as (nv & s & w & _ & Hs & Hw & _).
  rewrite (spec_n_kept_index (permute_chains pi sim) k).
  rewrite (spec_n_kept_index sim (Z.of_nat i)).
  now rewrite permuted_n_save, permuted_warmup2, Hs, Hw.
Qed.
End OneChain.

Lemma well_formed_permute : well_formed (permute_chains pi sim) n = true.
Proof.
  destruct (well_formed_inv sim n WF) as (Hm & H1 & H2 & H3 & Hc).
  pose proof pi_length as Hl.
  unfold well_formed. rewrite !andb_true_iff, !Z.ltb_lt, !Z.eqb_eq. simpl.
  rewrite !length_map.
  repeat split; try lia.
  apply forallb_forall. intros k Hk. apply py_range_In in Hk.
  rewrite (permuted_chain_wf k Hk). apply Hc. now apply pi_nth_bound.
Qed.

Lemma map_nth_seq {B : Type} (l : list B) (d : B) :
  map (fun j => nth j l d) (seq 0 (List.length l)) = l.
Proof.
  apply (nth_ext _ _ d d).
  - now rewrite length_map, length_seq.
  - intros j Hj. rewrite length_map, length_seq in Hj.
    rewrite (nth_indep _ d (nth 0 l d)) by (rewrite length_map, length_seq; lia).
    rewrite (map_nth (fun j => nth j l d)), seq_nth by lia. reflexivity.
Qed.

(** A quantity per chain, listed in the permuted order, is the list in
    the original order permuted. *)
Lemma permuted_map {B : Type} (f' f : Z -> B) :
  (forall k, 0 <= k < sim_chains sim ->
     f' k = f (Z.of_nat (nth (Z.to_nat k) pi 0%nat))) ->
  Permutation (map f' (spec_chains (permute_chains pi sim)))
              (map f (spec_chains sim)).
Proof.
  intros H. unfold spec_chains. simpl.
  rewrite (map_ext_in f' (fun k => f (Z.of_nat (nth (Z.to_nat k) pi 0%nat))))
    by (intros k Hk; apply H; now apply py_range_In).
  assert (E1 : map (fun k => f (Z.of_nat (nth (Z.to_nat k) pi 0%nat)))
                 (py_range 0 (sim_chains sim))
               = map (fun i => f (Z.of_nat i)) pi).
  { unfold py_range. rewrite map_map.
    replace (Z.to_nat (sim_chains sim - 0)) with (List.length pi)
      by (pose proof pi_length; lia).
    rewrite <- (map_nth_seq pi 0%nat) at 2. rewrite map_map.
    apply map_ext. intros j. now rewrite Z.add_0_l, Nat2Z.id. }
  assert (E2 : map f (py_range 0 (sim_chains sim))
               = map (fun i => f (Z.of_nat i)) (seq 0 (Z.to_nat (sim_chains sim)))).
  { unfold py_range. rewrite map_map, Z.sub_0_r.
    apply map_ext. intros j. now rewrite Z.add_0_l. }
  rewrite E1, E2. now apply Permutation_map.
Qed.

Lemma common_length_permute :
  common_length (permute_chains pi sim) = common_length sim.
Proof.
  pose proof well_formed_permute as WF'.
  apply Z.le_antisymm.
  - destruct (n_kept_In sim n WF _ (common_length_In sim n WF)) as (j & Hj & Ej).
    assert (Hin : In (Z.to_nat j) pi).
    { apply Permutation_sym in HP. apply (Permutation_in _ HP), in_seq. lia. }
    destruct (In_nth pi _ 0%nat Hin) as (k & Hk & Ek).
    assert (Hk' : 0 <= Z.of_nat k < sim_chains (permute_chains pi sim))
      by (simpl; pose proof pi_length; lia).
    pose proof (common_length_le _ n WF' _ Hk') as Hle.
    rewrite (permuted_spec_n_kept (Z.of_nat k) Hk'), Nat2Z.id, Ek, Z2Nat.id in Hle
      by lia.
    lia.
  - destruct (n_kept_In _ n WF' _ (common_length_In _ n WF')) as (k & Hk & Ek).
    simpl in Hk. rewrite (permuted_spec_n_kept k Hk) in Ek. rewrite Ek.
    apply (common_length_le sim n WF). now apply pi_nth_bound.
Qed.
End PermutedChains.

Section PermutationInvariance.
Context {F : Type} {D : Double F} {E : ExactConversion F} {A : ExactAddition F}.
Variable sim : Sim F.
Variable n : Z.
Hypothesis WF : well_formed sim n = true.
Variable pi : list nat.
Hypothesis HP : Permutation pi (seq 0 (Z.to_nat (sim_chains sim))).

Local Abbreviation sim' := (permute_chains pi sim).

Lemma spec_mean_var_permute : spec_mean_var sim' n = spec_mean_var sim n.
Proof.
  unfold spec_mean_var. apply mean_of_perm.
  apply (permuted_map sim n WF pi HP). intros k Hk.
  unfold spec_chain_var, spec_acov.
  now rewrite (permuted_spec_kept sim n WF pi HP k Hk),
    (permuted_spec_n_kept sim n WF pi HP k Hk).
Qed.

Lemma spec_var_plus_permute : spec_var_plus sim' n = spec_var_plus sim n.
Proof.
  unfold spec_var_plus.
  rewrite spec_mean_var_permute.
  rewrite (common_length_permute sim n WF pi HP). simpl sim_chains.
  destruct (1 <? sim_chains sim); [|reflexivity].
  f_equal. apply variance_of_perm.
  apply (permuted_map sim n WF pi HP). intros k Hk.
  unfold spec_chain_mean.
  now rewrite (permuted_spec_kept sim n WF pi HP k Hk).
Qed.

Lemma spec_rho_hat_permute t : spec_rho_hat sim' n t = spec_rho_hat sim n t.
Proof.
  unfold spec_rho_hat.
  rewrite spec_mean_var_permute, spec_var_plus_permute.
  do 3 f_equal. unfold spec_mean_acov. apply mean_of_perm.
  apply (permuted_map sim n WF pi HP). intros k Hk.
  unfold spec_acov.
  now rewrite (permuted_spec_kept sim n WF pi HP k Hk).
Qed.

Lemma spec_rho_hat_t_permute : spec_rho_hat_t sim' n = spec_rho_hat_t sim n.
Proof.
  unfold spec_rho_hat_t.
  rewrite (common_length_permute sim n WF pi HP). f_equal.
  apply map_ext. intros t. apply spec_rho_hat_permute.
Qed.
End PermutationInvariance.



(** * Further properties of the module *)

(** ** Lookups in the snapshot *)

Section Lookups.
Context {F : Type} {D : Double F}.

Lemma py_index_out {A : Type} (l : list A) (i : Z) :
  Z.of_nat (List.length l) <= i -> py_index l i = Raise IndexError.
Proof.
  intros H. unfold py_index. destruct (Z.ltb_spec i 0); [reflexivity|].
  destruct (nth_error l (Z.to_nat i)) eqn:E; [|reflexivity].
  assert (nth_error l (Z.to_nat i) <> None) as H' by congruence.
  apply nth_error_Some in H'. lia.
Qed.

Lemma py_index_cases {A : Type} (l : list A) (i : Z) :
  (exists a, py_index l i = Ok a) \/ py_index l i = Raise IndexError.
Proof.
  unfold py_index. destruct (i <? 0); [right; reflexivity|].
  destruct (nth_error l (Z.to_nat i)); [left; eauto | right; reflexivity].
Qed.

Lemma dict_get_In {V : Type} (d : list (string * V)) (key : string) :
  In key (map fst d) -> exists v, dict_get d key = Ok v.
Proof.
  induction d as [|[k v] d IH]; simpl; [intros []|].
  intros H. destruct (String.eqb_spec k key) as [E|E]; [eauto|].
  destruct H as [H|H]; [contradiction|auto].
Qed.

Lemma dict_get_key {V : Type} (d : list (string * V)) (n : Z) (key : string) :
  py_index (map fst d) n = Ok key -> exists v, dict_get d key = Ok v.
Proof.
  intros H. apply py_index_Ok in H as [_ H]. apply nth_error_In in H.
  now apply dict_get_In.
Qed.

Lemma dict_get_nth {V : Type} (d : list (string * V)) (i : nat) key v :
  NoDup (map fst d) -> nth_error d i = Some (key, v) -> dict_get d key = Ok v.
Proof.
  revert i. induction d as [|[k x] d IH]; intros [|i]; simpl; try discriminate.
  - intros _ E. inversion E; subst. now rewrite String.eqb_refl.
  - intros ND E. inversion ND as [|? ? Hk ND']; subst.
    destruct (String.eqb_spec k key) as [->|_].
    + exfalso. apply Hk. apply nth_error_In in E.
      apply (in_map fst) in E. exact E.
    + eapply IH; eassumption.
Qed.

(** [slst[param_names[n]]] is the draw sequence of the [n]-th item when the
    names are distinct. *)
Lemma draws_nth (sim : Sim F) (k n : Z) slst key nv :
  py_index (sim_samples sim) k = Ok slst ->
  NoDup (map fst slst) ->
  py_index slst n = Ok (key, nv) ->
  draws sim k n = Ok nv.
Proof.
  intros E1 ND E2. unfold draws. rewrite E1. simpl.
  apply py_index_Ok in E2 as [Hn E2].
  assert (E3 : py_index (map fst slst) n = Ok key).
  { apply py_index_Ok. split; [assumption|].
    rewrite nth_error_map, E2. reflexivity. }
  rewrite E3. simpl. eapply dict_get_nth; eassumption.
Qed.

Lemma draws_IndexError (sim : Sim F) (k n : Z) :
  Z.of_nat (List.length (sim_samples sim)) <= k
  \/ (exists slst, py_index (sim_samples sim) k = Ok slst
                   /\ Z.of_nat (List.length slst) <= n) ->
  draws sim k n = Raise IndexError.
Proof.
  unfold draws. intros [H|(slst & E & H)].
  - now rewrite (py_index_out _ _ H).
  - rewrite E. simpl. rewrite py_index_out; [reflexivity|].
    now rewrite length_map.
Qed.

(** Both extraction functions start with the lookups of [draws]. *)
Lemma get_kept_samples_no_draws (k n : Z) (p : loc) (s : store F) e :
  draws (snapshot s) k n = Raise e ->
  get_kept_samples k n p s = (Raise e, s).
Proof.
  unfold draws, get_kept_samples. rewrite !bind_py.
  destruct (py_index (sim_samples (snapshot s)) k) as [slst| |];
    simpl; try discriminate; [|now intros [= ->]].
  rewrite bind_lift.
  destruct (py_index (map fst slst) n) as [key| |];
    simpl; try discriminate; [|now intros [= ->]].
  rewrite bind_lift. intros ->. reflexivity.
Qed.

Lemma get_chain_mean_no_draws (k n : Z) (s : store F) e :
  draws (snapshot s) k n = Raise e ->
  get_chain_mean k n s = (Raise e, s).
Proof.
  unfold draws, get_chain_mean. rewrite !bind_py.
  destruct (py_index (sim_samples (snapshot s)) k) as [slst| |];
    simpl; try discriminate; [|now intros [= ->]].
  rewrite bind_lift.
  destruct (py_index (map fst slst) n) as [key| |];
    simpl; try discriminate; [|now intros [= ->]].
  rewrite bind_lift. intros ->. reflexivity.
Qed.


(** X2: on a chain whose parameter names are distinct, the lookup by name
    of lines 44-46 reaches the [n]-th draw sequence [nv], and
    [get_kept_samples] replaces the vector behind its out-parameter,
    whatever it held, by [nv] without its first [warmup2[k]] draws. *)
Theorem get_kept_samples_copies_nth_parameter
    (sim : Sim F) (k n w : Z) (p : loc) (h : list (list F))
    (slst : list (string * list F)) (key : string) (nv old : list F) :
  py_index (sim_samples sim) k = Ok slst ->
  NoDup (map fst slst) ->
  py_index slst n = Ok (key, nv) ->
  py_index (sim_warmup2 sim) k = Ok w ->
  0 <= w ->
  Z.of_nat (List.length nv) < SIZE_MAX1 ->
  nth_error h p = Some old ->
  get_kept_samples k n p (mkStore sim h)
  = (Ok tt, mkStore sim (heap_set h p (skipn (Z.to_nat w) nv))).
Proof.
  intros E1 ND E2 Hw Hw0 Hlen Hp.
  apply (get_kept_samples_run (mkStore sim h) k n nv w p old); simpl; auto.
  eapply draws_nth; eassumption.
Qed.


End Lookups.


Lemma get_kept_samples_copies_nth_parameter_witness :
  get_kept_samples 0 1 0%nat (mkStore sim_two_params [[7]%float])
  = (Ok tt, mkStore sim_two_params (heap_set [[7]%float] 0%nat [5; 6]%float)).
Proof.
  apply (get_kept_samples_copies_nth_parameter sim_two_params 0 1 1 0%nat
           [[7]%float]
           [("alpha"%string, [1; 2; 3]%float); ("beta"%string, [4; 5; 6]%float)]
           "beta"%string [4; 5; 6]%float [7]%float).
  - reflexivity.
  - repeat constructor; simpl; intuition discriminate.
  - reflexivity.
  - reflexivity.
  - lia.
  - reflexivity.
  - reflexivity.
Defined.



(** ** The outcomes of the two extraction functions *)

Section ExtractionOutcomes.
Context {F : Type} {D : Double F}.

(** A loop whose passes keep [I] and raise nothing outside [Q]. *)
Lemma for_each_outcomes {A S : Type} (I : store F -> Prop) (Q : exn -> Prop)
    (l : list A) (body : A -> S -> M F S) :
  (forall a acc s, In a l -> I s ->
     (exists acc' s', body a acc s = (Ok acc', s') /\ I s')
     \/ (exists e s', body a acc s = (Raise e, s') /\ Q e)) ->
  forall acc s, I s ->
    (exists acc' s', for_each l body acc s = (Ok acc', s') /\ I s')
    \/ (exists e s', for_each l body acc s = (Raise e, s') /\ Q e).
Proof.
  induction l as [|a l IH]; intros Hb acc s Hs; simpl.
  - left. exists acc, s. split; [reflexivity | assumption].
  - destruct (Hb a acc s (or_introl eq_refl) Hs)
      as [(acc' & s' & E & Hs') | (e & s' & E & He)].
    + rewrite (bind_Ok _ _ _ _ _ E). apply IH; [|assumption].
      intros; apply Hb; auto. right; assumption.
    + right. exists e, s'. rewrite (bind_Raise _ _ _ _ _ E). auto.
Qed.

Lemma to_size_t_cases z :
  (to_size_t z = Ok z /\ 0 <= z) \/ to_size_t z = Raise OverflowError.
Proof.
  unfold to_size_t. destruct (Z.leb_spec 0 z); [|right; reflexivity].
  destruct (z <? SIZE_MAX1); [left; auto | right; reflexivity].
Qed.

Lemma heap_set_length (h : list (list F)) p v :
  List.length (heap_set h p v) = List.length h.
Proof. revert p. induction h; intros [|p]; simpl; auto. Qed.

Lemma nth_error_allocated (h : list (list F)) p :
  (p < List.length h)%nat -> exists v, nth_error h p = Some v.
Proof.
  intros H. destruct (nth_error h p) eqn:E; [eauto|].
  apply nth_error_None in E. lia.
Qed.

End ExtractionOutcomes.


(** ** Vectors a call leaves alone *)

Section FrameRules.
Context {F : Type} {D : Double F}.

Lemma frames_ret {A : Type} P (a : A) : frames (F:=F) P (ret a).
Proof. intros s. simpl. auto. Qed.

Lemma frames_lift {A : Type} P (r : res A) : frames (F:=F) P (lift r).
Proof. intros s. simpl. auto. Qed.

Lemma frames_py {A : Type} P (f : Sim F -> A) : frames P (py f).
Proof. intros s. simpl. auto. Qed.

Lemma frames_deref P (p : loc) : frames (F:=F) P (deref p).
Proof.
  intros s. unfold deref. destruct (nth_error (heap s) p); simpl; auto.
Qed.

Lemma vec_update_Some (h : list (list F)) p v h' :
  vec_update h p v = Some h' -> h' = heap_set h p v.
Proof.
  revert p h'. induction h as [|a h IH]; intros [|p] h'; simpl;
    try discriminate.
  - now intros [= <-].
  - destruct (vec_update h p v) as [h1|] eqn:E; simpl; [|discriminate].
    intros [= <-]. now rewrite (IH _ _ E).
Qed.

Lemma frames_assign (P : loc -> Prop) (p : loc) (v : list F) :
  ~ P p -> frames P (assign p v).
Proof.
  intros HP s. unfold assign.
  destruct (vec_update (heap s) p v) as [h'|] eqn:E; simpl; [|auto].
  apply vec_update_Some in E. subst h'. rewrite heap_set_length. split; [lia|].
  intros q Hq _. apply heap_set_other. intros ->. contradiction.
Qed.

Lemma frames_bind {A B : Type} P (m : M F A) (k : A -> M F B) :
  frames P m -> (forall a, frames P (k a)) -> frames P (bind m k).
Proof.
  intros Hm Hk s. destruct (Hm s) as [Hl Hq]. unfold bind.
  destruct (m s) as [[a| |] s1]; simpl in *; auto.
  destruct (Hk a s1) as [Hl' Hq']. split; [lia|].
  intros q HP Hlt. rewrite Hq' by (auto; lia). auto.
Qed.

(** The location that [new] returns is not allocated before: what follows
    may write behind it. *)
Lemma frames_bind_new {B : Type} (P : loc -> Prop) (init : list F)
    (k : loc -> M F B) :
  (forall p, frames (fun q => P q /\ q <> p) (k p)) ->
  frames P (bind (new_vector init) k).
Proof.
  intros Hk s. rewrite bind_new_vector.
  destruct (Hk (List.length (heap s)) (mkStore (snapshot s) (heap s ++ [init])))
    as [Hl Hq].
  simpl in Hl, Hq. rewrite length_app in Hl, Hq. simpl in Hl, Hq.
  split; [lia|].
  intros q HP Hlt. rewrite Hq; [|split; [assumption|lia]|lia].
  now rewrite nth_error_app1.
Qed.

Lemma frames_for_each {A S : Type} P (l : list A) (body : A -> S -> M F S) :
  (forall a acc, frames P (body a acc)) ->
  forall acc, frames P (for_each l body acc).
Proof.
  intros Hb. induction l as [|a l IH]; intros acc; simpl.
  - apply frames_ret.
  - apply frames_bind; auto.
Qed.

Lemma same_size_ret {A : Type} (a : A) : same_size (F:=F) (ret a).
Proof. intros s; reflexivity. Qed.

Lemma same_size_lift {A : Type} (r : res A) : same_size (F:=F) (lift r).
Proof. intros s; reflexivity. Qed.

Lemma same_size_py {A : Type} (f : Sim F -> A) : same_size (py f).
Proof. intros s; reflexivity. Qed.

Lemma same_size_deref (p : loc) : same_size (F:=F) (deref p).
Proof. intros s; unfold deref. destruct (nth_error (heap s) p); reflexivity. Qed.

Lemma same_size_assign (p : loc) (v : list F) : same_size (assign p v).
Proof.
  intros s. unfold assign.
  destruct (vec_update (heap s) p v) as [h'|] eqn:E; simpl; [|reflexivity].
  apply vec_update_Some in E. subst h'. apply heap_set_length.
Qed.

Lemma same_size_bind {A B : Type} (m : M F A) (k : A -> M F B) :
  same_size m -> (forall a, same_size (k a)) -> same_size (bind m k).
Proof.
  intros Hm Hk s. unfold bind. specialize (Hm s).
  destruct (m s) as [[a| |] s1]; simpl in *; auto.
  rewrite Hk. assumption.
Qed.

Lemma same_size_for_each {A S : Type} (l : list A) (body : A -> S -> M F S) :
  (forall a acc, same_size (body a acc)) ->
  forall acc, same_size (for_each l body acc).
Proof.
  intros Hb. induction l as [|a l IH]; intros acc; simpl.
  - apply same_size_ret.
  - apply same_size_bind; auto.
Qed.

Ltac size_step :=
  match goal with
  | |- forall _, _ => intro
  | |- same_size (bind _ _) => apply same_size_bind
  | |- same_size (ret _) => apply same_size_ret
  | |- same_size (lift _) => apply same_size_lift
  | |- same_size (py _) => apply same_size_py
  | |- same_size (deref _) => apply same_size_deref
  | |- same_size (assign _ _) => apply same_size_assign
  | |- same_size (for_each _ _ _) => apply same_size_for_each
  | |- same_size (match ?c with _ => _ end) => destruct c
  | |- same_size _ => assumption
  end.
Ltac size := repeat size_step.

Ltac frames_step :=
  match goal with
  | |- forall _, _ => intro
  | |- frames _ (bind (new_vector _) _) => apply frames_bind_new
  | |- frames _ (bind _ _) => apply frames_bind
  | |- frames _ (ret _) => apply frames_ret
  | |- frames _ (lift _) => apply frames_lift
  | |- frames _ (py _) => apply frames_py
  | |- frames _ (deref _) => apply frames_deref
  | |- frames _ (assign _ _) => apply frames_assign; tauto
  | |- frames _ (for_each _ _ _) => apply frames_for_each
  | |- frames _ (match ?c with _ => _ end) => destruct c
  end.
Ltac framing := repeat frames_step.

Lemma same_size_push_back p (x : F) : same_size (push_back p x).
Proof. unfold push_back. size. Qed.

Lemma same_size_store_at p i (x : F) : same_size (store_at p i x).
Proof. unfold store_at. size. Qed.

Lemma same_size_get_chain_mean k n : same_size (F:=F) (get_chain_mean k n).
Proof. unfold get_chain_mean. size. Qed.

Lemma same_size_get_kept_samples k n p :
  same_size (F:=F) (get_kept_samples k n p).
Proof.
  pose proof same_size_push_back. unfold get_kept_samples, clear. size; auto.
Qed.

Lemma frames_push_back (P : loc -> Prop) p (x : F) :
  ~ P p -> frames P (push_back p x).
Proof. intros HP. unfold push_back. framing. Qed.

Lemma frames_store_at (P : loc -> Prop) p i (x : F) :
  ~ P p -> frames P (store_at p i x).
Proof. intros HP. unfold store_at. framing. Qed.

Lemma frames_get_chain_mean P k n : frames (F:=F) P (get_chain_mean k n).
Proof. unfold get_chain_mean. framing. Qed.

Lemma frames_get_kept_samples (P : loc -> Prop) k n p :
  ~ P p -> frames (F:=F) P (get_kept_samples k n p).
Proof.
  intros HP. unfold get_kept_samples, clear. framing.
  apply frames_push_back. assumption.
Qed.

Lemma frames_stan_autocovariance (P : loc -> Prop) y acov :
  ~ P acov -> frames (F:=F) P (stan_autocovariance y acov).
Proof. intros HP. unfold stan_autocovariance. framing. Qed.

Lemma frames_autocovariance P k n : frames (F:=F) P (autocovariance k n).
Proof.
  unfold autocovariance. framing.
  - apply frames_get_kept_samples. tauto.
  - apply frames_stan_autocovariance. tauto.
Qed.

Lemma frames_ess_moments P n : frames (F:=F) P (ess_moments n).
Proof.
  pose proof frames_autocovariance. pose proof frames_get_chain_mean.
  unfold ess_moments, kept_counts. framing; auto.
Qed.

Lemma frames_rho_hat_at P mo t : frames P (rho_hat_at mo t).
Proof.
  unfold rho_hat_at. framing. apply frames_store_at. tauto.
Qed.

Lemma frames_rho_scan P mo ts :
  forall rho_hat rho_hat_t, frames P (rho_scan mo ts rho_hat rho_hat_t).
Proof.
  pose proof frames_rho_hat_at.
  induction ts as [|t ts IH]; intros rho_hat rho_hat_t; simpl; framing; auto.
Qed.

Lemma frames_effective_sample_size P n :
  frames (F:=F) P (effective_sample_size n).
Proof.
  pose proof frames_ess_moments. pose proof frames_rho_scan.
  unfold effective_sample_size, ess_rho_hat_t. framing; auto.
Qed.

Lemma frames_split_one_chain (P : loc -> Prop) n n_samples scm scv sa sc chain :
  ~ P scm -> ~ P scv -> ~ P sa -> ~ P sc ->
  frames (F:=F) P (split_one_chain n n_samples scm scv sa sc chain).
Proof.
  intros H1 H2 H3 H4. unfold split_one_chain, clear.
  framing; try (apply frames_push_back; assumption).
  apply frames_get_kept_samples; assumption.
Qed.

Lemma frames_split_halves P n : frames (F:=F) P (split_halves n).
Proof.
  unfold split_halves, kept_counts. framing.
  apply frames_split_one_chain; tauto.
Qed.

Lemma frames_split_potential_scale_reduction `{Sqrt F} P n :
  frames (F:=F) P (split_potential_scale_reduction n).
Proof.
  pose proof frames_split_halves.
  unfold split_potential_scale_reduction, split_variances. framing; auto.
Qed.

(** A heap that kept its first vectors and lost none is the old heap
    followed by new vectors. *)
Lemma heap_extension (h h' : list (list F)) :
  (List.length h <= List.length h')%nat ->
  (forall q, (q < List.length h)%nat -> nth_error h' q = nth_error h q) ->
  h' = h ++ skipn (List.length h) h'.
Proof.
  revert h'. induction h as [|a h IH]; intros h' Hl Hq; simpl; [reflexivity|].
  destruct h' as [|b h']; simpl in Hl; [lia|].
  pose proof (Hq 0%nat ltac:(simpl; lia)) as H0. simpl in H0.
  inversion H0; subst b. f_equal. apply IH; [lia|].
  intros q Hlt. apply (Hq (S q)). simpl. lia.
Qed.

Lemma frames_extension {A : Type} (m : M F A) (s : store F) :
  frames (fun _ => True) m ->
  heap (snd (m s)) = heap s ++ skipn (List.length (heap s)) (heap (snd (m s))).
Proof.
  intros Hm. destruct (Hm s) as [Hl Hq]. apply heap_extension; auto.
Qed.

Lemma length_two_more {X : Type} (l : list X) :
  List.length l = 2%nat -> exists a b, l = [a; b].
Proof. destruct l as [|a [|b [|c l]]]; simpl; try discriminate. eauto. Qed.

Lemma length_four_more {X : Type} (l : list X) :
  List.length l = 4%nat -> exists a b c d, l = [a; b; c; d].
Proof.
  destruct l as [|a [|b [|c [|d [|e l]]]]]; simpl; try discriminate.
  eauto 6.
Qed.
End FrameRules.

(** ** The conversions at the head of the entry points *)

Section Header.
Context {F : Type} {D : Double F}.

Lemma to_uint_is_uint z :
  to_uint z = if is_uint z then Ok z else Raise OverflowError.
Proof. reflexivity. Qed.

Lemma to_uint_vector_is_uint l :
  to_uint_vector l = if forallb is_uint l then Ok l else Raise OverflowError.
Proof.
  induction l as [|z l IH]; simpl; [reflexivity|].
  rewrite to_uint_is_uint, IH.
  destruct (is_uint z); simpl; [|reflexivity].
  destruct (forallb is_uint l); reflexivity.
Qed.

Lemma fold_min_is_uint l z :
  is_uint z = true -> forallb is_uint l = true ->
  is_uint (fold_left Z.min l z) = true.
Proof.
  revert z. induction l as [|a l IH]; intros z Hz Hl; simpl; [assumption|].
  simpl in Hl. apply andb_true_iff in Hl as [Ha Hl]. apply IH; [|assumption].
  destruct (Z.min_spec z a) as [[_ ->]|[_ ->]]; assumption.
Qed.

Lemma ess_moments_header_fails n (s : store F) e :
  header_outcome (snapshot s) = Raise e -> ess_moments n s = (Raise e, s).
Proof.
  unfold header_outcome, header_converts, ess_moments, kept_counts.
  repeat (rewrite bind_assoc || rewrite bind_py).
  rewrite bind_lift, to_uint_is_uint.
  destruct (is_uint (sim_chains (snapshot s))); simpl;
    [|intros [= <-]; reflexivity].
  repeat (rewrite bind_assoc || rewrite bind_py).
  rewrite bind_lift, to_uint_vector_is_uint.
  destruct (forallb is_uint (sim_n_save (snapshot s))); simpl;
    [|intros [= <-]; reflexivity].
  repeat (rewrite bind_assoc || rewrite bind_py).
  rewrite bind_lift, to_uint_vector_is_uint.
  destruct (forallb is_uint (sim_warmup2 (snapshot s))); simpl;
    [|intros [= <-]; reflexivity].
  repeat (rewrite bind_assoc || rewrite bind_py).
  rewrite bind_lift, to_uint_vector_is_uint.
  fold (n_kept (snapshot s)).
  destruct (forallb is_uint (n_kept (snapshot s))) eqn:Ek; simpl;
    [|intros [= <-]; reflexivity].
  rewrite bind_lift.
  destruct (n_kept (snapshot s)) as [|z l]; simpl.
  - intros [= <-]. reflexivity.
  - discriminate.
Qed.

Lemma split_halves_header_fails n (s : store F) e :
  header_outcome (snapshot s) = Raise e -> split_halves n s = (Raise e, s).
Proof.
  unfold header_outcome, header_converts, split_halves, kept_counts.
  repeat (rewrite bind_assoc || rewrite bind_py).
  rewrite bind_lift, to_uint_is_uint.
  destruct (is_uint (sim_chains (snapshot s))); simpl;
    [|intros [= <-]; reflexivity].
  repeat (rewrite bind_assoc || rewrite bind_py).
  rewrite bind_lift, to_uint_vector_is_uint.
  destruct (forallb is_uint (sim_n_save (snapshot s))); simpl;
    [|intros [= <-]; reflexivity].
  repeat (rewrite bind_assoc || rewrite bind_py).
  rewrite bind_lift, to_uint_vector_is_uint.
  destruct (forallb is_uint (sim_warmup2 (snapshot s))); simpl;
    [|intros [= <-]; reflexivity].
  repeat (rewrite bind_assoc || rewrite bind_py).
  rewrite bind_lift, to_uint_vector_is_uint.
  fold (n_kept (snapshot s)).
  destruct (forallb is_uint (n_kept (snapshot s))) eqn:Ek; simpl;
    [|intros [= <-]; reflexivity].
  rewrite bind_lift.
  destruct (n_kept (snapshot s)) as [|z l]; simpl.
  - intros [= <-]. reflexivity.
  - discriminate.
Qed.

Lemma n_kept_nil (sim : Sim F) :
  sim_n_save sim = [] \/ sim_warmup2 sim = [] -> n_kept sim = [].
Proof.
  unfold n_kept. intros [-> | ->]; [reflexivity|].
  destruct (sim_n_save sim); reflexivity.
Qed.

(** X6: when the chain count, an entry of [n_save] or of [warmup2], or a
    difference [n_save[i] - warmup2[i]] of the zipped lists is not a C
    unsigned int (negative, or 2^32 and more), both entry points raise
    [OverflowError] at the conversions of their first lines, before any
    vector is allocated: the store is left as it was. *)
Theorem header_conversion_raises_OverflowError `{Sqrt F}
    (sim : Sim F) (n : Z) (h : list (list F)) :
  header_converts sim = false ->
  effective_sample_size n (mkStore sim h) = (Raise OverflowError, mkStore sim h)
  /\ split_potential_scale_reduction n (mkStore sim h)
     = (Raise OverflowError, mkStore sim h).
Proof.
  intros Hc.
  assert (Hh : header_outcome (snapshot (mkStore sim h)) = Raise OverflowError)
    by (unfold header_outcome; simpl; now rewrite Hc).
  split.
  - unfold effective_sample_size.
    now rewrite (bind_Raise _ _ _ _ _ (ess_moments_header_fails n _ _ Hh)).
  - unfold split_potential_scale_reduction.
    now rewrite (bind_Raise _ _ _ _ _ (split_halves_header_fails n _ _ Hh)).
Qed.

(** X7: when the conversions succeed and [n_save] or [warmup2] is empty,
    the zipped list of kept counts is empty and [min] of it raises
    [ValueError] in both entry points, whatever the chain count says; the
    store is left as it was. *)
Theorem no_chain_lengths_raise_ValueError `{Sqrt F}
    (sim : Sim F) (n : Z) (h : list (list F)) :
  header_converts sim = true ->
  sim_n_save sim = [] \/ sim_warmup2 sim = [] ->
  effective_sample_size n (mkStore sim h) = (Raise ValueError, mkStore sim h)
  /\ split_potential_scale_reduction n (mkStore sim h)
     = (Raise ValueError, mkStore sim h).
Proof.
  intros Hc He. apply n_kept_nil in He.
  assert (Hh : header_outcome (snapshot (mkStore sim h)) = Raise ValueError)
    by (unfold header_outcome; simpl; now rewrite Hc, He).
  split.
  - unfold effective_sample_size.
    now rewrite (bind_Raise _ _ _ _ _ (ess_moments_header_fails n _ _ Hh)).
  - unfold split_potential_scale_reduction.
    now rewrite (bind_Raise _ _ _ _ _ (split_halves_header_fails n _ _ Hh)).
Qed.
End Header.

Lemma header_conversion_raises_OverflowError_witness :
  effective_sample_size 0 (mkStore (sim_warmup 4) [[7]%float])
  = (Raise OverflowError, mkStore (sim_warmup 4) [[7]%float])
  /\ split_potential_scale_reduction 0 (mkStore (sim_warmup 4) [[7]%float])
     = (Raise OverflowError, mkStore (sim_warmup 4) [[7]%float]).
Proof.
  apply (header_conversion_raises_OverflowError (sim_warmup 4) 0 [[7]%float]).
  reflexivity.
Defined.

Lemma no_chain_lengths_raise_ValueError_witness :
  effective_sample_size 0
    (mkStore (mkSim 1 [] [] (one_param [[1; 2; 3; 4]%float])) [[7]%float])
  = (Raise ValueError,
     mkStore (mkSim 1 [] [] (one_param [[1; 2; 3; 4]%float])) [[7]%float])
  /\ split_potential_scale_reduction 0
       (mkStore (mkSim 1 [] [] (one_param [[1; 2; 3; 4]%float])) [[7]%float])
     = (Raise ValueError,
        mkStore (mkSim 1 [] [] (one_param [[1; 2; 3; 4]%float])) [[7]%float]).
Proof.
  apply (no_chain_lengths_raise_ValueError
           (mkSim 1 [] [] (one_param [[1; 2; 3; 4]%float])) 0 [[7]%float]).
  - reflexivity.
  - left. reflexivity.
Defined.

(** ** What a call leaves in the heap *)

Section HeapAfter.
Context {F : Type} {D : Double F}.

Lemma unchanged_bind {A B : Type} (m : M F A) (k : A -> M F B) :
  (forall s, snd (m s) = s) -> (forall a s, snd (k a s) = s) ->
  forall s, snd (bind m k s) = s.
Proof.
  intros Hm Hk s. unfold bind. specialize (Hm s).
  destruct (m s) as [[a| |] s1]; simpl in *; auto.
  rewrite Hk. assumption.
Qed.

Lemma unchanged_for_each {A S : Type} (l : list A) (body : A -> S -> M F S) :
  (forall a acc s, snd (body a acc s) = s) ->
  forall acc s, snd (for_each l body acc s) = s.
Proof.
  intros Hb. induction l as [|a l IH]; intros acc s; simpl; [reflexivity|].
  apply unchanged_bind; auto.
Qed.

Lemma get_chain_mean_unchanged k n (s : store F) :
  snd (get_chain_mean k n s) = s.
Proof.
  unfold get_chain_mean.
  repeat (apply unchanged_bind; [reflexivity || idtac | intros]);
    try reflexivity.
  apply unchanged_for_each. intros ? ? ?.
  repeat (apply unchanged_bind; [reflexivity | intros]). reflexivity.
Qed.

(** X8: [get_chain_mean] leaves the whole store as it found it, and
    [get_kept_samples] changes at most the vector behind its out-parameter:
    it allocates and frees nothing and every other vector keeps its
    contents, on every snapshot and every outcome. *)
Theorem extraction_touches_only_out_vector :
  (forall (k n : Z) (s : store F), snd (get_chain_mean k n s) = s)
  /\ (forall (k n : Z) (p : loc) (s : store F),
        List.length (heap (snd (get_kept_samples k n p s)))
        = List.length (heap s)
        /\ forall q, q <> p ->
             nth_error (heap (snd (get_kept_samples k n p s))) q
             = nth_error (heap s) q).
Proof.
  split; [apply get_chain_mean_unchanged|].
  intros k n p s.
  pose proof (same_size_get_kept_samples k n p s) as Hl.
  split; [assumption|].
  intros q Hq.
  destruct (Nat.lt_ge_cases q (List.length (heap s))) as [Hlt|Hge].
  - destruct (frames_get_kept_samples (fun q => q <> p) k n p
                ltac:(intros H; now apply H) s) as [_ Hf].
    apply Hf; assumption.
  - transitivity (@None (list F)); [|symmetry]; apply nth_error_None; lia.
Qed.

Lemma autocovariance_size k n (s : store F) :
  List.length (heap (snd (autocovariance k n s)))
  = (List.length (heap s) + 2)%nat.
Proof.
  unfold autocovariance. rewrite !bind_new_vector.
  match goal with
  | |- List.length (heap (snd (?m ?s1))) = _ =>
      assert (Hs : same_size m); [|rewrite (Hs s1)]
  end.
  - apply same_size_bind; [apply same_size_get_kept_samples|intros _].
    apply same_size_bind; [|intros _; apply same_size_deref].
    unfold stan_autocovariance.
    apply same_size_bind; [apply same_size_deref|intros v].
    apply same_size_bind; [apply same_size_lift|intros a].
    apply same_size_assign.
  - simpl. rewrite !length_app. simpl. lia.
Qed.

(** X9: every call of [autocovariance] allocates two vectors with [new],
    [samples] and [acov], and releases neither: whatever the arguments and
    the outcome, the heap after the call is the heap before it, unchanged,
    followed by two vectors. *)
Theorem autocovariance_allocates_two_vectors (k n : Z) (s : store F) :
  exists a b, heap (snd (autocovariance k n s)) = heap s ++ [a; b].
Proof.
  pose proof (frames_extension (autocovariance k n) s
                (frames_autocovariance _ k n)) as E.
  destruct (length_two_more (skipn (List.length (heap s))
                               (heap (snd (autocovariance k n s)))))
    as (a & b & Hab).
  - rewrite length_skipn, autocovariance_size. lia.
  - exists a, b. now rewrite <- Hab.
Qed.

Lemma size_after_bind {A B : Type} (m : M F A) (k : A -> M F B) s :
  (forall a, same_size (k a)) ->
  List.length (heap (snd (bind m k s))) = List.length (heap (snd (m s))).
Proof.
  intros Hk. unfold bind. destruct (m s) as [[a| |] s1]; simpl; auto.
  apply Hk.
Qed.

Lemma same_size_split_one_chain n n_samples scm scv sa sc chain :
  same_size (F:=F) (split_one_chain n n_samples scm scv sa sc chain).
Proof.
  unfold split_one_chain, clear.
  repeat first
    [ apply same_size_get_kept_samples
    | apply same_size_push_back
    | apply same_size_deref
    | apply same_size_lift
    | apply same_size_assign
    | apply same_size_for_each; intros
    | apply same_size_bind; [|intros] ].
Qed.

Lemma split_halves_size n (s : store F) :
  List.length (heap (snd (split_halves n s)))
  = match header_outcome (snapshot s) with
    | Ok _ => (List.length (heap s) + 4)%nat
    | _ => List.length (heap s)
    end.
Proof.
  unfold header_outcome, header_converts, split_halves, kept_counts.
  repeat (rewrite bind_assoc || rewrite bind_py).
  rewrite bind_lift, to_uint_is_uint.
  destruct (is_uint (sim_chains (snapshot s))); simpl; [|reflexivity].
  repeat (rewrite bind_assoc || rewrite bind_py).
  rewrite bind_lift, to_uint_vector_is_uint.
  destruct (forallb is_uint (sim_n_save (snapshot s))); simpl; [|reflexivity].
  repeat (rewrite bind_assoc || rewrite bind_py).
  rewrite bind_lift, to_uint_vector_is_uint.
  destruct (forallb is_uint (sim_warmup2 (snapshot s))); simpl; [|reflexivity].
  repeat (rewrite bind_assoc || rewrite bind_py).
  rewrite bind_lift, to_uint_vector_is_uint.
  fold (n_kept (snapshot s)).
  destruct (forallb is_uint (n_kept (snapshot s))) eqn:Ek; simpl; [|reflexivity].
  rewrite bind_lift.
  destruct (n_kept (snapshot s)) as [|z l]; simpl; [reflexivity|].
  simpl in Ek. apply andb_true_iff in Ek as [Ez El].
  rewrite to_uint_is_uint, (fold_min_is_uint _ _ Ez El).
  rewrite !bind_new_vector.
  match goal with
  | |- List.length (heap (snd (?m ?s1))) = _ =>
      assert (Hs : same_size m); [|rewrite (Hs s1)]
  end.
  - apply same_size_bind; [|intros; apply same_size_ret].
    apply same_size_for_each. intros. apply same_size_split_one_chain.
  - simpl. rewrite !length_app. simpl. lia.
Qed.

Lemma split_potential_scale_reduction_size `{Sqrt F} n (s : store F) :
  List.length (heap (snd (split_potential_scale_reduction n s)))
  = List.length (heap (snd (split_halves n s))).
Proof.
  unfold split_potential_scale_reduction. apply size_after_bind. intros hv.
  unfold split_variances.
  repeat first
    [ apply same_size_deref
    | apply same_size_lift
    | apply same_size_ret
    | apply same_size_bind; [|intros] ].
Qed.

(** X10: neither entry point writes to, or frees, a vector that was
    allocated before the call, whatever the snapshot and the outcome: the
    heap after [effective_sample_size] is the heap before it followed by
    the vectors the call allocated, none of which it releases; after
    [split_potential_scale_reduction] it is followed by the four vectors of
    lines 188-192 when the conversions of lines 175-183 succeed and [min]
    has an argument that is not empty, and by nothing otherwise. *)
Theorem entry_points_leave_allocated_vectors `{Sqrt F} :
  (forall (n : Z) (s : store F),
     exists l, heap (snd (effective_sample_size n s)) = heap s ++ l)
  /\ (forall (n : Z) (s : store F),
        if header_converts (snapshot s)
           && negb (Nat.eqb (List.length (n_kept (snapshot s))) 0)
        then exists a b c d,
               heap (snd (split_potential_scale_reduction n s))
               = heap s ++ [a; b; c; d]
        else heap (snd (split_potential_scale_reduction n s)) = heap s).
Proof.
  split; intros n s.
  - eexists. apply frames_extension. apply frames_effective_sample_size.
  - pose proof (frames_extension (split_potential_scale_reduction n) s
                  (frames_split_potential_scale_reduction _ n)) as E.
    pose proof (split_potential_scale_reduction_size n s) as Hl.
    rewrite split_halves_size in Hl. unfold header_outcome in Hl.
    destruct (header_converts (snapshot s)); simpl in *.
    + destruct (n_kept (snapshot s)) as [|z l]; simpl in *.
      * rewrite E, skipn_all2 by lia. now rewrite app_nil_r.
      * destruct (length_four_more
                    (skipn (List.length (heap s))
                       (heap (snd (split_potential_scale_reduction n s)))))
          as (a & b & c & d & Habcd).
        -- rewrite length_skipn, Hl. lia.
        -- exists a, b, c, d. now rewrite <- Habcd.
    + rewrite E, skipn_all2 by lia. now rewrite app_nil_r.
Qed.
End HeapAfter.

(** ** The range of the effective sample size *)

Section EssRange.
Local Open Scope Q_scope.

(** X11: in exact arithmetic, on a well-formed snapshot with at least two
    kept draws per chain and a product [m * N] that fits a C unsigned int,
    [effective_sample_size] raises [ZeroDivisionError] or returns a value
    in the interval (0, m * N]: every accumulated [rho_hat] passed the test
    [rho_hat >= 0], so the divisor [1 + 2 * sum(rho_hat_t)] is at least
    1. *)
Theorem effective_sample_size_is_at_most_the_number_of_draws
    (sim : Sim Q) (n : Z) (h : list (list Q)) :
  well_formed sim n = true ->
  (2 <= common_length sim)%Z ->
  (sim_chains sim * common_length sim < UINT_MAX1)%Z ->
  fst (effective_sample_size n (mkStore sim h)) = Raise ZeroDivisionError
  \/ exists e,
       fst (effective_sample_size n (mkStore sim h)) = Ok e
       /\ 0 < e /\ e <= inject_Z (sim_chains sim * common_length sim).
Proof.
  intros WF Hmin Hmul.
  rewrite (returns_fst sim _ _ h (returns_effective_sample_size sim n WF Hmin)).
  destruct (is_zero (spec_var_plus sim n)); [left; reflexivity|right].
  destruct (well_formed_inv sim n WF) as (Hm & _).
  unfold ess_result. simpl mo_m. simpl mo_n_samples.
  rewrite uint_mul_small by nia.
  assert (Htot : 0 < inject_Z (sim_chains sim * common_length sim)).
  { change 0 with (inject_Z 0). rewrite <- Zlt_Qlt. nia. }
  assert (Hs : 0 <= stan.sum (spec_rho_hat_t sim n)).
  { apply sum_nonneg. intros x Hx.
    apply take_while_all in Hx. now apply Qle_bool_iff. }
  destruct (0 <? Z.of_nat (List.length (spec_rho_hat_t sim n)))%Z.
  - set (S := stan.sum _) in *.
    set (T := inject_Z (sim_chains sim * common_length sim)) in *.
    assert (Hd : 0 < 1 + 2 * S) by lra.
    exists (T / (1 + 2 * S)). split; [|split].
    + rewrite cdiv_Ok; [reflexivity|].
      apply is_zero_false_of_pos. exact_ops. exact Hd.
    + apply Qlt_shift_div_l; [assumption|]. lra.
    + apply Qle_shift_div_r; [assumption|]. nra.
  - eexists. split; [reflexivity|]. exact_ops. split; [assumption|lra].
Qed.
End EssRange.

Lemma effective_sample_size_is_at_most_the_number_of_draws_witness :
  fst (effective_sample_size 0 (mkStore sim_three_chains []))
  = Raise ZeroDivisionError
  \/ exists e,
       fst (effective_sample_size 0 (mkStore sim_three_chains [])) = Ok e
       /\ (0 < e)%Q
       /\ (e <= inject_Z (sim_chains sim_three_chains
                          * common_length sim_three_chains))%Q.
Proof.
  apply (effective_sample_size_is_at_most_the_number_of_draws
           sim_three_chains 0 []).
  - reflexivity.
  - vm_compute. discriminate.
  - reflexivity.
Defined.

(** ** The estimates depend on the kept draws only *)

Section SameKept.
Context {F : Type} {D : Double F}.
Variables sim sim' : Sim F.
Variables n n' : Z.
Hypothesis WF : well_formed sim n = true.
Hypothesis WF' : well_formed sim' n' = true.
Hypothesis Hm : sim_chains sim = sim_chains sim'.

Lemma n_kept_as_lengths (s : Sim F) (j : Z) :
  well_formed s j = true ->
  n_kept s
  = map (fun k => Z.of_nat (List.length (spec_kept s j k)))
        (py_range 0 (sim_chains s)).
Proof.
  intros W. pose proof (n_kept_length s j W) as Hl.
  apply (nth_ext _ _ 0 0).
  - rewrite length_map, py_range_length. lia.
  - intros i Hi.
    destruct (chain_facts s j W (Z.of_nat i) ltac:(lia))
      as (nv & w & _ & _ & _ & _ & _ & Hlen & _).
    transitivity (spec_n_kept s (Z.of_nat i)).
    + unfold spec_n_kept. now rewrite Nat2Z.id.
    + rewrite <- Hlen. symmetry. unfold py_range. rewrite map_map.
      set (g := fun x => Z.of_nat (List.length (spec_kept s j (0 + Z.of_nat x)))).
      rewrite (nth_indep _ 0 (g 0%nat)) by (rewrite length_map, length_seq; lia).
      rewrite (map_nth g). rewrite seq_nth by lia. reflexivity.
Qed.

Section FullChains.
Hypothesis Hk :
  forall k, 0 <= k < sim_chains sim -> spec_kept sim n k = spec_kept sim' n' k.

Lemma same_n_kept : n_kept sim = n_kept sim'.
Proof.
  rewrite (n_kept_as_lengths sim n WF), (n_kept_as_lengths sim' n' WF'), <- Hm.
  apply map_ext_in. intros k Hin. apply py_range_In in Hin.
  now rewrite Hk.
Qed.

Lemma same_common_length : common_length sim = common_length sim'.
Proof. unfold common_length. now rewrite same_n_kept. Qed.

Lemma same_spec_chains : spec_chains sim = spec_chains sim'.
Proof. unfold spec_chains. now rewrite Hm. Qed.

Lemma same_spec_acov k :
  0 <= k < sim_chains sim -> spec_acov sim n k = spec_acov sim' n' k.
Proof. intros H. unfold spec_acov. now rewrite Hk. Qed.

Lemma same_spec_chain_mean k :
  0 <= k < sim_chains sim -> spec_chain_mean sim n k = spec_chain_mean sim' n' k.
Proof. intros H. unfold spec_chain_mean. now rewrite Hk. Qed.

Lemma same_spec_chain_var k :
  0 <= k < sim_chains sim -> spec_chain_var sim n k = spec_chain_var sim' n' k.
Proof.
  intros H. unfold spec_chain_var, spec_n_kept.
  now rewrite same_spec_acov, same_n_kept.
Qed.

Lemma map_spec_chains {B : Type} (f g : Z -> B) :
  (forall k, 0 <= k < sim_chains sim -> f k = g k) ->
  map f (spec_chains sim) = map g (spec_chains sim').
Proof.
  intros H. rewrite <- same_spec_chains. apply map_ext_in.
  intros k Hin. apply py_range_In in Hin. auto.
Qed.

Lemma same_spec_mean_var : spec_mean_var sim n = spec_mean_var sim' n'.
Proof.
  unfold spec_mean_var. f_equal. apply map_spec_chains, same_spec_chain_var.
Qed.

Lemma same_spec_var_plus : spec_var_plus sim n = spec_var_plus sim' n'.
Proof.
  unfold spec_var_plus.
  rewrite same_spec_mean_var, same_common_length, Hm.
  now rewrite (map_spec_chains _ _ same_spec_chain_mean).
Qed.

Lemma same_spec_rho_hat t : spec_rho_hat sim n t = spec_rho_hat sim' n' t.
Proof.
  unfold spec_rho_hat, spec_mean_acov.
  rewrite same_spec_mean_var, same_spec_var_plus. do 3 f_equal.
  unfold stan.mean_of. rewrite (map_spec_chains _ (fun k => nth (Z.to_nat t) (spec_acov sim' n' k) (of_Z 0))); [reflexivity|]. intros k H. now rewrite same_spec_acov.
Qed.

Lemma same_spec_rho_hat_t : spec_rho_hat_t sim n = spec_rho_hat_t sim' n'.
Proof.
  unfold spec_rho_hat_t. rewrite same_common_length. f_equal.
  apply map_ext. intros t. apply same_spec_rho_hat.
Qed.

Lemma same_spec_moments : spec_moments sim n = spec_moments sim' n'.
Proof.
  unfold spec_moments.
  rewrite Hm, same_common_length, same_spec_mean_var, same_spec_var_plus.
  now rewrite (map_spec_chains _ _ same_spec_acov).
Qed.

Lemma same_effective_sample_size `{!ExactConversion F} (h h' : list (list F)) :
  fst (effective_sample_size n (mkStore sim h))
  = fst (effective_sample_size n' (mkStore sim' h')).
Proof.
  destruct (Z.lt_ge_cases (common_length sim) 2) as [Hlt|Hge].
  - rewrite (returns_fst sim _ _ h
               (returns_effective_sample_size_Undefined sim n WF Hlt)).
    rewrite same_common_length in Hlt.
    now rewrite (returns_fst sim' _ _ h'
                   (returns_effective_sample_size_Undefined sim' n' WF' Hlt)).
  - rewrite (returns_fst sim _ _ h
               (returns_effective_sample_size sim n WF ltac:(lia))).
    rewrite same_common_length in Hge.
    rewrite (returns_fst sim' _ _ h'
               (returns_effective_sample_size sim' n' WF' ltac:(lia))).
    now rewrite same_spec_var_plus, same_spec_moments, same_spec_rho_hat_t.
Qed.
End FullChains.

Lemma firstn_firstn_le {A : Type} (i j : nat) (l : list A) :
  (i <= j)%nat -> firstn i (firstn j l) = firstn i l.
Proof. intros H. rewrite firstn_firstn. f_equal. lia. Qed.

Lemma second_half_of_prefix {A : Type} (a b : nat) (l : list A) :
  firstn b (skipn a (firstn (a + b) l)) = firstn b (skipn a l).
Proof.
  revert l. induction a as [|a IH]; intros l.
  - simpl skipn. apply firstn_firstn_le. lia.
  - destruct l as [|x l]; simpl; [reflexivity|]. apply IH.
Qed.

(** One pass of the loop reads the first [L] kept draws of the chain. *)
Lemma split_step_prefix (L : Z) (kept_of : Z -> list F) st k :
  0 <= L ->
  split_step L (fun j => firstn (Z.to_nat L) (kept_of j)) st k
  = split_step L kept_of st k.
Proof.
  intros HL. unfold split_step. destruct st as [[means vars] carry].
  assert (H2 : 0 <= L / 2 <= L).
  { split; [apply Z.div_pos; lia|]. apply Z.div_le_upper_bound; lia. }
  assert (HLab : Z.to_nat L = (Z.to_nat (L / 2) + Z.to_nat (L - L / 2))%nat)
    by lia.
  rewrite HLab. rewrite firstn_firstn_le by lia.
  now rewrite second_half_of_prefix.
Qed.

Lemma same_split_potential_scale_reduction `{Sqrt F} (h h' : list (list F)) :
  even_length (common_length sim) = even_length (common_length sim') ->
  (forall k, 0 <= k < sim_chains sim ->
     firstn (Z.to_nat (even_length (common_length sim))) (spec_kept sim n k)
     = firstn (Z.to_nat (even_length (common_length sim))) (spec_kept sim' n' k)) ->
  fst (split_potential_scale_reduction n (mkStore sim h))
  = fst (split_potential_scale_reduction n' (mkStore sim' h')).
Proof.
  intros HL Hk.
  rewrite (split_potential_scale_reduction_run sim n WF h).
  rewrite (split_potential_scale_reduction_run sim' n' WF' h').
  rewrite <- HL. f_equal. unfold spec_chains. rewrite <- Hm.
  pose proof (even_length_bounds (common_length sim)
                ltac:(pose proof (common_length_uint sim n WF); lia)) as Hb.
  apply fold_res_ext. intros k st Hin. apply py_range_In in Hin.
  rewrite <- (split_step_prefix _ (spec_kept sim n)) by lia.
  rewrite <- (split_step_prefix _ (spec_kept sim' n')) by lia.
  unfold split_step. destruct st as [[means vars] carry].
  now rewrite Hk.
Qed.
End SameKept.

(** X12: [effective_sample_size] depends on a well-formed snapshot through
    the chain count and the kept draws of the parameter only: two
    snapshots with the same number of chains and, chain by chain, the same
    kept draws give the same outcome, whatever their warmup draws, their
    warmup lengths, the other parameters and the vectors of the heap. *)
Theorem effective_sample_size_reads_kept_draws_only
    {F : Type} {D : Double F} {E : ExactConversion F}
    (sim sim' : Sim F) (n n' : Z) (h h' : list (list F)) :
  well_formed sim n = true ->
  well_formed sim' n' = true ->
  sim_chains sim = sim_chains sim' ->
  (forall k, 0 <= k < sim_chains sim ->
     spec_kept sim n k = spec_kept sim' n' k) ->
  fst (effective_sample_size n (mkStore sim h))
  = fst (effective_sample_size n' (mkStore sim' h')).
Proof.
  intros WF WF' Hm Hk. now apply same_effective_sample_size.
Qed.

Lemma effective_sample_size_reads_kept_draws_only_witness :
  fst (effective_sample_size 0 (mkStore sim_123 []))
  = fst (effective_sample_size 1 (mkStore sim_rewarmed [[7]%Q])).
Proof.
  apply (effective_sample_size_reads_kept_draws_only
           sim_123 sim_rewarmed 0 1 [] [[7]%Q]).
  - reflexivity.
  - reflexivity.
  - reflexivity.
  - intros k Hk. assert (k = 0) as -> by (simpl in Hk; lia). reflexivity.
Defined.

(** X13: [split_potential_scale_reduction] reads the first [L] kept draws
    of every chain and nothing else, [L] being the common length made
    even: two well-formed snapshots with the same number of chains, the
    same [L] and, chain by chain, the same first [L] kept draws give the
    same outcome.  The surplus draws of the longer chains, the warmup
    draws and the other parameters do not count. *)
Theorem split_potential_scale_reduction_reads_first_draws_only
    {F : Type} {D : Double F} {S : Sqrt F}
    (sim sim' : Sim F) (n n' : Z) (h h' : list (list F)) :
  well_formed sim n = true ->
  well_formed sim' n' = true ->
  sim_chains sim = sim_chains sim' ->
  even_length (common_length sim) = even_length (common_length sim') ->
  (forall k, 0 <= k < sim_chains sim ->
     firstn (Z.to_nat (even_length (common_length sim))) (spec_kept sim n k)
     = firstn (Z.to_nat (even_length (common_length sim))) (spec_kept sim' n' k)) ->
  fst (split_potential_scale_reduction n (mkStore sim h))
  = fst (split_potential_scale_reduction n' (mkStore sim' h')).
Proof.
  intros WF WF' Hm HL Hk. now apply same_split_potential_scale_reduction.
Qed.

Lemma split_potential_scale_reduction_reads_first_draws_only_witness :
  fst (split_potential_scale_reduction 0 (mkStore sim_7draws []))
  = fst (split_potential_scale_reduction 0 (mkStore sim_6kept [[7]%float])).
Proof.
  apply (split_potential_scale_reduction_reads_first_draws_only
           sim_7draws sim_6kept 0 0 [] [[7]%float]).
  - reflexivity.
  - reflexivity.
  - reflexivity.
  - reflexivity.
  - intros k Hk. assert (k = 0) as -> by (simpl in Hk; lia). reflexivity.
Defined.



(** ** The outcomes on valid input *)

Section ValidInput.
Context {F : Type} {D : Double F}.

Lemma cdiv_cases (x y : F) :
  (exists q, cdiv x y = Ok q) \/ cdiv x y = Raise ZeroDivisionError.
Proof. unfold cdiv. destruct (is_zero y); eauto. Qed.

Lemma half_stats_Ok (x : list F) :
  (2 <= List.length x)%nat ->
  half_stats x = Ok (stan.mean_of x, stan.variance_of x).
Proof.
  intros H. unfold half_stats.
  rewrite stan_mean_Ok by lia. simpl.
  rewrite stan_variance_Ok by lia. reflexivity.
Qed.

(** The loop over chains completes when every half has two draws, and
    pushes two means and two variances per chain. *)
Lemma fold_res_split_Ok (L : Z) (kept_of : Z -> list F) (l : list Z) :
  4 <= L ->
  (forall k, In k l -> L <= Z.of_nat (List.length (kept_of k))) ->
  forall means vars carry,
  exists ms vs carry',
    fold_res (split_step L kept_of) l (means, vars, carry)
    = Ok (means ++ ms, vars ++ vs, carry')
    /\ List.length ms = (2 * List.length l)%nat
    /\ List.length vs = (2 * List.length l)%nat.
Proof.
  intros HL. induction l as [|k l IH]; intros Hlen means vars carry.
  - exists [], [], carry. simpl. now rewrite !app_nil_r.
  - assert (H2 : 2 <= L / 2 <= L).
    { split; [apply Z.div_le_lower_bound; lia|].
      apply Z.div_le_upper_bound; lia. }
    pose proof (Z.mul_div_le L 2 ltac:(lia)) as H3.
    pose proof (Hlen k (or_introl eq_refl)) as Hk.
    simpl fold_res. unfold split_step at 1. cbv zeta.
    rewrite half_stats_Ok by (rewrite length_app, length_firstn; lia).
    simpl res_bind.
    rewrite half_stats_Ok by (rewrite length_firstn, length_skipn; lia).
    simpl res_bind.
    destruct (IH (fun j Hj => Hlen j (or_intror Hj))
                (means ++ [stan.mean_of (carry ++ firstn (Z.to_nat (L / 2)) (kept_of k));
                           stan.mean_of (firstn (Z.to_nat (L - L / 2))
                                           (skipn (Z.to_nat (L / 2)) (kept_of k)))])
                (vars ++ [stan.variance_of (carry ++ firstn (Z.to_nat (L / 2)) (kept_of k));
                          stan.variance_of (firstn (Z.to_nat (L - L / 2))
                                              (skipn (Z.to_nat (L / 2)) (kept_of k)))])
                (firstn (Z.to_nat (L - L / 2)) (skipn (Z.to_nat (L / 2)) (kept_of k))))
      as (ms & vs & carry' & E & Hms & Hvs).
    simpl fst. simpl snd. rewrite E.
    do 3 eexists. rewrite <- !app_assoc. split; [reflexivity|].
    simpl. lia.
Qed.

(** X15: on a well-formed snapshot with at least two kept draws per chain,
    [effective_sample_size] returns a number or raises
    [ZeroDivisionError]; no lookup fails, no conversion overflows and no
    external primitive is called outside its contract. *)
Theorem effective_sample_size_valid_input_outcomes `{!ExactConversion F}
    (sim : Sim F) (n : Z) (h : list (list F)) :
  well_formed sim n = true ->
  2 <= common_length sim ->
  (exists e, fst (effective_sample_size n (mkStore sim h)) = Ok e)
  \/ fst (effective_sample_size n (mkStore sim h)) = Raise ZeroDivisionError.
Proof.
  intros WF Hmin.
  rewrite (returns_fst sim _ _ h (returns_effective_sample_size sim n WF Hmin)).
  destruct (is_zero (spec_var_plus sim n)); [right; reflexivity|].
  unfold ess_result.
  destruct (0 <? Z.of_nat (List.length (spec_rho_hat_t sim n)));
    [apply cdiv_cases | eauto].
Qed.

(** X16: on a well-formed snapshot with at least four kept draws per
    chain, [split_potential_scale_reduction] returns a number or raises
    [ZeroDivisionError]: every pseudo-chain it forms has two draws or more,
    and it pushes two means and two variances per chain. *)
Theorem split_potential_scale_reduction_valid_input_outcomes `{Sqrt F}
    (sim : Sim F) (n : Z) (h : list (list F)) :
  well_formed sim n = true ->
  4 <= common_length sim ->
  ((exists r, fst (split_potential_scale_reduction n (mkStore sim h)) = Ok r)
   \/ fst (split_potential_scale_reduction n (mkStore sim h))
      = Raise ZeroDivisionError)
  /\ exists hv s' means vars,
       split_halves n (mkStore sim h) = (Ok hv, s')
       /\ deref (ha_split_chain_mean hv) s' = (Ok means, s')
       /\ deref (ha_split_chain_var hv) s' = (Ok vars, s')
       /\ Z.of_nat (List.length means) = 2 * sim_chains sim
       /\ Z.of_nat (List.length vars) = 2 * sim_chains sim.
Proof.
  intros WF Hmin.
  destruct (well_formed_inv sim n WF) as (Hm & _).
  set (L := even_length (common_length sim)).
  assert (HL : 4 <= L).
  { unfold L, even_length.
    destruct (Z.eqb_spec (common_length sim mod 2) 1) as [E|E]; [|lia].
    assert (common_length sim <> 4) by (intros E4; rewrite E4 in E; discriminate).
    lia. }
  pose proof (even_length_bounds (common_length sim) ltac:(lia)) as HLb.
  fold L in HLb.
  destruct (fold_res_split_Ok L (spec_kept sim n) (spec_chains sim) HL)
    with (means := @nil F) (vars := @nil F) (carry := @nil F)
    as (ms & vs & carry' & E & Hms & Hvs).
  { intros k Hin. apply py_range_In in Hin.
    pose proof (common_length_le sim n WF k Hin).
    destruct (chain_facts sim n WF k Hin)
      as (nv & w & _ & _ & _ & _ & _ & Hlen & _).
    lia. }
  simpl app in E.
  assert (Hc : List.length (spec_chains sim) = Z.to_nat (sim_chains sim)).
  { unfold spec_chains. rewrite py_range_length. f_equal. lia. }
  split.
  - rewrite (split_potential_scale_reduction_run sim n WF h).
    fold L. rewrite E. unfold split_outcome. simpl res_bind.
    rewrite stan_variance_Ok by lia. simpl res_bind.
    rewrite stan_mean_Ok by lia. simpl res_bind.
    unfold srhat_of.
    destruct (cdiv_cases (fmul (of_Z (L / 2)) (stan.variance_of ms))
                (stan.mean_of vs)) as [(q & ->)| ->]; [|auto].
    simpl res_bind.
    destruct (cdiv_cases (fsub (fadd q (of_Z (L / 2))) (of_Z 1))
                (of_Z (L / 2))) as [(r & ->)| ->]; simpl; eauto.
  - destruct (split_halves_run sim n WF h) as (s' & Hrun & _ & Hs').
    cbv zeta in Hrun, Hs'. fold L in Hrun, Hs'. rewrite E in Hrun.
    simpl res_bind in Hrun.
    destruct (Hs' _ _ _ E) as (smp & ->).
    exists (mkHalves L (List.length h) (List.length h + 1)%nat).
    eexists. exists ms, vs.
    split; [exact Hrun|]. simpl ha_split_chain_mean. simpl ha_split_chain_var.
    split; [|split; [|split; lia]].
    + apply deref_run. unfold split_store. simpl heap.
      rewrite nth_error_app2 by lia. now rewrite Nat.sub_diag.
    + apply deref_run. unfold split_store. simpl heap.
      now rewrite (nth_error_app_len h _ 1).
Qed.
End ValidInput.

Lemma effective_sample_size_valid_input_outcomes_witness :
  (exists e, fst (effective_sample_size 0 (mkStore sim_three_chains [])) = Ok e)
  \/ fst (effective_sample_size 0 (mkStore sim_three_chains []))
     = Raise ZeroDivisionError.
Proof.
  apply (effective_sample_size_valid_input_outcomes sim_three_chains 0 []).
  - reflexivity.
  - vm_compute. discriminate.
Defined.

Lemma split_potential_scale_reduction_valid_input_outcomes_witness :
  ((exists r,
      fst (split_potential_scale_reduction 0 (mkStore sim_two_chains [])) = Ok r)
   \/ fst (split_potential_scale_reduction 0 (mkStore sim_two_chains []))
      = Raise ZeroDivisionError)
  /\ exists hv s' means vars,
       split_halves 0 (mkStore sim_two_chains []) = (Ok hv, s')
       /\ deref (ha_split_chain_mean hv) s' = (Ok means, s')
       /\ deref (ha_split_chain_var hv) s' = (Ok vars, s')
       /\ Z.of_nat (List.length means) = 2 * sim_chains sim_two_chains
       /\ Z.of_nat (List.length vars) = 2 * sim_chains sim_two_chains.
Proof.
  apply (split_potential_scale_reduction_valid_input_outcomes
           sim_two_chains 0 []).
  - reflexivity.
  - vm_compute. discriminate.
Defined.

(** ** The vectors a call of [effective_sample_size] leaves allocated *)

Section Allocations.
Context {F : Type} {D : Double F}.
Variable sim : Sim F.

Lemma allocates_of_returns {A : Type} (m : M F A) r :
  returns sim m r -> same_size m -> allocates sim m r 0.
Proof.
  intros Hr Hs s Hsim. destruct (Hr s Hsim) as (s' & E & Hs').
  exists s'. repeat split; auto.
  pose proof (Hs s) as Hl. rewrite E in Hl. simpl in Hl. lia.
Qed.

Lemma allocates_bind {A B : Type} (m : M F A) (k : A -> M F B) a r d1 d2 :
  allocates sim m (Ok a) d1 -> allocates sim (k a) r d2 ->
  allocates sim (bind m k) r (d1 + d2).
Proof.
  intros Hm Hk s Hs. destruct (Hm s Hs) as (s1 & E1 & Hs1 & Hl1).
  destruct (Hk s1 Hs1) as (s2 & E2 & Hs2 & Hl2).
  exists s2. rewrite (bind_Ok _ _ _ _ _ E1). repeat split; auto. lia.
Qed.

Lemma allocates_eq {A : Type} (m : M F A) r r' d d' :
  allocates sim m r d -> r = r' -> d = d' -> allocates sim m r' d'.
Proof. now intros H <- <-. Qed.

Lemma allocates_for_each {A S : Type} (l : list A) (body : A -> S -> M F S)
    (step : S -> A -> S) d :
  (forall a acc, In a l -> allocates sim (body a acc) (Ok (step acc a)) d) ->
  forall acc,
    allocates sim (for_each l body acc) (Ok (fold_left step l acc))
      (d * List.length l).
Proof.
  induction l as [|a l IH]; intros Hb acc; simpl.
  - intros s Hs. exists s. rewrite Nat.mul_0_r. repeat split; auto.
  - eapply allocates_eq.
    + eapply allocates_bind; [apply Hb; now left|].
      apply IH. intros; apply Hb; now right.
    + reflexivity.
    + lia.
Qed.

Lemma rho_hat_at_size mo t (s : store F) :
  List.length (heap (snd (rho_hat_at mo t s))) = (List.length (heap s) + 1)%nat.
Proof.
  unfold rho_hat_at. rewrite bind_new_vector.
  match goal with
  | |- List.length (heap (snd (?m ?s1))) = _ =>
      assert (Hs : same_size m); [|rewrite (Hs s1)]
  end.
  - repeat first
      [ apply same_size_store_at
      | apply same_size_deref
      | apply same_size_lift
      | apply same_size_ret
      | apply same_size_for_each; intros
      | apply same_size_bind; [|intros] ].
  - simpl. rewrite length_app. simpl. lia.
Qed.

Variable n : Z.
Hypothesis WF : well_formed sim n = true.

Lemma allocates_autocovariance k :
  0 <= k < sim_chains sim ->
  allocates sim (autocovariance k n) (stan.autocovariance (spec_kept sim n k)) 2.
Proof.
  intros Hk s Hs.
  destruct (returns_autocovariance sim n WF k Hk s Hs) as (s' & E & Hs').
  exists s'. repeat split; auto.
  pose proof (autocovariance_size k n s) as Hl. now rewrite E in Hl.
Qed.

Lemma rho_scan_stops mo ts rho acc (s : store F) :
  ge_zero rho = false -> rho_scan mo ts rho acc s = (Ok acc, s).
Proof. intros H. destruct ts; simpl; [|rewrite H]; reflexivity. Qed.

Lemma allocates_rho_scan ts :
  is_zero (spec_var_plus sim n) = false ->
  (forall t, In t ts -> 0 <= t < common_length sim) ->
  forall rho acc,
    ge_zero rho = true ->
    allocates sim (rho_scan (spec_moments sim n) ts rho acc)
      (Ok (acc ++ take_while ge_zero (map (spec_rho_hat sim n) ts)))
      (Nat.min (List.length ts)
         (List.length (take_while ge_zero (map (spec_rho_hat sim n) ts)) + 1)).
Proof.
  intros Hv. induction ts as [|t ts IH]; intros Hts rho acc Hrho.
  - simpl. intros s Hs. exists s. rewrite app_nil_r. repeat split; auto.
  - simpl rho_scan. rewrite Hrho.
    assert (Hat : allocates sim (rho_hat_at (spec_moments sim n) t)
                    (Ok (spec_rho_hat sim n t)) 1).
    { intros s Hs.
      destruct (returns_rho_hat_at sim n WF t (Hts t (or_introl eq_refl)) s Hs)
        as (s' & E & Hs').
      rewrite cdiv_Ok in E by assumption. simpl in E.
      exists s'. repeat split; auto.
      pose proof (rho_hat_at_size (spec_moments sim n) t s) as Hl.
      now rewrite E in Hl. }
    simpl map. simpl take_while.
    destruct (ge_zero (spec_rho_hat sim n t)) eqn:Ht.
    + eapply allocates_eq.
      * eapply allocates_bind; [exact Hat|].
        apply IH; [|exact Ht]. intros; apply Hts; now right.
      * cbv beta. rewrite Ht, <- app_assoc. reflexivity.
      * simpl. lia.
    + eapply allocates_eq.
      * eapply allocates_bind; [exact Hat|].
        intros s Hs. exists s. rewrite rho_scan_stops by assumption.
        repeat split; auto.
      * cbv beta. now rewrite Ht, app_nil_r.
      * simpl. lia.
Qed.

Hypothesis Hmin : 2 <= common_length sim.

Lemma allocates_ess_moments `{!ExactConversion F} :
  allocates sim (ess_moments n) (Ok (spec_moments sim n))
    (2 * Z.to_nat (sim_chains sim)).
Proof.
  destruct (well_formed_inv sim n WF) as (Hm & _).
  intros s Hs.
  destruct (returns_ess_moments sim n WF Hmin s Hs) as (s' & E & Hs').
  exists s'. repeat split; auto.
  cut (List.length (heap (snd (ess_moments n s)))
       = (List.length (heap s) + 2 * Z.to_nat (sim_chains sim))%nat);
    [now rewrite E|].
  clear E Hs' s'. unfold ess_moments.
  destruct (returns_chain_count sim n WF s Hs) as (s1 & E1 & Hs1).
  assert (Hl1 : List.length (heap s1) = List.length (heap s)).
  { assert (Hss : same_size (F:=F) (c <- py sim_chains ;; lift (to_uint c))).
    { apply same_size_bind; [apply same_size_py|intros; apply same_size_lift]. }
    specialize (Hss s). now rewrite E1 in Hss. }
  rewrite (bind_Ok _ _ _ _ _ E1).
  rewrite bind_Ok with (a := sim_n_save sim) (s' := s1).
  2:{ rewrite bind_py, Hs1. unfold lift.
      now rewrite (to_uint_vector_Ok _ (sim_n_save_uint sim n WF)). }
  rewrite bind_Ok with (a := sim_warmup2 sim) (s' := s1).
  2:{ rewrite bind_py, Hs1. unfold lift.
      now rewrite (to_uint_vector_Ok _ (sim_warmup2_uint sim n WF)). }
  destruct (returns_kept_counts sim n WF s1 Hs1) as (s2 & E2 & Hs2).
  assert (Hl2 : List.length (heap s2) = List.length (heap s1)).
  { assert (Hss : same_size (F:=F) kept_counts).
    { unfold kept_counts.
      repeat (apply same_size_bind; [apply same_size_py|intros]).
      apply same_size_lift. }
    specialize (Hss s1). now rewrite E2 in Hss. }
  rewrite (bind_Ok _ _ _ _ _ E2).
  destruct (returns_n_samples sim n WF s2 Hs2) as (s3 & E3 & Hs3).
  assert (s3 = s2) as -> by (unfold lift in E3; now inversion E3).
  rewrite (bind_Ok _ _ _ _ _ E3).
  rewrite size_after_bind.
  - destruct (allocates_for_each (py_range 0 (sim_chains sim))
                (fun chain acov =>
                   acov_chain <- autocovariance chain n ;;
                   ret (acov ++ [acov_chain]))
                (fun acc k => acc ++ [spec_acov sim n k]) 2) with (acc := @nil (list F)) (s := s2)
      as (s4 & E4 & _ & Hl4); [|assumption|].
    + intros k acc Hk. apply py_range_In in Hk.
      eapply allocates_eq.
      * eapply allocates_bind.
        -- eapply allocates_eq; [apply (allocates_autocovariance k Hk)| |reflexivity].
           apply stan_autocovariance_Ok, spec_kept_length; assumption.
        -- apply allocates_of_returns; [apply returns_ret | apply same_size_ret].
      * reflexivity.
      * reflexivity.
    + rewrite E4. simpl. rewrite Hl4, py_range_length. lia.
  - intros acov.
    apply same_size_bind.
    + apply same_size_for_each. intros chain [cm cv].
      repeat first
        [ apply same_size_get_chain_mean
        | apply same_size_lift
        | apply same_size_ret
        | apply same_size_bind; [|intros] ].
    + intros [cm cv].
      repeat first
        [ apply same_size_lift
        | apply same_size_ret
        | apply same_size_bind; [|intros] ].
      destruct (1 <? sim_chains sim);
      repeat first
        [ apply same_size_lift
        | apply same_size_ret
        | apply same_size_bind; [|intros] ].
Qed.
End Allocations.

(** X17: a call of [effective_sample_size] that returns leaves behind
    every vector it allocated with [new]: two per chain, from
    [autocovariance], and one per pass of the [while] loop, that is one
    per accumulated [rho_hat] plus one for the pass that found a negative
    value, [n_samples] at most.  The vectors that were allocated before
    the call are unchanged. *)
Theorem effective_sample_size_allocations
    {F : Type} {D : Double F} {E : ExactConversion F}
    (sim : Sim F) (n : Z) (h : list (list F)) (e : F) :
  well_formed sim n = true ->
  2 <= common_length sim ->
  fst (effective_sample_size n (mkStore sim h)) = Ok e ->
  exists mo s1 rho_hat_t s2 l,
    ess_moments n (mkStore sim h) = (Ok mo, s1)
    /\ ess_rho_hat_t mo s1 = (Ok rho_hat_t, s2)
    /\ heap (snd (effective_sample_size n (mkStore sim h))) = h ++ l
    /\ Z.of_nat (List.length l)
       = 2 * mo_m mo
         + Z.min (mo_n_samples mo) (Z.of_nat (List.length rho_hat_t) + 1).
Proof.
  intros WF Hmin He.
  destruct (well_formed_inv sim n WF) as (Hm & _).
  assert (Hv : is_zero (spec_var_plus sim n) = false).
  { rewrite (returns_fst sim _ _ h
               (returns_effective_sample_size sim n WF Hmin)) in He.
    destruct (is_zero (spec_var_plus sim n)); [discriminate|reflexivity]. }
  destruct (allocates_ess_moments sim n WF Hmin (mkStore sim h) eq_refl)
    as (s1 & E1 & Hs1 & Hl1).
  destruct (allocates_rho_scan sim n WF (py_range 0 (common_length sim)) Hv
              (fun t Ht => proj1 (py_range_In 0 (common_length sim) t) Ht)
              (of_Z 0) [] ge_zero_0 s1 Hs1)
    as (s2 & E2 & Hs2 & Hl2).
  simpl app in E2. fold (spec_rho_hat_t sim n) in E2, Hl2.
  exists (spec_moments sim n), s1, (spec_rho_hat_t sim n), s2.
  exists (skipn (List.length h) (heap s2)).
  assert (Hsnd : snd (effective_sample_size n (mkStore sim h)) = s2).
  { unfold effective_sample_size. rewrite (bind_Ok _ _ _ _ _ E1).
    unfold ess_rho_hat_t. simpl mo_n_samples.
    rewrite (bind_Ok _ _ _ _ _ E2). reflexivity. }
  split; [exact E1|]. split; [exact E2|]. split.
  - rewrite <- Hsnd.
    apply (frames_extension (effective_sample_size n) (mkStore sim h)).
    apply frames_effective_sample_size.
  - rewrite length_skipn, Hl2, Hl1. simpl heap. simpl mo_m. simpl mo_n_samples.
    rewrite py_range_length. lia.
Qed.

Lemma effective_sample_size_allocations_witness :
  exists mo s1 rho_hat_t s2 l,
    ess_moments 0 (mkStore sim_123 [[7]%Q]) = (Ok mo, s1)
    /\ ess_rho_hat_t mo s1 = (Ok rho_hat_t, s2)
    /\ heap (snd (effective_sample_size 0 (mkStore sim_123 [[7]%Q])))
       = [[7]%Q] ++ l
    /\ Z.of_nat (List.length l)
       = 2 * mo_m mo
         + Z.min (mo_n_samples mo) (Z.of_nat (List.length rho_hat_t) + 1).
Proof.
  apply (effective_sample_size_allocations sim_123 0 [[7]%Q] (spec_ess sim_123 0)).
  - reflexivity.
  - vm_compute. discriminate.
  - vm_compute. reflexivity.
Defined.

(** ** A change of units of the parameter *)

Section MappedDraws.
Context {F : Type} {D : Double F}.
Variable f : F -> F.

Lemma py_index_map {A B : Type} (g : A -> B) (l : list A) (i : Z) :
  py_index (map g l) i = res_bind (py_index l i) (fun a => Ok (g a)).
Proof.
  unfold py_index. destruct (i <? 0); [reflexivity|].
  rewrite nth_error_map. destruct (nth_error l (Z.to_nat i)); reflexivity.
Qed.

Lemma dict_get_map_values {V W : Type} (g : V -> W) (d : list (string * V)) key :
  dict_get (map (fun kv => (fst kv, g (snd kv))) d) key
  = res_bind (dict_get d key) (fun v => Ok (g v)).
Proof.
  induction d as [|[k x] d IH]; simpl; [reflexivity|].
  destruct (String.eqb k key); [reflexivity | assumption].
Qed.

Lemma draws_map_draws (sim : Sim F) (k n : Z) :
  draws (map_draws f sim) k n
  = res_bind (draws sim k n) (fun nv => Ok (map f nv)).
Proof.
  unfold draws, map_draws. simpl sim_samples. rewrite py_index_map.
  destruct (py_index (sim_samples sim) k) as [slst| |]; simpl; try reflexivity.
  rewrite map_map. simpl.
  destruct (py_index (map (fun x => fst x) slst) n) as [key| |]; simpl;
    try reflexivity.
  apply dict_get_map_values.
Qed.

Lemma spec_kept_map_draws (sim : Sim F) (n k : Z) :
  spec_kept (map_draws f sim) n k = map f (spec_kept sim n k).
Proof.
  unfold spec_kept, kept. rewrite draws_map_draws.
  destruct (draws sim k n) as [nv| |]; simpl; try reflexivity.
  destruct (py_index (sim_warmup2 sim) k) as [w| |]; simpl; try reflexivity.
  apply skipn_map.
Qed.

Lemma chain_wf_map_draws (sim : Sim F) (n k : Z) :
  chain_wf (map_draws f sim) n k = chain_wf sim n k.
Proof.
  unfold chain_wf. rewrite draws_map_draws. simpl sim_n_save. simpl sim_warmup2.
  destruct (draws sim k n) as [nv| |]; simpl; try reflexivity.
  now rewrite length_map.
Qed.

Lemma well_formed_map_draws (sim : Sim F) (n : Z) :
  well_formed (map_draws f sim) n = well_formed sim n.
Proof.
  unfold well_formed. simpl. rewrite length_map. f_equal.
  induction (py_range 0 (sim_chains sim)) as [|k l IH]; simpl; [reflexivity|].
  now rewrite chain_wf_map_draws, IH.
Qed.

End MappedDraws.

Section AffineSums.
Local Open Scope Q_scope.
Variables a b : Q.

Lemma inject_Z_succ (k : nat) :
  inject_Z (Z.of_nat (S k)) == inject_Z (Z.of_nat k) + 1.
Proof. unfold Qeq, Qplus. simpl. lia. Qed.

Lemma sum_affine (l' l : list Q) :
  Forall2 (fun u v => u == a * v + b) l' l ->
  stan.sum l' == a * stan.sum l + inject_Z (Z.of_nat (List.length l)) * b.
Proof.
  induction 1 as [|u v l' l Huv Hl IH].
  - rewrite sum_nil. simpl. change (inject_Z 0) with 0. ring.
  - rewrite !sum_cons, IH, Huv. simpl List.length. rewrite inject_Z_succ. ring.
Qed.

Lemma sum_scaled (c : Q) (l' l : list Q) :
  Forall2 (fun u v => u == c * v) l' l -> stan.sum l' == c * stan.sum l.
Proof.
  induction 1 as [|u v l' l Huv Hl IH].
  - rewrite sum_nil. ring.
  - rewrite !sum_cons, IH, Huv. ring.
Qed.

Lemma mean_of_scaled (c : Q) (l' l : list Q) :
  Forall2 (fun u v => u == c * v) l' l ->
  stan.mean_of l' == c * stan.mean_of l.
Proof.
  intros H. unfold stan.mean_of. rewrite (Forall2_length H).
  pose proof (sum_scaled c l' l H) as Hs.
  set (S' := stan.sum l') in *. set (S := stan.sum l) in *.
  set (L := of_Z _). exact_ops. rewrite Hs. unfold Qdiv. ring.
Qed.

Lemma mean_of_affine (l' l : list Q) :
  Forall2 (fun u v => u == a * v + b) l' l -> l <> [] ->
  stan.mean_of l' == a * stan.mean_of l + b.
Proof.
  intros H Hne. unfold stan.mean_of. rewrite (Forall2_length H).
  pose proof (sum_affine l' l H) as Hs.
  assert (HL : 0 < inject_Z (Z.of_nat (List.length l))).
  { destruct l; [congruence|]. unfold Qlt. simpl. lia. }
  set (S' := stan.sum l') in *. set (S := stan.sum l) in *.
  exact_ops. set (L := inject_Z _) in *. rewrite Hs. field. lra.
Qed.

Lemma centered_affine (l' l : list Q) (mu' mu : Q) :
  Forall2 (fun u v => u == a * v + b) l' l -> mu' == a * mu + b ->
  Forall2 (fun u v => u == a * v) (stan.centered l' mu') (stan.centered l mu).
Proof.
  intros H Hmu. unfold stan.centered.
  induction H as [|u v l' l Huv Hl IH]; simpl; constructor; [|assumption].
  exact_ops. rewrite Huv, Hmu. ring.
Qed.

Lemma squares_scaled (d' d : list Q) :
  Forall2 (fun u v => u == a * v) d' d ->
  Forall2 (fun u v => u == (a * a) * v)
    (map (fun v => fmul v v) d') (map (fun v => fmul v v) d).
Proof.
  induction 1 as [|u v d' d Huv Hd IH]; simpl; constructor; [|assumption].
  exact_ops. rewrite Huv. ring.
Qed.

Lemma variance_of_affine (l' l : list Q) :
  Forall2 (fun u v => u == a * v + b) l' l -> l <> [] ->
  stan.variance_of l' == (a * a) * stan.variance_of l.
Proof.
  intros H Hne. unfold stan.variance_of. cbv zeta.
  rewrite (Forall2_length H).
  pose proof (sum_scaled (a * a) _ _
                (squares_scaled _ _
                   (centered_affine l' l _ _ H (mean_of_affine l' l H Hne))))
    as Hs.
  set (S' := stan.sum _) in *. set (S := stan.sum _) in *.
  set (L := of_Z _). exact_ops. rewrite Hs. unfold Qdiv. ring.
Qed.

Lemma Forall2_skipn {A B : Type} (R : A -> B -> Prop) t l' l :
  Forall2 R l' l -> Forall2 R (skipn t l') (skipn t l).
Proof.
  intros H. revert t. induction H as [|u v l' l Huv Hl IH]; intros [|t]; simpl;
    auto.
Qed.

Lemma products_scaled (x' x y' y : list Q) :
  Forall2 (fun u v => u == a * v) x' x ->
  Forall2 (fun u v => u == a * v) y' y ->
  Forall2 (fun u v => u == (a * a) * v)
    (map (fun p => fmul (fst p) (snd p)) (combine x' y'))
    (map (fun p => fmul (fst p) (snd p)) (combine x y)).
Proof.
  intros Hx. revert y' y.
  induction Hx as [|u v x' x Huv Hx IH]; intros y' y Hy; simpl; [constructor|].
  destruct Hy as [|u2 v2 y' y Huv2 Hy]; simpl; constructor; [|now apply IH].
  exact_ops. rewrite Huv, Huv2. ring.
Qed.

Lemma lag_products_scaled (d' d : list Q) (t : nat) :
  Forall2 (fun u v => u == a * v) d' d ->
  Forall2 (fun u v => u == (a * a) * v)
    (stan.lag_products d' t) (stan.lag_products d t).
Proof.
  intros H. unfold stan.lag_products.
  apply products_scaled; [assumption | now apply Forall2_skipn].
Qed.

Lemma nth_map_seq (g : nat -> Q) (len t : nat) :
  nth t (map g (seq 0 len)) 0 = if (t <? len)%nat then g t else 0.
Proof.
  destruct (Nat.ltb_spec t len) as [Hlt|Hge].
  - rewrite (nth_indep _ 0 (g 0%nat)) by (rewrite length_map, length_seq; lia).
    rewrite (map_nth g), seq_nth by lia. reflexivity.
  - apply nth_overflow. rewrite length_map, length_seq. lia.
Qed.

Lemma autocovariance_of_affine (l' l : list Q) (t : nat) :
  Forall2 (fun u v => u == a * v + b) l' l -> l <> [] ->
  nth t (stan.autocovariance_of l') (of_Z 0%Z)
  == (a * a) * nth t (stan.autocovariance_of l) (of_Z 0%Z).
Proof.
  intros H Hne. unfold stan.autocovariance_of. cbv zeta.
  rewrite (Forall2_length H).
  change (@of_Z Q exact 0%Z) with 0.
  rewrite !nth_map_seq.
  destruct (t <? List.length l)%nat; [|ring].
  pose proof (sum_scaled (a * a) _ _
                (lag_products_scaled _ _ t
                   (centered_affine l' l _ _ H (mean_of_affine l' l H Hne))))
    as Hs.
  set (S' := stan.sum _) in *. set (S := stan.sum _) in *.
  set (L := of_Z _). exact_ops. rewrite Hs. unfold Qdiv. ring.
Qed.

Lemma Forall2_map_affine (l : list Q) :
  Forall2 (fun u v => u == a * v + b) (map (fun x => a * x + b) l) l.
Proof. induction l; simpl; constructor; [reflexivity | assumption]. Qed.

Lemma Forall2_map_in {A : Type} (R : Q -> Q -> Prop) (g' g : A -> Q) (l : list A) :
  (forall x, In x l -> R (g' x) (g x)) -> Forall2 R (map g' l) (map g l).
Proof.
  induction l as [|x l IH]; intros H; simpl; constructor.
  - apply H. now left.
  - apply IH. intros; apply H; now right.
Qed.
End AffineSums.

Section AffineDraws.
Local Open Scope Q_scope.
Variable sim : Sim Q.
Variable n : Z.
Variables a b : Q.
Hypothesis WF : well_formed sim n = true.
Hypothesis Hmin : (2 <= common_length sim)%Z.
Hypothesis Ha : ~ a == 0.

Local Abbreviation sim' := (map_draws (fun x => a * x + b) sim).

Lemma affine_kept k :
  (0 <= k < sim_chains sim)%Z ->
  Forall2 (fun u v => u == a * v + b) (spec_kept sim' n k) (spec_kept sim n k)
  /\ spec_kept sim n k <> [].
Proof.
  intros Hk. rewrite spec_kept_map_draws. split.
  - apply Forall2_map_affine.
  - pose proof (spec_kept_length sim n WF Hmin k Hk) as Hl.
    intros E. rewrite E in Hl. simpl in Hl. lia.
Qed.

Lemma affine_chain_mean k :
  (0 <= k < sim_chains sim)%Z ->
  spec_chain_mean sim' n k == a * spec_chain_mean sim n k + b.
Proof.
  intros Hk. destruct (affine_kept k Hk) as [H Hne].
  unfold spec_chain_mean. now apply mean_of_affine.
Qed.

Lemma affine_acov k t :
  (0 <= k < sim_chains sim)%Z ->
  nth t (spec_acov sim' n k) (of_Z 0%Z)
  == (a * a) * nth t (spec_acov sim n k) (of_Z 0%Z).
Proof.
  intros Hk. destruct (affine_kept k Hk) as [H Hne].
  unfold spec_acov. now apply (autocovariance_of_affine a b).
Qed.

Lemma affine_chain_var k :
  (0 <= k < sim_chains sim)%Z ->
  spec_chain_var sim' n k == (a * a) * spec_chain_var sim n k.
Proof.
  intros Hk. unfold spec_chain_var.
  change (spec_n_kept sim' k) with (spec_n_kept sim k).
  pose proof (affine_acov k 0 Hk) as H0.
  set (A' := nth 0 (spec_acov sim' n k) _) in *.
  set (A := nth 0 (spec_acov sim n k) _) in *.
  exact_ops. rewrite H0. unfold Qdiv. ring.
Qed.

Lemma affine_mean_var : spec_mean_var sim' n == (a * a) * spec_mean_var sim n.
Proof.
  unfold spec_mean_var. apply mean_of_scaled.
  change (spec_chains sim') with (spec_chains sim).
  apply Forall2_map_in. intros k Hk. apply py_range_In in Hk.
  now apply affine_chain_var.
Qed.

Lemma affine_var_plus : spec_var_plus sim' n == (a * a) * spec_var_plus sim n.
Proof.
  destruct (well_formed_inv sim n WF) as (Hm & _).
  unfold spec_var_plus. cbv zeta.
  change (common_length sim') with (common_length sim).
  change (sim_chains sim') with (sim_chains sim).
  change (spec_chains sim') with (spec_chains sim).
  pose proof affine_mean_var as Hmv.
  assert (Hv : stan.variance_of (map (spec_chain_mean sim' n) (spec_chains sim))
               == (a * a) * stan.variance_of
                              (map (spec_chain_mean sim n) (spec_chains sim))).
  { apply (variance_of_affine a b).
    - apply Forall2_map_in. intros k Hk. apply py_range_In in Hk.
      now apply affine_chain_mean.
    - unfold spec_chains. rewrite py_range_cons by lia. discriminate. }
  set (mv' := spec_mean_var sim' n) in *. set (mv := spec_mean_var sim n) in *.
  set (V' := stan.variance_of _) in *. set (V := stan.variance_of _) in *.
  set (c1 := of_Z (common_length sim - 1)). set (c := of_Z (common_length sim)).
  destruct (1 <? sim_chains sim)%Z; exact_ops; rewrite Hmv; [rewrite Hv|];
    unfold Qdiv; ring.
Qed.

Lemma affine_mean_acov t :
  spec_mean_acov sim' n t == (a * a) * spec_mean_acov sim n t.
Proof.
  unfold spec_mean_acov. apply mean_of_scaled.
  change (spec_chains sim') with (spec_chains sim).
  apply (Forall2_map_in (fun u v => u == a * a * v)).
  intros k Hk. apply py_range_In in Hk. now apply affine_acov.
Qed.

Lemma affine_rho_hat t :
  ~ spec_var_plus sim n == 0 ->
  spec_rho_hat sim' n t == spec_rho_hat sim n t.
Proof.
  intros Hv. unfold spec_rho_hat.
  pose proof affine_mean_var as H1. pose proof (affine_mean_acov t) as H2.
  pose proof affine_var_plus as H3.
  set (mv' := spec_mean_var sim' n) in *. set (mv := spec_mean_var sim n) in *.
  set (ma' := spec_mean_acov sim' n t) in *.
  set (ma := spec_mean_acov sim n t) in *.
  set (vp' := spec_var_plus sim' n) in *. set (vp := spec_var_plus sim n) in *.
  exact_ops. rewrite H1, H2, H3. field. auto.
Qed.

Lemma is_zero_Qeq (x y : Q) : x == y -> is_zero x = is_zero y.
Proof.
  intros H. simpl.
  destruct (Qeq_bool x 0) eqn:Ex, (Qeq_bool y 0) eqn:Ey; try reflexivity.
  - apply Qeq_bool_eq in Ex. rewrite H in Ex.
    apply Qeq_eq_bool in Ex. congruence.
  - apply Qeq_bool_eq in Ey. rewrite <- H in Ey.
    apply Qeq_eq_bool in Ey. congruence.
Qed.

Lemma ge_zero_Qeq (x y : Q) : x == y -> ge_zero x = ge_zero y.
Proof.
  intros H. simpl.
  destruct (Qle_bool 0 x) eqn:Ex, (Qle_bool 0 y) eqn:Ey; try reflexivity.
  - apply Qle_bool_iff in Ex. rewrite H in Ex.
    apply Qle_bool_iff in Ex. congruence.
  - apply Qle_bool_iff in Ey. rewrite <- H in Ey.
    apply Qle_bool_iff in Ey. congruence.
Qed.

Lemma is_zero_false_neq (x : Q) : is_zero x = false -> ~ x == 0.
Proof.
  simpl. intros H E. apply Qeq_eq_bool in E. congruence.
Qed.

Lemma affine_is_zero_var_plus :
  is_zero (spec_var_plus sim' n) = is_zero (spec_var_plus sim n).
Proof.
  rewrite (is_zero_Qeq _ _ affine_var_plus).
  simpl. destruct (Qeq_bool (spec_var_plus sim n) 0) eqn:E.
  - apply Qeq_bool_eq in E. apply Qeq_eq_bool. rewrite E. ring.
  - destruct (Qeq_bool (a * a * spec_var_plus sim n) 0) eqn:E'; [|reflexivity].
    apply Qeq_bool_eq in E'.
    assert (Hz : spec_var_plus sim n == 0).
    { destruct (Qmult_integral _ _ E') as [Haa|Hv]; [|assumption].
      destruct (Qmult_integral _ _ Haa); contradiction. }
    apply Qeq_eq_bool in Hz. congruence.
Qed.

Lemma take_while_Qeq (l' l : list Q) :
  Forall2 Qeq l' l ->
  Forall2 Qeq (take_while ge_zero l') (take_while ge_zero l).
Proof.
  induction 1 as [|u v l' l Huv Hl IH]; cbn [take_while]; [constructor|].
  rewrite (ge_zero_Qeq u v Huv).
  destruct (ge_zero v); constructor; assumption.
Qed.

Lemma affine_rho_hat_t :
  is_zero (spec_var_plus sim n) = false ->
  Forall2 Qeq (spec_rho_hat_t sim' n) (spec_rho_hat_t sim n).
Proof.
  intros Hv. apply is_zero_false_neq in Hv.
  unfold spec_rho_hat_t. apply take_while_Qeq.
  change (common_length sim') with (common_length sim).
  apply Forall2_map_in. intros t _. now apply affine_rho_hat.
Qed.

Lemma sum_Qeq (l' l : list Q) : Forall2 Qeq l' l -> stan.sum l' == stan.sum l.
Proof.
  intros H. rewrite (sum_scaled 1 l' l); [ring|].
  eapply Forall2_impl; [|exact H]. intros u v Huv. simpl. rewrite Huv. ring.
Qed.

Lemma affine_effective_sample_size (h h' : list (list Q)) :
  (fst (effective_sample_size n (mkStore sim h)) = Raise ZeroDivisionError
   /\ fst (effective_sample_size n (mkStore sim' h')) = Raise ZeroDivisionError)
  \/ exists e e',
       fst (effective_sample_size n (mkStore sim h)) = Ok e
       /\ fst (effective_sample_size n (mkStore sim' h')) = Ok e'
       /\ e' == e.
Proof.
  assert (WF' : well_formed sim' n = true)
    by (now rewrite well_formed_map_draws).
  rewrite (returns_fst sim _ _ h (returns_effective_sample_size sim n WF Hmin)).
  rewrite (returns_fst sim' _ _ h'
             (returns_effective_sample_size sim' n WF' Hmin)).
  rewrite affine_is_zero_var_plus.
  destruct (is_zero (spec_var_plus sim n)) eqn:Hv; [left; auto|].
  pose proof (affine_rho_hat_t Hv) as Hr.
  pose proof (sum_Qeq _ _ Hr) as Hs.
  pose proof (Forall2_length Hr) as Hl.
  unfold ess_result. simpl mo_m. simpl mo_n_samples.
  change (common_length sim') with (common_length sim).
  change (sim_chains sim') with (sim_chains sim).
  rewrite Hl.
  destruct (0 <? Z.of_nat (List.length (spec_rho_hat_t sim n)))%Z.
  - set (T := of_Z (uint_mul (sim_chains sim) (common_length sim))).
    assert (Hd : fadd (of_Z 1%Z) (fmul (of_Z 2%Z) (stan.sum (spec_rho_hat_t sim' n)))
                 == fadd (of_Z 1%Z) (fmul (of_Z 2%Z) (stan.sum (spec_rho_hat_t sim n)))).
    { set (S' := stan.sum _) in *. set (S := stan.sum _) in *.
      exact_ops. rewrite Hs. reflexivity. }
    unfold cdiv. rewrite (is_zero_Qeq _ _ Hd).
    destruct (is_zero (fadd (of_Z 1%Z) (fmul (of_Z 2%Z) (stan.sum (spec_rho_hat_t sim n)))));
      [left; auto|right].
    do 2 eexists. split; [reflexivity|]. split; [reflexivity|].
    set (d' := fadd _ _) in *. set (d := fadd _ _) in *.
    exact_ops. rewrite Hd. reflexivity.
  - right. do 2 eexists. split; [reflexivity|]. split; reflexivity.
Qed.
End AffineDraws.

(** X18: in exact arithmetic the effective sample size does not depend on
    the unit of the parameter: replacing every draw [x] by [a * x + b]
    with [a] not 0 leaves the outcome of [effective_sample_size] on a
    well-formed snapshot with at least two kept draws per chain as it is
    (the same [ZeroDivisionError], or equal rational numbers), since the
    autocovariances, [mean_var] and [var_plus] are all multiplied by
    [a * a]. *)
Theorem effective_sample_size_affine_invariant
    (sim : Sim Q) (n : Z) (a b : Q) (h h' : list (list Q)) :
  well_formed sim n = true ->
  2 <= common_length sim ->
  ~ (a == 0)%Q ->
  (fst (effective_sample_size n (mkStore sim h)) = Raise ZeroDivisionError
   /\ fst (effective_sample_size n
             (mkStore (map_draws (fun x => a * x + b)%Q sim) h'))
      = Raise ZeroDivisionError)
  \/ exists e e',
       fst (effective_sample_size n (mkStore sim h)) = Ok e
       /\ fst (effective_sample_size n
                 (mkStore (map_draws (fun x => a * x + b)%Q sim) h'))
          = Ok e'
       /\ (e' == e)%Q.
Proof.
  intros WF Hmin Ha. now apply affine_effective_sample_size.
Qed.

Lemma effective_sample_size_affine_invariant_witness :
  (fst (effective_sample_size 0 (mkStore sim_three_chains []))
   = Raise ZeroDivisionError
   /\ fst (effective_sample_size 0
             (mkStore (map_draws (fun x => 2 * x + 5)%Q sim_three_chains) []))
      = Raise ZeroDivisionError)
  \/ exists e e',
       fst (effective_sample_size 0 (mkStore sim_three_chains [])) = Ok e
       /\ fst (effective_sample_size 0
                 (mkStore (map_draws (fun x => 2 * x + 5)%Q sim_three_chains) []))
          = Ok e'
       /\ (e' == e)%Q.
Proof.
  apply (effective_sample_size_affine_invariant sim_three_chains 0 2 5 [] []).
  - reflexivity.
  - vm_compute. discriminate.
  - unfold Qeq. simpl. lia.
Defined.

(** ** Chains that do not move *)

Lemma is_zero_false_of_neq (x : Q) : ~ (x == 0)%Q -> is_zero x = false.
Proof.
  intros H. destruct (is_zero x) eqn:E; [|reflexivity].
  exfalso. apply H. apply Qeq_bool_eq. exact E.
Qed.

Section StuckChains.
Local Open Scope Q_scope.
Variable sim : Sim Q.
Variable n : Z.
Variable c : Z -> Q.
Hypothesis WF : well_formed sim n = true.
Hypothesis Hmin : (2 <= common_length sim)%Z.
Hypothesis Hm : (1 < sim_chains sim)%Z.
Hypothesis Hc :
  forall k, (0 <= k < sim_chains sim)%Z ->
  forall x, In x (spec_kept sim n k) -> x == c k.

Lemma Forall2_constant (l : list Q) (v : Q) :
  (forall x, In x l -> x == v) -> Forall2 (fun u w => u == 0 * w + v) l l.
Proof.
  induction l as [|x l IH]; intros H; constructor.
  - rewrite (H x (or_introl eq_refl)). ring.
  - apply IH. intros; apply H; now right.
Qed.

Lemma stuck_kept k :
  (0 <= k < sim_chains sim)%Z ->
  Forall2 (fun u w => u == 0 * w + c k) (spec_kept sim n k) (spec_kept sim n k)
  /\ spec_kept sim n k <> [].
Proof.
  intros Hk. split; [apply Forall2_constant, Hc, Hk|].
  pose proof (spec_kept_length sim n WF Hmin k Hk) as Hl.
  intros E. rewrite E in Hl. simpl in Hl. lia.
Qed.

Lemma stuck_acov k t :
  (0 <= k < sim_chains sim)%Z -> nth t (spec_acov sim n k) (of_Z 0%Z) == 0.
Proof.
  intros Hk. destruct (stuck_kept k Hk) as [H Hne].
  unfold spec_acov. rewrite (autocovariance_of_affine 0 (c k) _ _ t H Hne).
  ring.
Qed.

Lemma stuck_chain_mean k :
  (0 <= k < sim_chains sim)%Z -> spec_chain_mean sim n k == 0 * 0 + c k.
Proof.
  intros Hk. destruct (stuck_kept k Hk) as [H Hne].
  unfold spec_chain_mean. rewrite (mean_of_affine 0 (c k) _ _ H Hne). ring.
Qed.

Lemma stuck_chain_var k :
  (0 <= k < sim_chains sim)%Z -> spec_chain_var sim n k == 0.
Proof.
  intros Hk. unfold spec_chain_var. pose proof (stuck_acov k 0 Hk) as H0.
  set (A := nth 0 (spec_acov sim n k) _) in *.
  exact_ops. rewrite H0. unfold Qdiv. ring.
Qed.

Lemma mean_of_zeros {A : Type} (g : A -> Q) (l : list A) :
  (forall x, In x l -> g x == 0) -> stan.mean_of (map g l) == 0.
Proof.
  intros H.
  rewrite (mean_of_scaled 0 (map g l) (map g l)); [ring|].
  apply Forall2_map_in. intros x Hx. rewrite (H x Hx). ring.
Qed.

Lemma stuck_mean_var : spec_mean_var sim n == 0.
Proof.
  unfold spec_mean_var. apply mean_of_zeros.
  intros k Hk. apply py_range_In in Hk. now apply stuck_chain_var.
Qed.

Lemma stuck_mean_acov t : spec_mean_acov sim n t == 0.
Proof.
  unfold spec_mean_acov. apply mean_of_zeros.
  intros k Hk. apply py_range_In in Hk. now apply stuck_acov.
Qed.

Lemma stuck_var_plus :
  spec_var_plus sim n == stan.variance_of (map c (spec_chains sim)).
Proof.
  unfold spec_var_plus. cbv zeta.
  destruct (Z.ltb_spec 1 (sim_chains sim)) as [_|]; [|lia].
  pose proof stuck_mean_var as Hmv.
  assert (Hv : stan.variance_of (map (spec_chain_mean sim n) (spec_chains sim))
               == 1 * 1 * stan.variance_of (map c (spec_chains sim))).
  { apply (variance_of_affine 1 0).
    - apply Forall2_map_in. intros k Hk. apply py_range_In in Hk.
      rewrite (stuck_chain_mean k Hk). ring.
    - unfold spec_chains. rewrite py_range_cons by lia. discriminate. }
  set (mv := spec_mean_var sim n) in *.
  set (V' := stan.variance_of _) in *. set (V := stan.variance_of _) in *.
  set (c1 := of_Z (common_length sim - 1)). set (c0 := of_Z (common_length sim)).
  exact_ops. rewrite Hmv, Hv. unfold Qdiv. ring.
Qed.

Hypothesis Hlevels : ~ stan.variance_of (map c (spec_chains sim)) == 0.

Lemma stuck_rho_hat t : spec_rho_hat sim n t == 1.
Proof.
  unfold spec_rho_hat.
  pose proof stuck_mean_var as H1. pose proof (stuck_mean_acov t) as H2.
  pose proof stuck_var_plus as H3.
  set (mv := spec_mean_var sim n) in *. set (ma := spec_mean_acov sim n t) in *.
  set (vp := spec_var_plus sim n) in *.
  set (V := stan.variance_of _) in *.
  exact_ops. rewrite H1, H2, H3. field. assumption.
Qed.

Lemma take_while_all_pass {A : Type} (p : A -> bool) (l : list A) :
  (forall x, In x l -> p x = true) -> take_while p l = l.
Proof.
  induction l as [|x l IH]; intros H; simpl; [reflexivity|].
  rewrite (H x (or_introl eq_refl)). f_equal.
  apply IH. intros; apply H; now right.
Qed.

Lemma stuck_rho_hat_t :
  spec_rho_hat_t sim n
  = map (spec_rho_hat sim n) (py_range 0 (common_length sim)).
Proof.
  unfold spec_rho_hat_t. apply take_while_all_pass.
  intros x Hx. apply in_map_iff in Hx as (t & <- & _).
  rewrite (ge_zero_Qeq _ 1 (stuck_rho_hat t)). reflexivity.
Qed.

Lemma stuck_sum :
  stan.sum (spec_rho_hat_t sim n) == inject_Z (common_length sim).
Proof.
  rewrite stuck_rho_hat_t.
  set (l := map _ _).
  assert (H : Forall2 (fun u w => u == 0 * w + 1) l l).
  { apply Forall2_constant. intros x Hx.
    apply in_map_iff in Hx as (t & <- & _). apply stuck_rho_hat. }
  rewrite (sum_affine 0 1 l l H).
  unfold l. rewrite length_map, py_range_length.
  replace (Z.of_nat (Z.to_nat (common_length sim - 0))) with (common_length sim)
    by lia.
  ring.
Qed.

Lemma stuck_effective_sample_size (h : list (list Q)) :
  (sim_chains sim * common_length sim < UINT_MAX1)%Z ->
  exists e,
    fst (effective_sample_size n (mkStore sim h)) = Ok e
    /\ e == inject_Z (sim_chains sim * common_length sim)
            / (1 + 2 * inject_Z (common_length sim)).
Proof.
  intros Hmul.
  rewrite (returns_fst sim _ _ h (returns_effective_sample_size sim n WF Hmin)).
  assert (Hv : is_zero (spec_var_plus sim n) = false).
  { rewrite (is_zero_Qeq _ _ stuck_var_plus). now apply is_zero_false_of_neq. }
  rewrite Hv. unfold ess_result. simpl mo_m. simpl mo_n_samples.
  rewrite uint_mul_small by nia.
  assert (Hlen : (0 <? Z.of_nat (List.length (spec_rho_hat_t sim n)))%Z = true).
  { rewrite stuck_rho_hat_t, length_map, py_range_length.
    apply Z.ltb_lt. lia. }
  rewrite Hlen.
  pose proof stuck_sum as Hs.
  assert (HN : 2 <= inject_Z (common_length sim))
    by (unfold Qle; simpl; lia).
  set (S := stan.sum _) in *.
  set (T := of_Z (sim_chains sim * common_length sim)).
  assert (Hd : fadd (of_Z 1%Z) (fmul (of_Z 2%Z) S)
               == 1 + 2 * inject_Z (common_length sim))
    by (exact_ops; rewrite Hs; reflexivity).
  exists (fdiv T (fadd (of_Z 1%Z) (fmul (of_Z 2%Z) S))). split.
  - apply cdiv_Ok. rewrite (is_zero_Qeq _ _ Hd).
    apply is_zero_false_of_pos. lra.
  - set (d := fadd _ _) in *. unfold T. exact_ops. rewrite Hd. reflexivity.
Qed.
End StuckChains.

(** X19: chains that never move are detected only when they agree.  In
    exact arithmetic, on a well-formed snapshot with two chains or more,
    each of them constant, whose levels do not all coincide,
    [effective_sample_size] raises nothing: every autocovariance and
    [mean_var] are 0 while [var_plus] is the variance of the levels, so
    every [rho_hat] is 1, all [N] lags are accumulated and the result is
    [m * N / (1 + 2 * N)], below [m / 2]. *)
Theorem constant_chains_at_different_levels
    (sim : Sim Q) (n : Z) (c : Z -> Q) (h : list (list Q)) :
  well_formed sim n = true ->
  2 <= common_length sim ->
  1 < sim_chains sim ->
  sim_chains sim * common_length sim < UINT_MAX1 ->
  (forall k, 0 <= k < sim_chains sim ->
     forall x, In x (spec_kept sim n k) -> (x == c k)%Q) ->
  ~ (stan.variance_of (map c (spec_chains sim)) == 0)%Q ->
  exists e,
    fst (effective_sample_size n (mkStore sim h)) = Ok e
    /\ (e == inject_Z (sim_chains sim * common_length sim)
             / (1 + 2 * inject_Z (common_length sim)))%Q.
Proof.
  intros WF Hmin Hm Hmul Hc Hl.
  now apply (stuck_effective_sample_size sim n c).
Qed.

Lemma constant_chains_at_different_levels_witness :
  exists e,
    fst (effective_sample_size 0 (mkStore sim_stuck [])) = Ok e
    /\ (e == inject_Z (sim_chains sim_stuck * common_length sim_stuck)
             / (1 + 2 * inject_Z (common_length sim_stuck)))%Q.
Proof.
  apply (constant_chains_at_different_levels sim_stuck 0
           (fun k => nth (Z.to_nat k) [1; 2; 4]%Q 0%Q) []).
  - reflexivity.
  - vm_compute. discriminate.
  - reflexivity.
  - reflexivity.
  - intros k Hk x Hx.
    assert (k = 0 \/ k = 1 \/ k = 2) as [-> | [-> | ->]] by (simpl in Hk; lia);
      simpl in Hx; intuition (subst; reflexivity).
  - vm_compute. discriminate.
Defined.
